(** * daily-trendz: the posting-session core, embedded and verified

    A shallow embedding of [src/lib/scheduler.js], [src/lib/dedupe.js],
    [src/lib/telegram.js], of [postProducts] and [validateAuth] from
    [src/api/run.js], of [enforceRateLimit] from [lib/amazon.js] and of
    the text helpers of [lib/formatter.js].

    Conventions of the embedding.
    - Module-level [let] variables of the JavaScript sources
      ([dailyCounters], [postedProducts]) are threaded explicitly.
    - [Date.now()] is an integer [now : Z] of milliseconds since the epoch.
    - The JSON configuration files ([config/limits.json],
      [config/categories.json]) are not part of the sources at hand; they
      are parameters of the development.  Their numeric entries are
      non-negative integers ([N]); an absent entry is [None].
    - A JavaScript number that is [NaN] or [undefined] is [None] in an
      [option Z]: every comparison with it is [false]. *)

From stdpp Require Import gmap strings list sorting.
From Equations Require Import Equations.
From Stdlib Require Import ZArith Ascii String Lia.

Local Open Scope string_scope.
Local Open Scope list_scope.
Local Open Scope Z_scope.

(** ** A few JavaScript primitives *)
Module Js.

(** [String.prototype.toLowerCase], on the ASCII range. *)
Definition lower_ascii (a : ascii) : ascii :=
  let n := N_of_ascii a in
  if ((65 <=? n) && (n <=? 90))%N then ascii_of_N (n + 32) else a.

Fixpoint toLowerCase (s : string) : string :=
  match s with
  | EmptyString => EmptyString
  | String a r => String (lower_ascii a) (toLowerCase r)
  end.

(** [String.prototype.includes]. *)
Fixpoint includes (hay needle : string) : bool :=
  String.prefix needle hay ||
  match hay with
  | EmptyString => false
  | String _ r => includes r needle
  end.

(** [String.prototype.startsWith]. *)
Definition startsWith (s p : string) : bool := String.prefix p s.

(** Truthiness of a string: only the empty string is falsy. *)
Definition truthy (s : string) : bool := negb (bool_decide (s = EmptyString)).

(** [x || d] for a configured number: [undefined] and [0] are falsy. *)
Definition or_default (x : option N) (d : Z) : Z :=
  match x with
  | Some n => if (n =? 0)%N then d else Z.of_N n
  | None => d
  end.

(** [x || 0] for a counter read out of an object. *)
Definition or_zero (x : option Z) : Z := default 0 x.

(** [a >= b] on numbers; [None] is [NaN]/[undefined]. *)
Definition ge (a b : option Z) : bool :=
  match a, b with
  | Some x, Some y => bool_decide (y ≤ x)
  | _, _ => false
  end.

(** [parseInt(s, 10)]: leading white space, an optional sign, then the
    longest run of decimal digits; [None] ([NaN]) when there is none.
    The value is the exact integer, which is what [parseInt] returns up
    to [2^53]. *)
Definition is_ws (a : ascii) : bool :=
  let n := N_of_ascii a in
  ((9 <=? n) && (n <=? 13) || (n =? 32))%N.

Fixpoint skip_ws (s : string) : string :=
  match s with
  | String a r => if is_ws a then skip_ws r else s
  | EmptyString => s
  end.

Definition digit_of (a : ascii) : option Z :=
  let n := N_of_ascii a in
  if ((48 <=? n) && (n <=? 57))%N then Some (Z.of_N n - 48) else None.

Fixpoint digits (acc : option Z) (s : string) : option Z :=
  match s with
  | String a r =>
      match digit_of a with
      | Some d => digits (Some (10 * default 0 acc + d)) r
      | None => acc
      end
  | EmptyString => acc
  end.

Definition parseInt10 (s : string) : option Z :=
  match skip_ws s with
  | String "-" r => Z.opp <$> digits None r
  | String "+" r => digits None r
  | r => digits None r
  end.

End Js.

(** ** Configuration and environment *)

(** [config/limits.json], as far as the core reads it. *)
Record Limits := {
  dailyLimits : gmap string N;       (* limits.dailyLimits[...] *)
  postsPerSlot : option N;           (* limits.posting?.postsPerSlot *)
  retryOnFailure : bool;             (* limits.posting.retryOnFailure *)
  maxRetries : option N;             (* limits.posting.maxRetries *)
  delayBetweenPostsMs : option N;    (* limits.posting.delayBetweenPostsMs *)
  ttlDays : option N;                (* limits.deduplication?.ttlDays *)
  maxTrackedProducts : option N;     (* limits.deduplication?.maxTrackedProducts *)
}.

(** [process.env], as far as the core reads it. *)
Record Env := {
  OVERRIDE_TOTAL_LIMIT : option string;
  SALE_MODE : option string;
  TELEGRAM_BOT_TOKEN : option string;
  TELEGRAM_CHANNEL_ID : option string;
}.

(** Milliseconds in a day; the calendar day of [toISOString().split('T')[0]]
    is identified with the UTC day number, of which the printed date is an
    injective image. *)
Definition MS_PER_DAY : Z := 24 * 60 * 60 * 1000.
Definition today_of (now : Z) : Z := now `div` MS_PER_DAY.

(** ** lib/scheduler.js *)
Module Scheduler.

(** The [dailyCounters] object.  [others] holds the own numeric
    properties that [incrementCounters] creates for a source other than
    the three initial ones.  The names [byCategory] and [date], and the
    members of [Object.prototype], are not source or category names:
    see [source_name] and [category_name] below, which the statements
    about stored counters assume of their names. *)
Record DailyCounters := {
  flipkart : Z;
  amazon : Z;
  total : Z;
  byCategory : gmap string Z;
  date : option Z;
  others : gmap string Z;
}.

Definition zeroCounters (d : option Z) : DailyCounters :=
  {| flipkart := 0; amazon := 0; total := 0; byCategory := ∅;
     date := d; others := ∅ |}.

(** [dailyCounters[source]] *)
Definition get_source (c : DailyCounters) (source : string) : option Z :=
  if bool_decide (source = "flipkart") then Some (flipkart c)
  else if bool_decide (source = "amazon") then Some (amazon c)
  else if bool_decide (source = "total") then Some (total c)
  else others c !! source.

(** [dailyCounters[source] = v] *)
Definition set_source (c : DailyCounters) (source : string) (v : Z)
  : DailyCounters :=
  if bool_decide (source = "flipkart") then
    {| flipkart := v; amazon := amazon c; total := total c;
       byCategory := byCategory c; date := date c; others := others c |}
  else if bool_decide (source = "amazon") then
    {| flipkart := flipkart c; amazon := v; total := total c;
       byCategory := byCategory c; date := date c; others := others c |}
  else if bool_decide (source = "total") then
    {| flipkart := flipkart c; amazon := amazon c; total := v;
       byCategory := byCategory c; date := date c; others := others c |}
  else
    {| flipkart := flipkart c; amazon := amazon c; total := total c;
       byCategory := byCategory c; date := date c;
       others := <[source := v]> (others c) |}.

Definition set_total (c : DailyCounters) (v : Z) : DailyCounters :=
  set_source c "total" v.

Definition set_category (c : DailyCounters) (k : string) (v : Z)
  : DailyCounters :=
  {| flipkart := flipkart c; amazon := amazon c; total := total c;
     byCategory := <[k := v]> (byCategory c); date := date c;
     others := others c |}.

(** [initCounters(force)] at time [now]. *)
Definition initCounters (force : bool) (now : Z) (c : DailyCounters)
  : DailyCounters :=
  let today := today_of now in
  if force || negb (bool_decide (date c = Some today))
  then zeroCounters (Some today)
  else c.

(** [resetCounters()] *)
Definition resetCounters : DailyCounters := zeroCounters None.

Section WithConfig.
Variable limits : Limits.
Variable env : Env.

(** [isSaleMode()] *)
Definition isSaleMode : bool :=
  match SALE_MODE env with
  | Some s => bool_decide (Js.toLowerCase s = "true")
  | None => false
  end.

(** [getTotalLimit()]: the override when [OVERRIDE_TOTAL_LIMIT] is a
    non-empty string, else the cap of the sale mode or the normal cap. *)
Definition getTotalLimit : option Z :=
  let configured :=
    if isSaleMode then Z.of_N <$> dailyLimits limits !! "saleMode"
    else Z.of_N <$> dailyLimits limits !! "total" in
  match OVERRIDE_TOTAL_LIMIT env with
  | Some s => if Js.truthy s then Js.parseInt10 s else configured
  | None => configured
  end.

Definition sourceLimit (source : string) : Z :=
  Js.or_default (dailyLimits limits !! source) 10.
Definition categoryLimit : Z :=
  Js.or_default (dailyLimits limits !! "perCategory") 4.

Definition reasonTotal : string := "Daily total limit reached".
Definition reasonSource (source : string) : string :=
  "Daily " +:+ source +:+ " limit reached".
Definition reasonCategory (categoryKey : string) : string :=
  "Category " +:+ categoryKey +:+ " limit reached".
Definition reasonOK : string := "OK".

(** [canPost(source, categoryKey)] at time [now]: the counters as
    [initCounters()] leaves them, and [{ allowed, reason }]. *)
Definition canPost (now : Z) (source categoryKey : string)
    (c : DailyCounters) : DailyCounters * (bool * string) :=
  let c := initCounters false now c in
  let totalLimit := getTotalLimit in
  let sourceLimit := sourceLimit source in
  let categoryLimit := categoryLimit in
  if Js.ge (Some (total c)) totalLimit then
    (c, (false, reasonTotal))
  else if Js.ge (get_source c source) (Some sourceLimit) then
    (c, (false, reasonSource source))
  else
    let categoryCount := Js.or_zero (byCategory c !! categoryKey) in
    if Js.ge (Some categoryCount) (Some categoryLimit) then
      (c, (false, reasonCategory categoryKey))
    else
      (c, (true, reasonOK)).

(** [getPostsForSession()] *)
Definition getPostsForSession (now : Z) (c : DailyCounters)
  : DailyCounters * option Z :=
  let c := initCounters false now c in
  let postsPerSlot := Js.or_default (postsPerSlot limits) 4 in
  let remaining := (λ l, l - total c) <$> getTotalLimit in
  (c, Z.min postsPerSlot <$> remaining).

(** [getSourcePriority()] *)
Definition getSourcePriority (now : Z) (c : DailyCounters)
  : DailyCounters * list string :=
  let c := initCounters false now c in
  let room (s : string) (n : Z) :=
    match dailyLimits limits !! s with
    | Some l => bool_decide (n < Z.of_N l)
    | None => false
    end in
  (c, ((if room "flipkart" (flipkart c) then ["flipkart"] else []) ++
       (if room "amazon" (amazon c) then ["amazon"] else []))%list).

End WithConfig.

(** [incrementCounters(source, categoryKey)] at time [now]. *)
Definition incrementCounters (now : Z) (source categoryKey : string)
    (c : DailyCounters) : DailyCounters :=
  let c := initCounters false now c in
  let c := set_total c (total c + 1) in
  let c := set_source c source (Js.or_zero (get_source c source) + 1) in
  set_category c categoryKey
    (Js.or_zero (byCategory c !! categoryKey) + 1).

(** [getStats()] *)
Definition getStats (now : Z) (c : DailyCounters)
  : DailyCounters * DailyCounters :=
  let c := initCounters false now c in (c, c).

(** [config/categories.json]: the keys in the order of [Object.keys], each
    with what the core reads of its definition. *)
Record CategoryInfo := {
  flipkartId : option string;
  amazonNode : option string;
  weight : option N;
}.

(** The array [weighted]: each key, [weight || 1] times. *)
Definition buildWeighted (categories : list (string * CategoryInfo))
  : list string :=
  flat_map (λ c, replicate (Z.to_nat (Js.or_default (weight c.2) 1)) c.1)
           categories.

(** [Math.floor(Math.random() * len)], for the random number
    [(r.1 mod (r.2 + 1)) / (r.2 + 1)] of the interval [0, 1). *)
Definition random_index (r : nat * nat) (len : nat) : nat :=
  (((r.1 `mod` S r.2) * len) `div` S r.2)%nat.

Lemma random_index_lt r len : (0 < len)%nat → (random_index r len < len)%nat.
Proof.
  intros Hlen. unfold random_index.
  apply Nat.Div0.div_lt_upper_bound.
  pose proof (Nat.mod_upper_bound r.1 (S r.2)). nia.
Qed.

(** Removing all instances of an element that occurs shortens the array. *)
Lemma remove_all_shorter (category : string) (weighted : list string) :
  category ∈ weighted →
  (List.length (filter (λ k, k ≠ category) weighted) < List.length weighted)%nat.
Proof.
  induction 1 as [k l|k k' l _ IH].
  - rewrite filter_cons_False by naive_solver.
    simpl. pose proof (length_filter (λ k', k' ≠ k) l). lia.
  - destruct (decide (k' ≠ k)).
    + rewrite filter_cons_True by done. simpl. lia.
    + rewrite filter_cons_False by done. simpl. lia.
Qed.

(** The [while] loop of [selectCategories]; [random i] is what the [i]-th
    call of [Math.random()] returns. *)
Equations? selectLoop (count : nat) (random : nat → nat * nat) (i : nat)
    (selected weighted : list string) : list string
    by wf (List.length weighted) lt :=
  selectLoop count random i selected [] := selected;
  selectLoop count random i selected (w :: ws)
    with decide (List.length selected < count)%nat := {
    | right _ => selected
    | left _ =>
        let index := random_index (random i) (List.length (w :: ws)) in
        let category := (w :: ws) !!! index in
        selectLoop count random (S i)
          (if bool_decide (category ∈ selected) then selected
           else selected ++ [category])
          (filter (λ k, k ≠ category) (w :: ws)) }.
Proof.
  apply remove_all_shorter.
  apply list_elem_of_lookup_total_2, random_index_lt. simpl. lia.
Qed.

(** [selectCategories(count)] *)
Definition selectCategories (categories : list (string * CategoryInfo))
    (random : nat → nat * nat) (count : nat) : list string :=
  selectLoop count random 0 [] (buildWeighted categories).

End Scheduler.

(** ** Property names

    [dailyCounters], [dailyCounters.byCategory] and [limits.dailyLimits]
    are plain objects.  A name that [Object.prototype] defines is found
    in them without having been stored (a lookup gives the inherited
    member, which is no number), and [date] and [byCategory] are
    properties of [dailyCounters] that are no counters.  The embedding
    keeps the numbers stored under the other names; a statement that
    depends on what is found or stored under the name of a source or of
    a category is made for these other names. *)
Definition object_prototype_names : list string :=
  ["constructor"; "__proto__"; "hasOwnProperty"; "isPrototypeOf";
   "propertyIsEnumerable"; "toLocaleString"; "toString"; "valueOf";
   "__defineGetter__"; "__defineSetter__"; "__lookupGetter__";
   "__lookupSetter__"].

(** A key of [byCategory] under which only counts are found. *)
Definition category_name (categoryKey : string) : bool :=
  negb (bool_decide (categoryKey ∈ object_prototype_names)).

(** A property of [dailyCounters] under which only counts are found. *)
Definition source_name (source : string) : bool :=
  category_name source
  && negb (bool_decide (source = "date"))
  && negb (bool_decide (source = "byCategory")).

(** ** lib/dedupe.js *)
Module Dedupe.

(** A JavaScript [Map] from keys to timestamps, as its entries in insertion
    order.  Keys of a [Map] are unique ([NoDup (m.*1)]); the operations
    below keep them so. *)
Abbreviation PostedMap := (list (string * Z)).

(** [m.get(k)] ([None] when [m.has(k)] is false). *)
Fixpoint map_get (k : string) (m : PostedMap) : option Z :=
  match m with
  | [] => None
  | (k', v) :: r => if bool_decide (k' = k) then Some v else map_get k r
  end.

(** [m.set(k, v)]: an existing key keeps its place, a new one goes last. *)
Fixpoint map_set (k : string) (v : Z) (m : PostedMap) : PostedMap :=
  match m with
  | [] => [(k, v)]
  | (k', v') :: r =>
      if bool_decide (k' = k) then (k', v) :: r else (k', v') :: map_set k v r
  end.

(** [m.delete(k)] *)
Definition map_delete (k : string) (m : PostedMap) : PostedMap :=
  filter (λ e, e.1 ≠ k) m.

(** [new Map(entries)] and [Object.fromEntries(entries)]: the entries are
    set one after the other. *)
Definition fromEntries (entries : list (string * Z)) : PostedMap :=
  foldl (λ acc e, map_set e.1 e.2 acc) [] entries.

(** A stable sort, as [Array.prototype.sort] is: [x] goes before the first
    element it is not greater than. *)
Fixpoint insert_by {A} (key : A → Z) (x : A) (l : list A) : list A :=
  match l with
  | [] => [x]
  | y :: r =>
      if bool_decide (key x ≤ key y) then x :: l else y :: insert_by key x r
  end.

Definition sort_by {A} (key : A → Z) (l : list A) : list A :=
  foldr (insert_by key) [] l.

(** [entries.slice(-n)], for [n > 0]: the last [n] entries. *)
Definition slice_last {A} (n : Z) (l : list A) : list A :=
  drop (List.length l - Z.to_nat n) l.

(** An array index: the canonical decimal numeral of an integer below
    [2^32 - 1].  Such keys come first, in ascending order, when the own
    properties of an object are listed. *)
Definition is_digit (a : ascii) : bool := bool_decide (is_Some (Js.digit_of a)).

Definition array_index (k : string) : option Z :=
  match k with
  | EmptyString => None
  | String a r =>
      if forallb is_digit (list_ascii_of_string k)
         && (bool_decide (r = EmptyString) || negb (bool_decide (a = "0"%char)))
      then
        match Js.digits None k with
        | Some v => if bool_decide (v ≤ 4294967294) then Some v else None
        | None => None
        end
      else None
  end.

(** [Object.entries(o)], and the member order of [JSON.stringify(o)], for
    an object [o] given by its properties in creation order. *)
Definition objectEntries (o : list (string * Z)) : list (string * Z) :=
  sort_by (λ e, default 0 (array_index e.1))
          (filter (λ e, is_Some (array_index e.1)) o)
  ++ filter (λ e, ¬ is_Some (array_index e.1)) o.

(** What [data/posted.json] holds: text that [JSON.parse] refuses, or the
    members of a JSON object with integer values, in the order of the
    text. *)
Inductive FileContent :=
| Unparsable
| JsonObject (members : list (string * Z)).

(** The durable store: [None] when [data/posted.json] does not exist. *)
Abbreviation Store := (option FileContent).

(** A product as the core reads it ([id] and [name] may be undefined). *)
Record Product := {
  id : option string;
  name : option string;
  source : string;
  categoryKey : string;
  imageUrl : string;
}.

(** [!productId] *)
Definition no_id (productId : option string) : bool :=
  match productId with
  | Some s => negb (Js.truthy s)
  | None => true
  end.

(** [String(productId)] and [`${productId}`] *)
Definition id_text (productId : option string) : string :=
  default "undefined" productId.

(** The key both [markPosted] and [isDuplicate] build. *)
Definition uniqueKey (productId : option string) (source : string) : string :=
  if Js.truthy source
  then Js.toLowerCase (Js.toLowerCase source +:+ "_" +:+ id_text productId)
  else Js.toLowerCase (id_text productId).

Section WithConfig.
Variable limits : Limits.

Definition TTL_DAYS : Z := Js.or_default (ttlDays limits) 7.
Definition MAX_TRACKED : Z := Js.or_default (maxTrackedProducts limits) 1000.
Definition TTL_MS : Z := TTL_DAYS * 24 * 60 * 60 * 1000.

(** [loadFromFile()] at time [now]. *)
Definition loadFromFile (now : Z) (file : Store) (postedProducts : PostedMap)
  : PostedMap :=
  match file with
  | Some (JsonObject members) =>
      let data := fromEntries members in
      fromEntries
        (filter (λ e, now - e.2 < TTL_MS) (objectEntries data))
  | Some Unparsable => []
  | None => postedProducts
  end.

(** [cleanupExpired()] at time [now]. *)
Definition cleanupExpired (now : Z) (postedProducts : PostedMap) : PostedMap :=
  filter (λ e, ¬ (TTL_MS ≤ now - e.2)) postedProducts.

(** [saveToFile()] at time [now]: the map it leaves in memory and the
    file it writes. *)
Definition saveToFile (now : Z) (postedProducts : PostedMap)
  : PostedMap * Store :=
  let postedProducts := cleanupExpired now postedProducts in
  let postedProducts :=
    if bool_decide (MAX_TRACKED < Z.of_nat (List.length postedProducts)) then
      let entries := sort_by snd postedProducts in
      fromEntries (slice_last MAX_TRACKED entries)
    else postedProducts in
  let data := fromEntries postedProducts in
  (postedProducts, Some (JsonObject (objectEntries data))).

(** [isPosted(productId)] at time [now], for a string argument. *)
Definition isPosted (now : Z) (productId : string) (postedProducts : PostedMap)
  : PostedMap * bool :=
  if negb (Js.truthy productId) then (postedProducts, false)
  else
    let normalizedId := Js.toLowerCase productId in
    match map_get normalizedId postedProducts with
    | Some timestamp =>
        let age := now - timestamp in
        if bool_decide (age < TTL_MS) then (postedProducts, true)
        else (map_delete normalizedId postedProducts, false)
    | None => (postedProducts, false)
    end.

(** [isDuplicate(productId, source)] at time [now]. *)
Definition isDuplicate (now : Z) (productId : option string) (source : string)
    (postedProducts : PostedMap) : PostedMap * bool :=
  isPosted now (uniqueKey productId source) postedProducts.

(** [filterDuplicates(products)] at time [now]. *)
Fixpoint filterDuplicates (now : Z) (products : list Product)
    (postedProducts : PostedMap) : PostedMap * list Product :=
  match products with
  | [] => (postedProducts, [])
  | product :: rest =>
      if no_id (id product) then filterDuplicates now rest postedProducts
      else
        let '(postedProducts, dup) :=
          isDuplicate now (id product) (source product) postedProducts in
        let '(postedProducts, kept) :=
          filterDuplicates now rest postedProducts in
        (postedProducts, if dup then kept else product :: kept)
  end.

End WithConfig.

(** [markPosted(productId, source)] at time [now]. *)
Definition markPosted (now : Z) (productId : option string) (source : string)
    (postedProducts : PostedMap) : PostedMap :=
  if no_id productId then postedProducts
  else map_set (uniqueKey productId source) now postedProducts.

(** [clear()] *)
Definition clear : PostedMap := [].

(** [getTrackedCount()] *)
Definition getTrackedCount (postedProducts : PostedMap) : nat :=
  List.length postedProducts.

(** [initialize()] and [flush()] *)
Definition initialize := loadFromFile.
Definition flush := saveToFile.

End Dedupe.

(** ** Effects: the clock, the network, exceptions *)
Module Eff.

(** What a call to [fetch] followed by [response.json()] comes to: a
    rejection, or the [ok] and [description] fields of the reply. *)
Inductive FetchOutcome :=
| NetworkError (message : string)
| ApiResponse (ok : bool) (description : option string).

(** The network: the outcome of the [n]-th request of a run and the time
    it takes, in milliseconds. *)
Record Network := {
  respond : nat → FetchOutcome;
  latency : nat → Z;
}.

(** The [results] object of [postProducts]. *)
Record Results := {
  posted : Z;
  skipped : Z;
  failed : Z;
  flipkart : Z;
  amazon : Z;
  errors : list string;
}.

(** The mutable state of a run. *)
Record World := {
  clock : Z;                                   (* Date.now() *)
  requests : nat;                              (* requests sent so far *)
  dailyCounters : Scheduler.DailyCounters;     (* scheduler.js *)
  postedProducts : Dedupe.PostedMap;           (* dedupe.js *)
  results : Results;                           (* run.js, postProducts *)
}.

(** A computation returns a value or throws an [Error] with a message. *)
Inductive Outcome (A : Type) :=
| Return (a : A)
| Throw (message : string).
Arguments Return {A} a.
Arguments Throw {A} message.

Definition M (A : Type) : Type := World → Outcome A * World.

Definition ret {A} (a : A) : M A := λ w, (Return a, w).

Definition bind {A B} (m : M A) (k : A → M B) : M B :=
  λ w, match m w with
       | (Return a, w') => k a w'
       | (Throw e, w') => (Throw e, w')
       end.

Definition throw {A} (message : string) : M A := λ w, (Throw message, w).

(** [try { m } catch (error) { h error.message }] *)
Definition try_catch {A} (m : M A) (h : string → M A) : M A :=
  λ w, match m w with
       | (Return a, w') => (Return a, w')
       | (Throw e, w') => h e w'
       end.

Definition get : M World := λ w, (Return w, w).
Definition modify (f : World → World) : M unit := λ w, (Return tt, f w).

Definition with_clock (t : Z) (w : World) : World :=
  {| clock := t; requests := requests w; dailyCounters := dailyCounters w;
     postedProducts := postedProducts w; results := results w |}.
Definition with_requests (n : nat) (w : World) : World :=
  {| clock := clock w; requests := n; dailyCounters := dailyCounters w;
     postedProducts := postedProducts w; results := results w |}.
Definition with_counters (c : Scheduler.DailyCounters) (w : World) : World :=
  {| clock := clock w; requests := requests w; dailyCounters := c;
     postedProducts := postedProducts w; results := results w |}.
Definition with_posted (m : Dedupe.PostedMap) (w : World) : World :=
  {| clock := clock w; requests := requests w;
     dailyCounters := dailyCounters w; postedProducts := m;
     results := results w |}.
Definition with_results (r : Results) (w : World) : World :=
  {| clock := clock w; requests := requests w;
     dailyCounters := dailyCounters w; postedProducts := postedProducts w;
     results := r |}.

(** [await new Promise(resolve => setTimeout(resolve, ms))] *)
Definition sleep (ms : Z) : M unit :=
  modify (λ w, with_clock (clock w + ms) w).

(** [await fetch(...)] and [await response.json()] *)
Definition fetch (net : Network) : M FetchOutcome :=
  λ w, (Return (respond net (requests w)),
        with_requests (S (requests w))
          (with_clock (clock w + latency net (requests w)) w)).

End Eff.

Declare Scope eff_scope.
Delimit Scope eff_scope with eff.
Notation "x <- m ;; k" := (Eff.bind m (λ x, k))
  (at level 100, m at next level, right associativity) : eff_scope.
Notation "m ;; k" := (Eff.bind m (λ _, k))
  (at level 100, right associativity) : eff_scope.

(** ** lib/telegram.js *)
Module Telegram.
Import Eff.
Local Open Scope eff_scope.

Section WithConfig.
Variable limits : Limits.
Variable env : Env.
Variable net : Network.

(** [getCredentials()] *)
Definition getCredentials : M (string * string) :=
  match TELEGRAM_BOT_TOKEN env, TELEGRAM_CHANNEL_ID env with
  | Some botToken, Some channelId =>
      if Js.truthy botToken && Js.truthy channelId
      then ret (botToken, channelId)
      else throw "Telegram credentials not configured"
  | _, _ => throw "Telegram credentials not configured"
  end.

(** [data.description || fallback] *)
Definition description_or (description : option string) (fallback : string)
  : string :=
  match description with
  | Some d => if Js.truthy d then d else fallback
  | None => fallback
  end.

(** [sendMessage(text)] *)
Definition sendMessage (text : string) : M unit :=
  _ <- getCredentials ;;
  try_catch
    (data <- fetch net ;;
     match data with
     | NetworkError message => throw message
     | ApiResponse ok description =>
         if negb ok then throw (description_or description "Telegram API error")
         else ret tt
     end)
    (λ error, throw error).

(** The [for] loop of [sendMessageWithRetry], with [attempts] iterations
    left; [None] is [null]. *)
Fixpoint retryLoop (attempts : nat) (text : string) : M (option unit) :=
  match attempts with
  | O => ret None
  | S remaining =>
      try_catch
        (data <- sendMessage text ;; ret (Some data))
        (λ error,
           if Js.includes error "Too Many Requests" then ret None
           else
             (if bool_decide (0 < remaining)%nat then sleep 2000 else ret tt) ;;
             retryLoop remaining text)
  end.

(** [sendMessageWithRetry(text)]: [attempt] runs from [0] to [maxRetries];
    with [maxRetries] undefined the loop body never runs. *)
Definition sendMessageWithRetry (text : string) : M (option unit) :=
  let attempts :=
    if retryOnFailure limits then
      match maxRetries limits with
      | Some n => S (N.to_nat n)
      | None => O
      end
    else 1%nat in
  retryLoop attempts text.

(** [sendPhoto(photoUrl, caption)] *)
Definition sendPhoto (photoUrl caption : string) : M (option unit) :=
  _ <- getCredentials ;;
  try_catch
    (data <- fetch net ;;
     match data with
     | NetworkError message => throw message
     | ApiResponse ok description =>
         if negb ok
         then throw (description_or description "Telegram photo send error")
         else ret (Some tt)
     end)
    (λ error, ret None).

(** [postDeal(formattedMessage, imageUrl)] *)
Definition postDeal (formattedMessage imageUrl : string) : M bool :=
  try_catch
    (photo <-
       (if Js.truthy imageUrl && Js.startsWith imageUrl "http"
        then sendPhoto imageUrl formattedMessage
        else ret None) ;;
     match photo with
     | Some _ => ret true
     | None =>
         result <- sendMessageWithRetry formattedMessage ;;
         ret (bool_decide (is_Some result))
     end)
    (λ error, ret false).

(** [postDelay()] *)
Definition postDelay : M unit :=
  sleep (Js.or_default (delayBetweenPostsMs limits) 2000).

End WithConfig.
End Telegram.

(** ** api/run.js: [postProducts] *)
Module Run.
Import Eff.
Import Dedupe.
Local Open Scope eff_scope.

Definition emptyResults : Results :=
  {| posted := 0; skipped := 0; failed := 0; flipkart := 0; amazon := 0;
     errors := [] |}.

Definition update_results (f : Results → Results) : M unit :=
  modify (λ w, with_results (f (results w)) w).

(** [results.posted++] *)
Definition incr_posted (r : Results) : Results :=
  {| posted := posted r + 1; skipped := skipped r; failed := failed r;
     flipkart := flipkart r; amazon := amazon r; errors := errors r |}.
(** [results.skipped++] *)
Definition incr_skipped (r : Results) : Results :=
  {| posted := posted r; skipped := skipped r + 1; failed := failed r;
     flipkart := flipkart r; amazon := amazon r; errors := errors r |}.
(** [results.failed++] *)
Definition incr_failed (r : Results) : Results :=
  {| posted := posted r; skipped := skipped r; failed := failed r + 1;
     flipkart := flipkart r; amazon := amazon r; errors := errors r |}.
(** [results.errors.push(message)] *)
Definition push_error (message : string) (r : Results) : Results :=
  {| posted := posted r; skipped := skipped r; failed := failed r;
     flipkart := flipkart r; amazon := amazon r;
     errors := errors r ++ [message] |}.

(** [results[source]++]: the property named by the source.  For a name
    that is no numeric property of [results] the increment stores a
    [NaN] under that name, which the record does not keep.  The name
    [errors], under which the increment would replace the array, is no
    source here: the statements about runs are made for flipkart and
    amazon. *)
Definition incr_source (source : string) (r : Results) : Results :=
  if bool_decide (source = "flipkart") then
    {| posted := posted r; skipped := skipped r; failed := failed r;
       flipkart := flipkart r + 1; amazon := amazon r; errors := errors r |}
  else if bool_decide (source = "amazon") then
    {| posted := posted r; skipped := skipped r; failed := failed r;
       flipkart := flipkart r; amazon := amazon r + 1; errors := errors r |}
  else if bool_decide (source = "posted") then incr_posted r
  else if bool_decide (source = "skipped") then incr_skipped r
  else if bool_decide (source = "failed") then incr_failed r
  else r.

Section WithConfig.
Variable limits : Limits.
Variable env : Env.
Variable net : Network.
(** [formatter.formatProduct], from [lib/formatter.js]. *)
Variable formatProduct : Product → string → string.

(** The trackers' operations, run on the state of the world. *)
Definition getPostsForSession : M (option Z) :=
  λ w, let '(c, n) :=
         Scheduler.getPostsForSession limits env (clock w) (dailyCounters w) in
       (Return n, with_counters c w).

Definition canPost (source categoryKey : string) : M (bool * string) :=
  λ w, let '(c, r) :=
         Scheduler.canPost limits env (clock w) source categoryKey
           (dailyCounters w) in
       (Return r, with_counters c w).

Definition incrementCounters (source categoryKey : string) : M unit :=
  modify (λ w, with_counters
                 (Scheduler.incrementCounters (clock w) source categoryKey
                    (dailyCounters w)) w).

Definition isDuplicate (productId : option string) (source : string)
  : M bool :=
  λ w, let '(m, d) :=
         Dedupe.isDuplicate limits (clock w) productId source
           (postedProducts w) in
       (Return d, with_posted m w).

Definition markPosted (productId : option string) (source : string)
  : M unit :=
  modify (λ w, with_posted
                 (Dedupe.markPosted (clock w) productId source
                    (postedProducts w)) w).

(** [product.name.substring(0, 50)], of which only the failure matters. *)
Definition name_substring (product : Product) : M unit :=
  match name product with
  | Some _ => ret tt
  | None => throw "Cannot read properties of undefined (reading 'substring')"
  end.

(** The [for] loop of [postProducts]; a [break] ends the recursion. *)
Fixpoint postLoop (postsTarget : option Z) (products : list Product)
  : M unit :=
  match products with
  | [] => ret tt
  | product :: rest =>
      w <- get ;;
      if Js.ge (Some (posted (results w))) postsTarget then ret tt
      else
        check <- canPost (source product) (categoryKey product) ;;
        if negb check.1 then
          update_results incr_skipped ;; postLoop postsTarget rest
        else
          dup <- isDuplicate (id product) (source product) ;;
          if dup then
            update_results incr_skipped ;; postLoop postsTarget rest
          else
            let message := formatProduct product (categoryKey product) in
            stop <-
              try_catch
                (success <- Telegram.postDeal limits env net message
                              (imageUrl product) ;;
                 if success then
                   update_results incr_posted ;;
                   update_results (incr_source (source product)) ;;
                   markPosted (id product) (source product) ;;
                   incrementCounters (source product) (categoryKey product) ;;
                   name_substring product ;;
                   Telegram.postDelay limits ;;
                   ret false
                 else
                   update_results incr_failed ;;
                   update_results
                     (push_error ("Failed to post: " +:+ id_text (id product))) ;;
                   ret false)
                (λ error,
                   update_results incr_failed ;;
                   update_results (push_error error) ;;
                   ret (Js.includes error "Too Many Requests")) ;;
            if (stop : bool) then ret tt else postLoop postsTarget rest
  end.

(** [postProducts(products)] *)
Definition postProducts (products : list Product) : M Results :=
  update_results (λ _, emptyResults) ;;
  postsTarget <- getPostsForSession ;;
  postLoop postsTarget products ;;
  w <- get ;;
  ret (results w).

End WithConfig.
End Run.

(** * Example configuration

    The limits of the README's table (15 posts a day, 30 in sale mode, 8
    for flipkart, 7 for amazon, 4 per category), an environment with
    credentials and no override, and a formatter. *)
Definition readme_limits : Limits :=
  {| dailyLimits :=
       list_to_map [("total", 15%N); ("saleMode", 30%N); ("flipkart", 8%N);
                    ("amazon", 7%N); ("perCategory", 4%N)];
     postsPerSlot := Some 4%N;
     retryOnFailure := true;
     maxRetries := Some 2%N;
     delayBetweenPostsMs := Some 2000%N;
     ttlDays := Some 7%N;
     maxTrackedProducts := Some 1000%N |}.

Definition plain_env : Env :=
  {| OVERRIDE_TOTAL_LIMIT := None; SALE_MODE := None;
     TELEGRAM_BOT_TOKEN := Some "token"; TELEGRAM_CHANNEL_ID := Some "@channel" |}.

Definition plain_format (product : Dedupe.Product) (categoryKey : string)
  : string :=
  Dedupe.id_text (Dedupe.id product) +:+ " in " +:+ categoryKey.

(** A candidate with an identifier, a source and a category, and no image. *)
Definition candidate (id source categoryKey : string) : Dedupe.Product :=
  {| Dedupe.id := Some id; Dedupe.name := Some id; Dedupe.source := source;
     Dedupe.categoryKey := categoryKey; Dedupe.imageUrl := EmptyString |}.

(** A network on which every request succeeds after [ms] milliseconds. *)
Definition reliable_network (ms : Z) : Eff.Network :=
  {| Eff.respond := λ _, Eff.ApiResponse true None; Eff.latency := λ _, ms |}.

(** The world at the start of a run: no counters yet, nothing tracked. *)
Definition fresh_world (now : Z) : Eff.World :=
  {| Eff.clock := now; Eff.requests := 0;
     Eff.dailyCounters := Scheduler.resetCounters;
     Eff.postedProducts := Dedupe.clear;
     Eff.results := Run.emptyResults |}.

(** A total of two posts a day and one post per category. *)
Definition tight_limits : Limits :=
  {| dailyLimits :=
       list_to_map [("total", 2%N); ("saleMode", 30%N); ("flipkart", 8%N);
                    ("amazon", 7%N); ("perCategory", 1%N)];
     postsPerSlot := Some 4%N;
     retryOnFailure := true;
     maxRetries := Some 2%N;
     delayBetweenPostsMs := Some 2000%N;
     ttlDays := Some 7%N;
     maxTrackedProducts := Some 2%N |}.

(** * Properties of the quota tracker *)
Section QuotaTracker.
Import Scheduler.

(** ** The counter invariant *)

(** [total] is the sum of the per-source counters: the two initial ones
    and the dynamically created ones, of which there are none. *)
Definition counter_invariant (c : DailyCounters) : Prop :=
  total c = flipkart c + amazon c ∧ others c = ∅.

(** A call [incrementCounters(source, categoryKey)] made at time [now]. *)
Definition IncrementCall : Type := Z * string * string.

(** The counters after each call of a sequence, in order. *)
Fixpoint after_each_increment (c : DailyCounters) (calls : list IncrementCall)
  : list DailyCounters :=
  match calls with
  | [] => []
  | (now, source, categoryKey) :: rest =>
      let c' := incrementCounters now source categoryKey c in
      c' :: after_each_increment c' rest
  end.

Definition known_source (source : string) : Prop :=
  source = "flipkart" ∨ source = "amazon".

Lemma initCounters_invariant force now c :
  counter_invariant c → counter_invariant (initCounters force now c).
Proof.
  intros Hc. unfold initCounters.
  destruct (force || negb (bool_decide (date c = Some (today_of now))));
    [by split | done].
Qed.

Lemma incrementCounters_invariant now source categoryKey c :
  known_source source →
  counter_invariant c →
  counter_invariant (incrementCounters now source categoryKey c).
Proof.
  intros Hs Hc. unfold incrementCounters.
  pose proof (initCounters_invariant false now c Hc) as [Ht Ho].
  destruct (initCounters false now c) as [f a t b d o]; simpl in *.
  destruct Hs as [-> | ->];
    unfold counter_invariant, set_category, set_total, set_source,
      get_source; simpl; (split; [lia | done]).
Qed.

Lemma incrementCounters_same_day now source categoryKey c :
  known_source source →
  date c = Some (today_of now) →
  let c' := incrementCounters now source categoryKey c in
  total c' = total c + 1 ∧ date c' = date c.
Proof.
  intros Hs Hd. unfold incrementCounters, initCounters.
  rewrite Hd, bool_decide_eq_true_2 by done. simpl.
  destruct Hs as [-> | ->];
    unfold set_category, set_total, set_source, get_source; by simpl.
Qed.

Lemma incrementCounters_fresh now source categoryKey :
  known_source source →
  let c' := incrementCounters now source categoryKey resetCounters in
  total c' = 1 ∧ date c' = Some (today_of now).
Proof. intros [-> | ->]; by split. Qed.

Lemma after_each_increment_counts d calls : ∀ c n,
  Forall (λ call : IncrementCall,
            today_of call.1.1 = d ∧ known_source call.1.2) calls →
  (date c = Some d ∧ total c = n) ∨ (c = resetCounters ∧ n = 0) →
  ∀ i c', after_each_increment c calls !! i = Some c' →
          total c' = n + Z.of_nat i + 1 ∧ date c' = Some d.
Proof.
  induction calls as [|[[now source] categoryKey] rest IH];
    intros c n Hall Hc i c' Hi; [done|].
  apply Forall_cons in Hall as [[Hday Hsrc] Hall]. simpl in Hday, Hsrc.
  assert (total (incrementCounters now source categoryKey c) = n + 1
          ∧ date (incrementCounters now source categoryKey c) = Some d)
    as [Ht Hd].
  { destruct Hc as [[Hd Hn] | [-> ->]].
    - destruct (incrementCounters_same_day now source categoryKey c)
        as [? ?]; [done | congruence |]. split; [lia | congruence].
    - destruct (incrementCounters_fresh now source categoryKey)
        as [? ?]; [done |]. split; [lia | congruence]. }
  destruct i as [|i]; simpl in Hi.
  - injection Hi as <-. split; [lia | done].
  - destruct (IH _ (n + 1) Hall (or_introl (conj Hd Ht)) i c' Hi) as [? ?].
    split; [lia | done].
Qed.

Lemma after_each_increment_invariant calls : ∀ c,
  Forall (λ call : IncrementCall, known_source call.1.2) calls →
  counter_invariant c →
  Forall counter_invariant (after_each_increment c calls).
Proof.
  induction calls as [|[[now source] categoryKey] rest IH];
    intros c Hall Hc; [constructor|].
  apply Forall_cons in Hall as [Hsrc Hall]. simpl.
  constructor; [|apply IH; [done|]];
    by apply incrementCounters_invariant.
Qed.

(** C1.  Starting from freshly reset counters, let [incrementCounters] be
    called any number of times within one day [d], each time for the
    source flipkart or amazon.  After every call the total equals the sum
    of the per-source counters (flipkart plus amazon, no other per-source
    counter existing); moreover the counters are those of day [d] and the
    total after the call of index [i] is [i + 1]. *)
Theorem increments_keep_total_the_sum_of_sources
    (d : Z) (calls : list IncrementCall)
    (Hcalls : Forall (λ call : IncrementCall,
                        today_of call.1.1 = d ∧ known_source call.1.2) calls) :
  Forall counter_invariant (after_each_increment resetCounters calls)
  ∧ ∀ i c, after_each_increment resetCounters calls !! i = Some c →
           total c = Z.of_nat i + 1 ∧ date c = Some d.
Proof.
  split.
  - apply after_each_increment_invariant; [|by split].
    eapply Forall_impl; [exact Hcalls|]. by intros ? [_ ?].
  - intros i c Hi.
    destruct (after_each_increment_counts d calls resetCounters 0 Hcalls
                (or_intror (conj eq_refl eq_refl)) i c Hi) as [? ?].
    split; [lia | done].
Qed.

Lemma increments_keep_total_the_sum_of_sources_witness :
  let calls : list IncrementCall :=
    [(1000, "flipkart", "mobiles"); (2000, "amazon", "mobiles");
     (3000, "flipkart", "fashion")] in
  Forall counter_invariant (after_each_increment resetCounters calls)
  ∧ ∀ i c, after_each_increment resetCounters calls !! i = Some c →
           total c = Z.of_nat i + 1 ∧ date c = Some 0.
Proof.
  apply (increments_keep_total_the_sum_of_sources 0).
  repeat constructor; by vm_compute; auto.
Defined.

End QuotaTracker.

(** ** The order of the checks of [canPost] *)
Section CanPost.
Import Scheduler.
Variable limits : Limits.
Variable env : Env.


(** The three caps, evaluated on the counters [c]. *)
Definition total_cap_hit (c : DailyCounters) : bool :=
  Js.ge (Some (total c)) (getTotalLimit limits env).
Definition source_cap_hit (c : DailyCounters) (source : string) : bool :=
  Js.ge (get_source c source)
        (Some (Js.or_default (dailyLimits limits !! source) 10)).
Definition category_cap_hit (c : DailyCounters) (categoryKey : string) : bool :=
  Js.ge (Some (default 0 (byCategory c !! categoryKey)))
        (Some (Js.or_default (dailyLimits limits !! "perCategory") 4)).




End CanPost.


(** ** The day is checked again by every operation *)
Section DayRollover.
Import Scheduler.

(** The counters of a day on which three posts were made. *)
Definition three_posts_on (day : Z) : DailyCounters :=
  {| flipkart := 2; amazon := 1; total := 3;
     byCategory := {[ "mobiles" := 3 ]}; date := Some day; others := ∅ |}.

Lemma byCategory_set_source c source v :
  byCategory (set_source c source v) = byCategory c.
Proof. unfold set_source. by repeat case_bool_decide. Qed.

(** C5, counterexample.  The counters are those of day 0, with three posts, and
    are read at 23:59:59 of that day.  A [canPost] two seconds later, on
    day 1, resets them to zero, and so does an [incrementCounters]; and a
    run of [postProducts] started at 23:59:59 whose first request takes
    two seconds ends with the counters of day 1, holding one post. *)
Lemma day_change_resets_counters_mid_run :
  let start := MS_PER_DAY - 1000 in
  let later := MS_PER_DAY + 1000 in
  let snapshot := initCounters false start (three_posts_on 0) in
  snapshot = three_posts_on 0
  ∧ (canPost readme_limits plain_env later "flipkart" "mobiles" snapshot).1
    = zeroCounters (Some 1)
  ∧ total (incrementCounters later "flipkart" "mobiles" snapshot) = 1
  ∧ ∃ w, Run.postProducts readme_limits plain_env (reliable_network 2000)
           plain_format [candidate "p1" "flipkart" "mobiles"]
           {| Eff.clock := start; Eff.requests := 0;
              Eff.dailyCounters := snapshot; Eff.postedProducts := [];
              Eff.results := Run.emptyResults |}
         = (Eff.Return {| Eff.posted := 1; Eff.skipped := 0; Eff.failed := 0;
                          Eff.flipkart := 1; Eff.amazon := 0;
                          Eff.errors := [] |}, w)
         ∧ total (Eff.dailyCounters w) = 1
         ∧ date (Eff.dailyCounters w) = Some 1.
Proof.
  repeat split; try by vm_compute.
  eexists. split; [vm_compute; reflexivity|]. by vm_compute.
Qed.

(** C5, amended.  [canPost] and [incrementCounters] each check the day
    when they are called.  On the day the counters are stored for, they
    work on the counters as they are: [canPost] leaves them unchanged and
    [incrementCounters] adds one to the total.  On any other day, as when
    a run has crossed a day boundary, they first replace the counters by
    all-zero counters of the new day. *)
Theorem every_operation_checks_the_day
    (limits : Limits) (env : Env) (now : Z) (source categoryKey : string)
    (c : DailyCounters) :
  let today := today_of now in
  (date c = Some today →
     (canPost limits env now source categoryKey c).1 = c
     ∧ incrementCounters now source categoryKey c =
       set_category
         (set_source (set_total c (total c + 1)) source
            (Js.or_zero (get_source (set_total c (total c + 1)) source) + 1))
         categoryKey (Js.or_zero (byCategory c !! categoryKey) + 1))
  ∧ (date c ≠ Some today →
     (canPost limits env now source categoryKey c).1 = zeroCounters (Some today)
     ∧ incrementCounters now source categoryKey c =
       incrementCounters now source categoryKey (zeroCounters (Some today))).
Proof.
  intros today.
  assert (∀ c', (canPost limits env now source categoryKey c').1
                = initCounters false now c') as Hcan.
  { intros c'. unfold canPost.
    destruct (Js.ge (Some _) (getTotalLimit _ _)); [done|].
    destruct (Js.ge (get_source _ _) _); [done|].
    by destruct (Js.ge (Some (Js.or_zero _)) _). }
  split; intros Hd; rewrite Hcan; unfold incrementCounters, initCounters;
    fold today; simpl.
  - rewrite !bool_decide_eq_true_2 by done. simpl.
    split; [done|]. by rewrite byCategory_set_source.
  - rewrite bool_decide_eq_false_2 by done. simpl.
    by rewrite bool_decide_eq_true_2.
Qed.

End DayRollover.

(** * Properties of the novelty tracker *)

(** ** Strings *)
Section Strings.

Lemma toLowerCase_idem s : Js.toLowerCase (Js.toLowerCase s) = Js.toLowerCase s.
Proof.
  induction s as [|a r IH]; simpl; [done|]. f_equal; [|done].
  destruct a as [[] [] [] [] [] [] [] []]; by vm_compute.
Qed.

Lemma toLowerCase_truthy s :
  Js.truthy s = true → Js.truthy (Js.toLowerCase s) = true.
Proof. by destruct s. Qed.

Lemma truthy_app_r s t : Js.truthy t = true → Js.truthy (s +:+ t) = true.
Proof. destruct s; [done|]. by intros _. Qed.

Lemma uniqueKey_truthy productId source :
  Dedupe.no_id productId = false →
  Js.truthy (Dedupe.uniqueKey productId source) = true.
Proof.
  destruct productId as [s|]; [|done]. simpl. intros Hs.
  apply negb_false_iff in Hs. unfold Dedupe.uniqueKey.
  destruct (Js.truthy source); apply toLowerCase_truthy; [|done].
  by apply truthy_app_r.
Qed.

Lemma uniqueKey_lower productId source :
  Js.toLowerCase (Dedupe.uniqueKey productId source)
  = Dedupe.uniqueKey productId source.
Proof.
  unfold Dedupe.uniqueKey.
  destruct (Js.truthy source); apply toLowerCase_idem.
Qed.

End Strings.

(** ** The map of posted products *)
Section PostedMap.
Import Dedupe.

Lemma map_get_set k v (m : PostedMap) : map_get k (map_set k v m) = Some v.
Proof.
  induction m as [|[k' v'] r IH]; simpl.
  - by rewrite bool_decide_eq_true_2.
  - case_bool_decide as Hk; simpl.
    + by rewrite bool_decide_eq_true_2.
    + by rewrite bool_decide_eq_false_2.
Qed.

Lemma map_get_set_ne k k' v (m : PostedMap) :
  k ≠ k' → map_get k' (map_set k v m) = map_get k' m.
Proof.
  intros Hne. induction m as [|[k0 v0] r IH]; simpl.
  - by rewrite bool_decide_eq_false_2.
  - case_bool_decide as Hk; simpl.
    + subst k0. by rewrite !bool_decide_eq_false_2.
    + by rewrite IH.
Qed.

Lemma map_get_delete k k' (m : PostedMap) :
  map_get k' (map_delete k m) = if decide (k = k') then None else map_get k' m.
Proof.
  unfold map_delete. induction m as [|[k0 v0] r IH]; simpl.
  - by case_decide.
  - destruct (decide (k0 = k)) as [->|Hk0].
    + rewrite filter_cons_False by naive_solver. rewrite IH.
      case_decide; [done|]. by rewrite bool_decide_eq_false_2.
    + rewrite filter_cons_True by done. simpl. rewrite IH.
      case_decide; [|done]. subst. by rewrite bool_decide_eq_false_2.
Qed.

Lemma map_get_None_not_in k (m : PostedMap) : map_get k m = None ↔ k ∉ m.*1.
Proof.
  induction m as [|[k0 v0] r IH]; simpl.
  - split; [intros _; apply not_elem_of_nil | done].
  - rewrite not_elem_of_cons. case_bool_decide as Hk.
    + split; [done | by intros [? _]].
    + rewrite IH. split; [done | by intros [_ ?]].
Qed.

Lemma map_set_fresh k v (m : PostedMap) :
  k ∉ m.*1 → map_set k v m = m ++ [(k, v)].
Proof.
  induction m as [|[k0 v0] r IH]; simpl; [done|].
  rewrite not_elem_of_cons. intros [Hne Hr].
  rewrite bool_decide_eq_false_2 by done. by rewrite IH.
Qed.

(** Building a map from entries with distinct keys keeps the entries. *)
Lemma fromEntries_NoDup (entries : list (string * Z)) :
  NoDup entries.*1 → fromEntries entries = entries.
Proof.
  unfold fromEntries.
  enough (∀ acc : PostedMap, NoDup (acc ++ entries).*1 →
            foldl (λ acc e, map_set e.1 e.2 acc) acc entries = acc ++ entries)
    as H by (intros; by rewrite (H [])).
  induction entries as [|[k v] r IH]; intros acc Hnd; simpl.
  - by rewrite app_nil_r.
  - rewrite map_set_fresh.
    + rewrite IH; rewrite <- app_assoc; done.
    + rewrite fmap_app in Hnd. apply NoDup_app in Hnd as (_ & Hdisj & _).
      intros Hin. apply (Hdisj k Hin). simpl. left.
Qed.

(** The keys of a map stay distinct under each of its operations. *)
Lemma map_set_keys k v (m : PostedMap) :
  (map_set k v m).*1 = if decide (k ∈ m.*1) then m.*1 else m.*1 ++ [k].
Proof.
  induction m as [|[k0 v0] r IH].
  - rewrite decide_False; [done | apply not_elem_of_nil].
  - cbn [map_set]. case_bool_decide as Hk.
    + subst k0. rewrite decide_True; [done|]. apply elem_of_cons. by left.
    + rewrite !fmap_cons, IH. cbn [fst].
      destruct (decide (k ∈ r.*1)) as [Hin | Hout].
      * rewrite decide_True; [done|]. apply elem_of_cons. by right.
      * rewrite decide_False; [done|].
        intros [-> | ?]%elem_of_cons; done.
Qed.

Lemma map_set_NoDup k v (m : PostedMap) :
  NoDup m.*1 → NoDup (map_set k v m).*1.
Proof.
  intros Hnd. rewrite map_set_keys. case_decide as Hk; [done|].
  apply NoDup_app. repeat split; [done | | apply NoDup_singleton].
  by intros k' Hk' ->%list_elem_of_singleton.
Qed.

Lemma map_delete_NoDup k (m : PostedMap) :
  NoDup m.*1 → NoDup (map_delete k m).*1.
Proof.
  intros Hnd. eapply sublist_NoDup; [exact Hnd|].
  apply fmap_sublist, sublist_filter.
Qed.

Lemma fromEntries_keys_NoDup (entries : list (string * Z)) :
  NoDup (fromEntries entries).*1.
Proof.
  unfold fromEntries.
  enough (∀ acc : PostedMap, NoDup acc.*1 →
            NoDup (foldl (λ acc e, map_set e.1 e.2 acc) acc entries).*1)
    as H by (apply H; constructor).
  induction entries as [|e r IH]; intros acc Hacc; simpl; [done|].
  by apply IH, map_set_NoDup.
Qed.

Lemma markPosted_NoDup now productId source (m : PostedMap) :
  NoDup m.*1 → NoDup (markPosted now productId source m).*1.
Proof.
  unfold markPosted. destruct (no_id productId); [done|]. apply map_set_NoDup.
Qed.

Lemma isDuplicate_NoDup limits now productId source (m : PostedMap) :
  NoDup m.*1 → NoDup (isDuplicate limits now productId source m).1.*1.
Proof.
  intros Hnd. unfold isDuplicate, isPosted.
  destruct (negb _); [done|]. destruct (map_get _ m); [|done].
  case_bool_decide; [done|]. by apply map_delete_NoDup.
Qed.

Lemma loadFromFile_NoDup limits now file (m : PostedMap) :
  NoDup m.*1 → NoDup (loadFromFile limits now file m).*1.
Proof.
  intros Hnd. destruct file as [[|members]|]; simpl;
    [constructor | apply fromEntries_keys_NoDup | done].
Qed.

End PostedMap.

(** ** The round trip of marking and checking *)
Section MarkAndCheck.
Import Dedupe.
Variable limits : Limits.

Lemma TTL_MS_pos : 0 < TTL_MS limits.
Proof.
  unfold TTL_MS, TTL_DAYS, Js.or_default.
  destruct (ttlDays limits) as [n|]; [|lia].
  destruct (N.eqb_spec n 0); lia.
Qed.

Lemma MAX_TRACKED_pos : 0 < MAX_TRACKED limits.
Proof.
  unfold MAX_TRACKED, Js.or_default.
  destruct (maxTrackedProducts limits) as [n|]; [|lia].
  destruct (N.eqb_spec n 0); lia.
Qed.

(** A key counts as a duplicate at time [now] when it is tracked with an
    age below the time to live. *)
Definition active (now : Z) (key : string) (m : PostedMap) : bool :=
  match map_get key m with
  | Some timestamp => bool_decide (now - timestamp < TTL_MS limits)
  | None => false
  end.

Lemma isDuplicate_active now productId source (m : PostedMap) :
  no_id productId = false →
  (isDuplicate limits now productId source m).2
  = active now (uniqueKey productId source) m.
Proof.
  intros Hid. unfold isDuplicate, isPosted, active.
  rewrite uniqueKey_truthy, uniqueKey_lower by done. simpl.
  destruct (map_get _ m) as [t|]; [|done]. by case_bool_decide.
Qed.

(** The lazy deletion of an expired entry changes no answer. *)
Lemma isDuplicate_keeps_active now productId source key (m : PostedMap) :
  active now key (isDuplicate limits now productId source m).1
  = active now key m.
Proof.
  unfold isDuplicate, isPosted.
  destruct (negb (Js.truthy _)); [done|]. simpl.
  destruct (map_get _ m) as [t|] eqn:Hget; [|done].
  case_bool_decide as Hage; [done|]. simpl.
  unfold active. rewrite map_get_delete. case_decide as Hk; [|done].
  subst key. by rewrite Hget, bool_decide_eq_false_2.
Qed.

(** C6, counterexample.  The empty string is a product identifier that
    [markPosted] does not record: the map stays empty and [isDuplicate]
    answers false right afterwards. *)
Lemma empty_id_is_not_marked :
  let m := markPosted 1000 (Some EmptyString) "flipkart" clear in
  m = clear
  ∧ (isDuplicate readme_limits 1000 (Some EmptyString) "flipkart" m).2 = false.
Proof. by vm_compute. Qed.

(** C6, amended.  For every non-empty product identifier and every
    source, [isDuplicate] answers true right after [markPosted], at the
    same time, and leaves the map as it is; and once the time is at least
    the time to live past the marking, [isDuplicate] answers false and
    the expired key is gone from the map. *)
Theorem marked_is_duplicate_until_ttl
    (now later : Z) (productId source : string) (m : PostedMap)
    (Hid : productId ≠ EmptyString)
    (Hlater : now + TTL_MS limits ≤ later) :
  let marked := markPosted now (Some productId) source m in
  isDuplicate limits now (Some productId) source marked = (marked, true)
  ∧ (isDuplicate limits later (Some productId) source marked).2 = false
  ∧ map_get (uniqueKey (Some productId) source)
      (isDuplicate limits later (Some productId) source marked).1 = None.
Proof.
  assert (no_id (Some productId) = false) as Hno.
  { simpl. unfold Js.truthy. by rewrite bool_decide_eq_false_2. }
  intros marked. subst marked. unfold markPosted. rewrite Hno.
  pose proof TTL_MS_pos.
  unfold isDuplicate, isPosted.
  rewrite uniqueKey_truthy, uniqueKey_lower, map_get_set by done. simpl.
  rewrite bool_decide_eq_true_2, bool_decide_eq_false_2 by lia. simpl.
  repeat split. rewrite map_get_delete. by case_decide.
Qed.

End MarkAndCheck.

Lemma marked_is_duplicate_until_ttl_witness :
  let marked := Dedupe.markPosted 1000 (Some "B0ABC123") "amazon" Dedupe.clear in
  Dedupe.isDuplicate readme_limits 1000 (Some "B0ABC123") "amazon" marked
  = (marked, true)
  ∧ (Dedupe.isDuplicate readme_limits (1000 + 7 * MS_PER_DAY) (Some "B0ABC123")
       "amazon" marked).2 = false
  ∧ Dedupe.map_get (Dedupe.uniqueKey (Some "B0ABC123") "amazon")
      (Dedupe.isDuplicate readme_limits (1000 + 7 * MS_PER_DAY) (Some "B0ABC123")
         "amazon" marked).1 = None.
Proof.
  apply (marked_is_duplicate_until_ttl readme_limits 1000
           (1000 + 7 * MS_PER_DAY) "B0ABC123" "amazon" Dedupe.clear);
    [done | by vm_compute].
Defined.


(** ** Saving and loading *)
Section Sorting.
Import Dedupe.
Context {A : Type} (key : A → Z).

Definition key_le (x y : A) : Prop := key x ≤ key y.

Lemma insert_by_Permutation x l : insert_by key x l ≡ₚ x :: l.
Proof.
  induction l as [|y r IH]; simpl; [done|].
  case_bool_decide; [done|]. by rewrite IH, Permutation_swap.
Qed.

Lemma sort_by_Permutation l : sort_by key l ≡ₚ l.
Proof.
  induction l as [|x r IH]; simpl; [done|].
  by rewrite insert_by_Permutation, IH.
Qed.

Lemma insert_by_sorted x l :
  StronglySorted key_le l → StronglySorted key_le (insert_by key x l).
Proof.
  induction 1 as [|y r Hr IH Hy]; simpl; [by repeat constructor|].
  case_bool_decide as Hxy.
  - constructor; [by constructor|]. constructor; [done|].
    eapply Forall_impl; [exact Hy|]. unfold key_le in *. intros; simpl in *; lia.
  - constructor; [done|].
    rewrite insert_by_Permutation. constructor; [|done].
    unfold key_le. lia.
Qed.

Lemma sort_by_sorted l : StronglySorted key_le (sort_by key l).
Proof.
  induction l as [|x r IH]; simpl; [constructor|]. by apply insert_by_sorted.
Qed.

(** What [slice(-n)] drops of a sorted array is not above what it keeps. *)
Lemma slice_last_sorted n l d k :
  d ∈ take (List.length (sort_by key l) - Z.to_nat n) (sort_by key l) →
  k ∈ slice_last n (sort_by key l) →
  key d ≤ key k.
Proof.
  unfold slice_last. intros Hd Hk.
  pose proof (sort_by_sorted l) as Hs.
  rewrite <- (take_drop (List.length (sort_by key l) - Z.to_nat n)
                (sort_by key l)) in Hs.
  by apply (StronglySorted_app_1_elem_of key_le _ _ d k) in Hs.
Qed.

End Sorting.

Section SaveAndLoad.
Import Dedupe.
Variable limits : Limits.

Lemma objectEntries_Permutation (o : list (string * Z)) : objectEntries o ≡ₚ o.
Proof.
  unfold objectEntries. rewrite sort_by_Permutation.
  apply filter_app_complement.
Qed.

Lemma NoDup_keys_Permutation (l k : list (string * Z)) :
  l ≡ₚ k → NoDup l.*1 → NoDup k.*1.
Proof. by intros ->. Qed.

Lemma NoDup_keys_sublist (l k : list (string * Z)) :
  l `sublist_of` k → NoDup k.*1 → NoDup l.*1.
Proof.
  intros Hs Hk. eapply sublist_NoDup; [exact Hk | by apply fmap_sublist].
Qed.

Lemma filter_all {B} (P : B → Prop) `{!∀ x, Decision (P x)} (l : list B) :
  Forall P l → filter P l = l.
Proof.
  induction 1 as [|x r Hx _ IH]; [done|].
  by rewrite filter_cons_True, IH.
Qed.

(** Writing a map with distinct keys and reading the file back at once
    gives the entries that are not expired, up to their order. *)
Lemma load_written (now : Z) (m m0 : PostedMap) :
  NoDup m.*1 →
  Forall (λ e, now - e.2 < TTL_MS limits) m →
  loadFromFile limits now (Some (JsonObject (objectEntries (fromEntries m)))) m0
  ≡ₚ m.
Proof.
  intros Hnd Hlive. simpl.
  rewrite (fromEntries_NoDup m) by done.
  assert (NoDup (objectEntries m).*1) as Hnd1
    by (eapply NoDup_keys_Permutation; [symmetry; apply objectEntries_Permutation|done]).
  rewrite (fromEntries_NoDup (objectEntries m)) by done.
  assert (objectEntries (objectEntries m) ≡ₚ m) as Hperm
    by (by rewrite !objectEntries_Permutation).
  rewrite filter_all by (by rewrite Hperm).
  rewrite fromEntries_NoDup; [done|].
  eapply NoDup_keys_Permutation; [symmetry; exact Hperm | done].
Qed.

Lemma cleanupExpired_live now (m : PostedMap) :
  cleanupExpired limits now m = filter (λ e, now - e.2 < TTL_MS limits) m.
Proof. unfold cleanupExpired. apply list_filter_iff. intros e. lia. Qed.

(** C7.  Let the map in memory have distinct keys, as a [Map] has.  After
    [saveToFile()] and a [loadFromFile()] at the same time, whatever the
    map in memory was before loading, the loaded map has distinct keys and
    at most [MAX_TRACKED] entries.  When the entries younger than the
    time to live are no more than [MAX_TRACKED], the loaded map holds
    exactly those entries; otherwise it holds exactly [MAX_TRACKED] of
    them, and every younger-than-TTL entry left out was posted no later
    than every entry kept. *)
Theorem save_then_load_keeps_the_live_entries
    (now : Z) (m m0 : PostedMap) (Hkeys : NoDup m.*1) :
  let live := filter (λ e, now - e.2 < TTL_MS limits) m in
  let loaded := loadFromFile limits now (saveToFile limits now m).2 m0 in
  NoDup loaded.*1
  ∧ Z.of_nat (List.length loaded) ≤ MAX_TRACKED limits
  ∧ (Z.of_nat (List.length live) ≤ MAX_TRACKED limits → loaded ≡ₚ live)
  ∧ (MAX_TRACKED limits < Z.of_nat (List.length live) →
     Z.of_nat (List.length loaded) = MAX_TRACKED limits
     ∧ ∃ dropped, live ≡ₚ dropped ++ loaded
                  ∧ ∀ d k, d ∈ dropped → k ∈ loaded → d.2 ≤ k.2).
Proof.
  intros live loaded.
  pose proof MAX_TRACKED_pos limits as Hmax.
  assert (NoDup live.*1) as Hlive_nd
    by (apply (NoDup_keys_sublist live m); [apply sublist_filter | done]).
  assert (Forall (λ e, now - e.2 < TTL_MS limits) live) as Hlive
    by (apply Forall_forall; intros e He; by apply list_elem_of_filter in He as [? _]).
  subst loaded. unfold saveToFile. rewrite cleanupExpired_live. fold live.
  case_bool_decide as Hcap; simpl snd.
  - (* more than the cap survive: the newest are kept *)
    set (sorted := sort_by snd live).
    set (kept := slice_last (MAX_TRACKED limits) sorted).
    assert (sorted ≡ₚ live) as Hsorted by apply sort_by_Permutation.
    assert (NoDup kept.*1) as Hkept_nd.
    { apply (NoDup_keys_sublist kept sorted); [apply sublist_drop|].
      eapply NoDup_keys_Permutation; [symmetry; exact Hsorted | done]. }
    assert (Forall (λ e, now - e.2 < TTL_MS limits) kept) as Hkept.
    { eapply Forall_drop. by rewrite Hsorted. }
    assert (List.length sorted = List.length live) as Hlen by (by rewrite Hsorted).
    assert (Z.of_nat (List.length kept) = MAX_TRACKED limits) as Hkept_len.
    { unfold kept, slice_last. rewrite length_drop. lia. }
    rewrite (fromEntries_NoDup kept) by done.
    pose proof (load_written now kept m0 Hkept_nd Hkept) as Hload.
    split; [by rewrite Hload|]. split; [rewrite Hload; lia|].
    split; [lia|]. intros _. split; [by rewrite Hload|].
    exists (take (List.length sorted - Z.to_nat (MAX_TRACKED limits)) sorted).
    split.
    + rewrite Hload. unfold kept, slice_last. by rewrite take_drop.
    + intros d k Hd Hk. rewrite Hload in Hk.
      by apply (slice_last_sorted snd (MAX_TRACKED limits) live d k).
  - pose proof (load_written now live m0 Hlive_nd Hlive) as Hload.
    split; [by rewrite Hload|]. split; [rewrite Hload; lia|].
    split; [done | lia].
Qed.

End SaveAndLoad.

Lemma save_then_load_keeps_the_live_entries_witness :
  let m := [("flipkart_a", 1000); ("7", 8 * MS_PER_DAY); ("amazon_b", 2000);
            ("3", 8 * MS_PER_DAY + 5); ("amazon_c", 8 * MS_PER_DAY + 1)] in
  let now := 8 * MS_PER_DAY + 10 in
  let live := filter (λ e, now - e.2 < Dedupe.TTL_MS tight_limits) m in
  let loaded :=
    Dedupe.loadFromFile tight_limits now
      (Dedupe.saveToFile tight_limits now m).2 [] in
  NoDup loaded.*1
  ∧ Z.of_nat (List.length loaded) ≤ Dedupe.MAX_TRACKED tight_limits
  ∧ (Z.of_nat (List.length live) ≤ Dedupe.MAX_TRACKED tight_limits →
     loaded ≡ₚ live)
  ∧ (Dedupe.MAX_TRACKED tight_limits < Z.of_nat (List.length live) →
     Z.of_nat (List.length loaded) = Dedupe.MAX_TRACKED tight_limits
     ∧ ∃ dropped, live ≡ₚ dropped ++ loaded
                  ∧ ∀ d k, d ∈ dropped → k ∈ loaded → d.2 ≤ k.2).
Proof.
  apply (save_then_load_keeps_the_live_entries tight_limits).
  apply (bool_decide_unpack _). by vm_compute.
Defined.

(** Five tracked products, of which two are older than seven days, saved
    under a cap of two: the file keeps the two newest of the three others,
    the array index first, and loading gives them back. *)
Example save_then_load_under_a_cap_of_two :
  let m := [("flipkart_a", 1000); ("7", 8 * MS_PER_DAY); ("amazon_b", 2000);
            ("3", 8 * MS_PER_DAY + 5); ("amazon_c", 8 * MS_PER_DAY + 1)] in
  let now := 8 * MS_PER_DAY + 10 in
  Dedupe.saveToFile tight_limits now m
  = ([("amazon_c", 8 * MS_PER_DAY + 1); ("3", 8 * MS_PER_DAY + 5)],
     Some (Dedupe.JsonObject
             [("3", 8 * MS_PER_DAY + 5); ("amazon_c", 8 * MS_PER_DAY + 1)]))
  ∧ Dedupe.loadFromFile tight_limits now (Dedupe.saveToFile tight_limits now m).2 []
    = [("3", 8 * MS_PER_DAY + 5); ("amazon_c", 8 * MS_PER_DAY + 1)].
Proof. by vm_compute. Qed.

(** ** Filtering a list of products *)
Section FilterDuplicates.
Import Dedupe.
Variable limits : Limits.

(** What the specification lets through: an item with an identifier for
    which [isDuplicate], asked on the map [m], answers false. *)
Definition is_new (now : Z) (m : PostedMap) (product : Product) : Prop :=
  no_id (id product) = false
  ∧ (isDuplicate limits now (id product) (source product) m).2 = false.

#[local] Instance is_new_dec now m product : Decision (is_new now m product).
Proof. unfold is_new. apply _. Defined.

Lemma is_new_after_check now productId source (m : PostedMap) product :
  is_new now (isDuplicate limits now productId source m).1 product
  ↔ is_new now m product.
Proof.
  unfold is_new. split; intros [Hid Hdup]; (split; [done|]);
    rewrite isDuplicate_active in Hdup |- * by done;
    by rewrite isDuplicate_keeps_active in *.
Qed.

Lemma filterDuplicates_filter now products : ∀ m : PostedMap,
  (filterDuplicates limits now products m).2 = filter (is_new now m) products.
Proof.
  induction products as [|product rest IH]; intros m; simpl; [done|].
  destruct (no_id (id product)) eqn:Hid.
  - rewrite filter_cons_False by (by intros [? _]; congruence). apply IH.
  - destruct (isDuplicate limits now (id product) (source product) m)
      as [m1 dup] eqn:Hdup.
    specialize (IH m1).
    destruct (filterDuplicates limits now rest m1) as [m2 kept]. simpl in *.
    assert (filter (is_new now m1) rest = filter (is_new now m) rest) as Hext.
    { apply list_filter_iff. intros p.
      replace m1 with (isDuplicate limits now (id product) (source product) m).1
        by (by rewrite Hdup).
      apply is_new_after_check. }
    rewrite IH, Hext. destruct dup.
    + rewrite filter_cons_False; [done|].
      intros [_ Hnew]. rewrite Hdup in Hnew. done.
    + rewrite filter_cons_True; [done|].
      split; [done|]. by rewrite Hdup.
Qed.

Lemma active_markPosted now t productId source key (m : PostedMap) :
  no_id productId = false →
  active limits now key (markPosted t productId source m)
  = if decide (uniqueKey productId source = key)
    then bool_decide (now - t < TTL_MS limits)
    else active limits now key m.
Proof.
  intros Hid. unfold markPosted, active. rewrite Hid.
  case_decide as Hk.
  - subst key. by rewrite map_get_set.
  - by rewrite map_get_set_ne.
Qed.

(** C8.  [filterDuplicates] returns, in their original order, exactly
    the items that have an identifier and for which [isDuplicate] is
    false; an item without identifier is never returned.  In particular,
    take five items with identifiers, of which the second and the fourth
    were marked posted less than the time to live ago, with their own
    sources, while the keys of the three others are different from
    theirs and were not tracked before: the result is the first, the
    third and the fifth item, in that order. *)
Theorem filterDuplicates_returns_the_new_items (now : Z) :
  (∀ (products : list Product) (m : PostedMap),
     (filterDuplicates limits now products m).2
     = filter (is_new now m) products
     ∧ ∀ product, no_id (id product) = true →
                  product ∉ (filterDuplicates limits now products m).2)
  ∧ (∀ (p1 p2 p3 p4 p5 : Product) (t2 t4 : Z) (m0 : PostedMap),
       let key p := uniqueKey (id p) (source p) in
       let m := markPosted t4 (id p4) (source p4)
                  (markPosted t2 (id p2) (source p2) m0) in
       Forall (λ p, no_id (id p) = false) [p1; p2; p3; p4; p5] →
       Forall (λ p, key p ≠ key p2 ∧ key p ≠ key p4
                    ∧ active limits now (key p) m0 = false) [p1; p3; p5] →
       now - t2 < TTL_MS limits → now - t4 < TTL_MS limits →
       (filterDuplicates limits now [p1; p2; p3; p4; p5] m).2 = [p1; p3; p5]).
Proof.
  split.
  - intros products m. split; [apply filterDuplicates_filter|].
    intros product Hid. rewrite filterDuplicates_filter.
    rewrite list_elem_of_filter. intros [[Hnew _] _]. congruence.
  - intros p1 p2 p3 p4 p5 t2 t4 m0 key m Hids Hkeys Ht2 Ht4.
    rewrite filterDuplicates_filter.
    apply Forall_cons in Hids as [Hid1 Hids].
    apply Forall_cons in Hids as [Hid2 Hids].
    apply Forall_cons in Hids as [Hid3 Hids].
    apply Forall_cons in Hids as [Hid4 Hids].
    apply Forall_cons in Hids as [Hid5 _].
    apply Forall_cons in Hkeys as [(H12 & H14 & H1) Hkeys].
    apply Forall_cons in Hkeys as [(H32 & H34 & H3) Hkeys].
    apply Forall_cons in Hkeys as [(H52 & H54 & H5) _].
    assert (∀ p, no_id (id p) = false →
                 key p ≠ key p2 → key p ≠ key p4 →
                 active limits now (key p) m0 = false → is_new now m p)
      as Hnew.
    { intros p Hid Hp2 Hp4 Hp. split; [done|].
      rewrite isDuplicate_active by done. unfold m.
      rewrite !active_markPosted by done.
      by rewrite !decide_False by done. }
    assert (∀ p, no_id (id p) = false →
                 key p = key p2 ∨ key p = key p4 → ¬ is_new now m p)
      as Hold.
    { intros p Hid Hp [_ Hdup].
      rewrite isDuplicate_active in Hdup by done. unfold m in Hdup.
      rewrite !active_markPosted in Hdup by done.
      fold (key p) (key p2) (key p4) in Hdup.
      destruct (decide (key p4 = key p)) as [_|Hne4].
      - by rewrite bool_decide_eq_true_2 in Hdup.
      - destruct (decide (key p2 = key p)) as [_|Hne2].
        + by rewrite bool_decide_eq_true_2 in Hdup.
        + destruct Hp; congruence. }
    rewrite filter_cons_True by auto.
    rewrite filter_cons_False by auto.
    rewrite filter_cons_True by auto.
    rewrite filter_cons_False by auto.
    by rewrite filter_cons_True by auto.
Qed.

End FilterDuplicates.

(** Five items, of which the second and the fourth were marked posted. *)
Example filterDuplicates_five_items :
  let p (i : string) (s : string) := candidate i s "mobiles" in
  let m := Dedupe.markPosted 2000 (Some "P4") "amazon"
             (Dedupe.markPosted 1000 (Some "p2") "flipkart" Dedupe.clear) in
  (Dedupe.filterDuplicates readme_limits 5000
     [p "p1" "flipkart"; p "P2" "Flipkart"; p "p3" "amazon"; p "p4" "amazon";
      p "p5" "flipkart"] m).2
  = [p "p1" "flipkart"; p "p3" "amazon"; p "p5" "flipkart"].
Proof. by vm_compute. Qed.

(** * Properties of the selection of categories *)
Section SelectCategories.
Import Scheduler.

Lemma remove_dups_without (c : string) (l : list string) :
  c ∈ l →
  List.length (remove_dups l)
  = S (List.length (remove_dups (filter (λ k, k ≠ c) l))).
Proof.
  intros Hc.
  change (S _) with (List.length (c :: remove_dups (filter (λ k, k ≠ c) l))).
  apply Permutation_length, NoDup_Permutation.
  - apply NoDup_remove_dups.
  - constructor; [|apply NoDup_remove_dups].
    rewrite elem_of_remove_dups, list_elem_of_filter. by intros [? _].
  - intros x. rewrite elem_of_cons, !elem_of_remove_dups, list_elem_of_filter.
    destruct (decide (x = c)) as [->|Hne].
    + split; [by left | done].
    + split; [by right | by intros [? | [_ ?]]].
Qed.

(** The loop keeps the selected keys distinct and apart from the keys
    still in the array, and ends with [count] keys or all of them. *)
Lemma selectLoop_spec count random i selected weighted :
  NoDup selected →
  (∀ k, k ∈ selected → k ∉ weighted) →
  (List.length selected ≤ count)%nat →
  NoDup (selectLoop count random i selected weighted)
  ∧ (∀ k, k ∈ selectLoop count random i selected weighted →
          k ∈ selected ∨ k ∈ weighted)
  ∧ List.length (selectLoop count random i selected weighted)
    = (count `min`
         (List.length selected + List.length (remove_dups weighted)))%nat.
Proof.
  funelim (selectLoop count random i selected weighted).
  - intros Hnd _ Hlen. simpl. repeat split; [done | auto | lia].
  - intros Hnd Hdisj Hlen.
    match goal with Hrec : NoDup _ → _ |- _ => rename Hrec into IH end.
    set (category := (w :: ws) !!! _) in *.
    assert (category ∈ w :: ws) as Hin.
    { apply list_elem_of_lookup_total_2, random_index_lt. simpl. lia. }
    assert (category ∉ selected) as Hfresh by (intros ?; by eapply Hdisj).
    rewrite bool_decide_eq_false_2 in * by done.
    destruct IH as (IHnd & IHin & IHlen).
    + apply NoDup_app. repeat split; [done | | apply NoDup_singleton].
      intros k Hk ->%list_elem_of_singleton. done.
    + intros k [Hk | ->%list_elem_of_singleton]%elem_of_app;
        rewrite list_elem_of_filter.
      * intros [_ ?]. by eapply Hdisj.
      * by intros [? _].
    + rewrite length_app. simpl. lia.
    + split; [done|]. split.
      * intros k Hk. destruct (IHin k Hk) as [Hs | Hw].
        -- apply elem_of_app in Hs as [? | ->%list_elem_of_singleton]; auto.
        -- apply list_elem_of_filter in Hw as [_ ?]. auto.
      * rewrite IHlen, length_app,
          (remove_dups_without category (w :: ws)) by done.
        simpl. lia.
  - intros Hnd _ Hlen. repeat split; [done | auto | lia].
Qed.

Lemma or_default_pos x d : 0 < d → 0 < Js.or_default x d.
Proof.
  intros Hd. unfold Js.or_default. destruct x as [n|]; [|done].
  destruct (N.eqb_spec n 0); lia.
Qed.

(** Every configured key is in the weighted array, and only those. *)
Lemma elem_of_buildWeighted (categories : list (string * CategoryInfo)) k :
  k ∈ buildWeighted categories ↔ k ∈ categories.*1.
Proof.
  unfold buildWeighted. rewrite list_elem_of_In, in_flat_map.
  rewrite list_elem_of_fmap. split.
  - intros [c [Hc Hk]]. apply list_elem_of_In, elem_of_replicate in Hk as [-> _].
    exists c. by rewrite list_elem_of_In.
  - intros [c [-> Hc]]. exists c. split; [by apply list_elem_of_In|].
    apply list_elem_of_In, elem_of_replicate. split; [done|].
    pose proof (or_default_pos (weight c.2) 1). lia.
Qed.

Lemma distinct_keys_buildWeighted (categories : list (string * CategoryInfo)) :
  List.length (remove_dups (buildWeighted categories))
  = List.length (remove_dups categories.*1).
Proof.
  apply Permutation_length, NoDup_Permutation; try apply NoDup_remove_dups.
  intros k. by rewrite !elem_of_remove_dups, elem_of_buildWeighted.
Qed.

(** C9.  Whatever the count, the configured categories with their
    weights and the random draws, [selectCategories(count)] returns
    pairwise distinct keys, all of them configured, and no more than
    [count] of them: exactly the smaller of [count] and the number of
    configured keys, so fewer than [count] when fewer are configured. *)
Theorem selectCategories_distinct_and_bounded
    (categories : list (string * CategoryInfo))
    (random : nat → nat * nat) (count : nat) :
  let selected := selectCategories categories random count in
  let configured := List.length (remove_dups categories.*1) in
  NoDup selected
  ∧ (List.length selected ≤ count)%nat
  ∧ (∀ k, k ∈ selected → k ∈ categories.*1)
  ∧ List.length selected = (count `min` configured)%nat
  ∧ ((configured < count)%nat → (List.length selected < count)%nat).
Proof.
  intros selected configured. subst selected configured.
  unfold selectCategories.
  destruct (selectLoop_spec count random 0 [] (buildWeighted categories))
    as (Hnd & Hin & Hlen);
    [constructor | by intros k ?%elem_of_nil | simpl; lia |].
  rewrite distinct_keys_buildWeighted in Hlen. simpl in Hlen.
  split; [done|]. split; [lia|]. split; [|split; [done | lia]].
  intros k Hk. destruct (Hin k Hk) as [?%elem_of_nil | ?]; [done|].
  by apply elem_of_buildWeighted.
Qed.

End SelectCategories.

(** Three categories of weights 3, 1 (by default) and 2; two are asked
    for, then five. *)
Example selectCategories_three_categories :
  let info w := {| Scheduler.flipkartId := None; Scheduler.amazonNode := None;
                   Scheduler.weight := w |} in
  let categories := [("mobiles", info (Some 3%N)); ("laptops", info None);
                     ("fashion", info (Some 2%N))] in
  let random (i : nat) := ((i + 4)%nat, 6%nat) in
  Scheduler.selectCategories categories random 2 = ["laptops"; "fashion"]
  ∧ Scheduler.selectCategories categories random 5
    = ["laptops"; "fashion"; "mobiles"].
Proof. by vm_compute. Qed.

(** * Properties of the transport *)
Section Transport.
Import Eff Telegram.
Local Open Scope eff_scope.
Variable limits : Limits.
Variable env : Env.
Variable net : Network.

(** A reply that means the message went out. *)
Definition delivered (o : FetchOutcome) : bool :=
  match o with
  | ApiResponse true _ => true
  | _ => false
  end.

(** From the state [w] on, no request is answered with a success. *)
Definition network_down_from (w : World) : Prop :=
  ∀ n, (requests w ≤ n)%nat → delivered (respond net n) = false.

Lemma sendMessage_down text w :
  network_down_from w →
  ∃ e w', sendMessage env net text w = (Throw e, w')
          ∧ (requests w ≤ requests w')%nat.
Proof.
  intros Hdown. unfold sendMessage, bind, try_catch, getCredentials.
  destruct (TELEGRAM_BOT_TOKEN env) as [botToken|],
    (TELEGRAM_CHANNEL_ID env) as [channelId|]; try by (simpl; eauto).
  destruct (Js.truthy botToken && Js.truthy channelId);
    [|by (simpl; eauto)].
  simpl. specialize (Hdown (requests w) (le_n _)).
  destruct (respond net (requests w)) as [message | [] description];
    try done; simpl; eexists _, _; (split; [done | simpl; lia]).
Qed.

Lemma retryLoop_down attempts text : ∀ w,
  network_down_from w → ∃ w', retryLoop env net attempts text w = (Return None, w').
Proof.
  induction attempts as [|remaining IH]; intros w Hdown; simpl; [by eexists|].
  unfold try_catch, bind at 1.
  destruct (sendMessage_down text w Hdown) as (e & w1 & -> & Hle).
  destruct (Js.includes e "Too Many Requests"); [by eexists|].
  unfold bind.
  assert (∀ w2, requests w2 = requests w1 → network_down_from w2) as Hnext.
  { intros w2 Heq n Hn. apply Hdown. lia. }
  case_bool_decide; simpl; by apply IH, Hnext.
Qed.

Lemma sendPhoto_down photoUrl caption w :
  network_down_from w →
  ∃ w', (requests w ≤ requests w')%nat
        ∧ (sendPhoto env net photoUrl caption w = (Return None, w')
           ∨ ∃ e, sendPhoto env net photoUrl caption w = (Throw e, w')).
Proof.
  intros Hdown. unfold sendPhoto, bind, try_catch, getCredentials.
  destruct (TELEGRAM_BOT_TOKEN env) as [botToken|],
    (TELEGRAM_CHANNEL_ID env) as [channelId|]; try by (simpl; eauto).
  destruct (Js.truthy botToken && Js.truthy channelId);
    [|by (simpl; eauto)].
  simpl. specialize (Hdown (requests w) (le_n _)).
  destruct (respond net (requests w)) as [message | [] description];
    try done; simpl; eexists; (split; [|by left]); simpl; lia.
Qed.

(** C10.  [postDeal] never throws: whatever the message, the image, the
    configuration, the credentials and the replies of the network, it
    returns a boolean.  It returns false when no request is answered
    with a success (a failed photo, retries used up); and when the first
    text message is answered with "Too Many Requests" it returns false
    after that single request, without a retry and without waiting. *)
Theorem postDeal_returns_a_boolean (formattedMessage imageUrl : string)
    (w : World) :
  (∃ success w',
     postDeal limits env net formattedMessage imageUrl w = (Return success, w'))
  ∧ (network_down_from w →
     (postDeal limits env net formattedMessage imageUrl w).1 = Return false)
  ∧ (∀ description,
       Js.truthy imageUrl && Js.startsWith imageUrl "http" = false →
       (∃ credentials, getCredentials env w = (Return credentials, w)) →
       (retryOnFailure limits = true → is_Some (maxRetries limits)) →
       respond net (requests w) = ApiResponse false (Some description) →
       Js.includes description "Too Many Requests" = true →
       postDeal limits env net formattedMessage imageUrl w
       = (Return false,
          with_requests (S (requests w))
            (with_clock (clock w + latency net (requests w)) w))).
Proof.
  split; [|split].
  - unfold postDeal, try_catch.
    destruct (bind _ _ w) as [[success | e] w']; by eexists _, _.
  - intros Hdown. unfold postDeal, try_catch, bind.
    assert (∀ w1, network_down_from w1 →
              ∃ w2, sendMessageWithRetry limits env net formattedMessage w1
                    = (Return None, w2)) as Htext.
    { intros w1 Hw1. by apply retryLoop_down. }
    destruct (Js.truthy imageUrl && Js.startsWith imageUrl "http").
    + destruct (sendPhoto_down imageUrl formattedMessage w Hdown)
        as (w1 & Hle & [-> | [e ->]]); [|done].
      destruct (Htext w1) as [w2 ->]; [|done].
      intros n Hn. apply Hdown. lia.
    + simpl. by destruct (Htext w Hdown) as [w2 ->].
  - intros description Himg [credentials Hcred] Hretries Hreply Hlimit.
    unfold postDeal, try_catch, bind. rewrite Himg. simpl.
    unfold sendMessageWithRetry.
    assert (∃ n, (if retryOnFailure limits
                  then match maxRetries limits with
                       | Some n => S (N.to_nat n)
                       | None => 0%nat
                       end
                  else 1%nat) = S n) as [n ->].
    { destruct (retryOnFailure limits); [|by eexists].
      destruct Hretries as [m ->]; [done | by eexists]. }
    simpl. unfold try_catch, bind at 1. unfold sendMessage, bind at 1.
    rewrite Hcred. unfold try_catch, bind, fetch. rewrite Hreply. simpl.
    assert (Js.truthy description = true) as ->
      by (by destruct description).
    by rewrite Hlimit.
Qed.

End Transport.

(** * Runs of [postProducts] *)

(** ** A rate limit in the middle of a run *)

(** A network that answers the second request of the run with a rate
    limit and every other request with a success. *)
Definition rate_limited_second : Eff.Network :=
  {| Eff.respond := λ n,
       if bool_decide (n = 1%nat)
       then Eff.ApiResponse false (Some "Too Many Requests: retry after 30")
       else Eff.ApiResponse true None;
     Eff.latency := λ _, 100 |}.

Definition five_candidates : list Dedupe.Product :=
  [candidate "p1" "flipkart" "mobiles"; candidate "p2" "flipkart" "laptops";
   candidate "p3" "amazon" "mobiles"; candidate "p4" "amazon" "fashion";
   candidate "p5" "flipkart" "fashion"].

(** C3, on the code.  Five candidates are posted with the limits of the
    README; the transport is rate-limited on the second attempt.
    [postDeal] turns the rate limit into [false], so the attempt is
    counted as failed and the loop goes on: the three remaining
    candidates are attempted and posted.  The run ends with four posts
    and one failure after five requests, and the [break] of the [catch]
    branch is never reached. *)
Lemma rate_limit_does_not_stop_the_run :
  ∃ w, Run.postProducts readme_limits plain_env rate_limited_second
         plain_format five_candidates (fresh_world 1000)
       = (Eff.Return {| Eff.posted := 4; Eff.skipped := 0; Eff.failed := 1;
                        Eff.flipkart := 2; Eff.amazon := 2;
                        Eff.errors := ["Failed to post: p2"] |}, w)
       ∧ Eff.requests w = 5%nat
       ∧ Dedupe.map_get "flipkart_p5" (Eff.postedProducts w) = Some 7500.
Proof. eexists. split; [by vm_compute | by vm_compute]. Qed.

(** ** A run under a total cap of two *)

(** Two candidates in each of two categories, from the given sources. *)
Definition four_candidates (s1 s2 s3 s4 : string) : list Dedupe.Product :=
  [candidate "a1" s1 "mobiles"; candidate "a2" s2 "mobiles";
   candidate "b1" s3 "laptops"; candidate "b2" s4 "laptops"].

Definition capped_run (products : list Dedupe.Product)
  : Eff.Outcome Eff.Results * Eff.World :=
  Run.postProducts tight_limits plain_env (reliable_network 100) plain_format
    products (fresh_world 1000).

(** Whether the first two products are of one category. *)
Definition first_two_share_category (products : list Dedupe.Product) : bool :=
  match products with
  | p :: q :: _ => bool_decide (Dedupe.categoryKey p = Dedupe.categoryKey q)
  | _ => false
  end.

(** C4, counterexample.  With the two candidates of one category first, the
    second is skipped for the category cap, the third is the second
    post, and the fourth is never reached: the session target
    [min(4, 2 - 0)] ends the loop.  One candidate is skipped, not two;
    and none is when the categories alternate. *)
Lemma capped_run_skips_fewer_than_two :
  (∃ w, capped_run (four_candidates "flipkart" "flipkart" "amazon" "amazon")
        = (Eff.Return {| Eff.posted := 2; Eff.skipped := 1; Eff.failed := 0;
                         Eff.flipkart := 1; Eff.amazon := 1;
                         Eff.errors := [] |}, w)
        ∧ Scheduler.total (Eff.dailyCounters w) = 2)
  ∧ (∃ w, capped_run [candidate "a1" "flipkart" "mobiles";
                      candidate "b1" "amazon" "laptops";
                      candidate "a2" "flipkart" "mobiles";
                      candidate "b2" "amazon" "laptops"]
        = (Eff.Return {| Eff.posted := 2; Eff.skipped := 0; Eff.failed := 0;
                         Eff.flipkart := 1; Eff.amazon := 1;
                         Eff.errors := [] |}, w)
        ∧ Scheduler.total (Eff.dailyCounters w) = 2).
Proof. split; (eexists; split; [by vm_compute | by vm_compute]). Qed.

(** * Further properties of the quota tracker *)
Section QuotaTrackerMore.
Import Scheduler.
Variable limits : Limits.
Variable env : Env.

Lemma initCounters_date force now c :
  date (initCounters force now c) = Some (today_of now).
Proof.
  unfold initCounters. destruct force; simpl; [done|].
  by case_bool_decide.
Qed.

Lemma initCounters_on_its_day now c :
  date c = Some (today_of now) → initCounters false now c = c.
Proof.
  intros Hd. unfold initCounters. by rewrite bool_decide_eq_true_2.
Qed.

(** X1.  Once the counters have been initialised at some time, forced or
    not, a later [initCounters()] on the same day leaves them as they
    are, and one on another day replaces them by the zero counters of
    that day. *)
Theorem initCounters_resets_once_a_day (force : bool) (now later : Z)
    (c : DailyCounters) :
  (today_of later = today_of now →
     initCounters false later (initCounters force now c)
     = initCounters force now c)
  ∧ (today_of later ≠ today_of now →
     initCounters false later (initCounters force now c)
     = zeroCounters (Some (today_of later))).
Proof.
  split; intros Hday.
  - apply initCounters_on_its_day. by rewrite initCounters_date, Hday.
  - unfold initCounters at 1. rewrite initCounters_date.
    rewrite bool_decide_eq_false_2; [done|]. congruence.
Qed.

(** Reading and writing a property of the counters. *)
Lemma get_set_source_eq c source v :
  get_source (set_source c source v) source = Some v.
Proof.
  unfold get_source, set_source.
  repeat case_bool_decide; simpl; try done. apply lookup_insert_eq.
Qed.

Lemma get_set_source_ne c source other v :
  source ≠ other →
  get_source (set_source c source v) other = get_source c other.
Proof.
  intros Hne. unfold get_source, set_source.
  repeat case_bool_decide; simpl; try congruence.
  by apply lookup_insert_ne.
Qed.

Lemma get_source_total c : get_source c "total" = Some (total c).
Proof. done. Qed.

Lemma total_set_source c source v :
  source ≠ "total" → total (set_source c source v) = total c.
Proof.
  intros Hne. unfold set_source. by repeat case_bool_decide.
Qed.

Lemma date_set_source c source v : date (set_source c source v) = date c.
Proof. unfold set_source. by repeat case_bool_decide. Qed.

(** [incrementCounters] on the day the counters are stored for. *)
Lemma incrementCounters_on_its_day now source categoryKey c :
  date c = Some (today_of now) →
  incrementCounters now source categoryKey c
  = set_category
      (set_source (set_total c (total c + 1)) source
         (Js.or_zero (get_source (set_total c (total c + 1)) source) + 1))
      categoryKey (Js.or_zero (byCategory c !! categoryKey) + 1).
Proof.
  intros Hd. unfold incrementCounters.
  rewrite initCounters_on_its_day by done. simpl.
  by rewrite !byCategory_set_source.
Qed.

Lemma incrementCounters_total_ge now source categoryKey c :
  date c = Some (today_of now) →
  total c < total (incrementCounters now source categoryKey c).
Proof.
  intros Hd. rewrite incrementCounters_on_its_day by done.
  unfold set_category. simpl.
  destruct (decide (source = "total")) as [-> | Hne].
  - unfold set_total, set_source, get_source. simpl. lia.
  - rewrite total_set_source by done. unfold set_total, set_source. simpl. lia.
Qed.

Lemma incrementCounters_source_ge now source categoryKey c other v :
  date c = Some (today_of now) →
  get_source c other = Some v →
  ∃ v', get_source (incrementCounters now source categoryKey c) other = Some v'
        ∧ v ≤ v'.
Proof.
  intros Hd Hv. rewrite incrementCounters_on_its_day by done.
  change (get_source (set_category ?x _ _) other) with (get_source x other).
  assert (∃ va, get_source (set_total c (total c + 1)) other = Some va
                ∧ v ≤ va) as (va & Hva & Hle).
  { unfold set_total. destruct (decide ("total" = other)) as [<- | Hne].
    - rewrite get_set_source_eq. rewrite get_source_total in Hv.
      eexists. split; [done|]. injection Hv as <-. lia.
    - rewrite get_set_source_ne by done. eexists. split; [done | lia]. }
  destruct (decide (source = other)) as [-> | Hne].
  - rewrite get_set_source_eq, Hva. eexists. split; [done | simpl; lia].
  - rewrite get_set_source_ne by done. eexists. split; [done | lia].
Qed.

Lemma incrementCounters_category_ge now source categoryKey c other :
  date c = Some (today_of now) →
  Js.or_zero (byCategory c !! other)
  ≤ Js.or_zero (byCategory (incrementCounters now source categoryKey c)
                !! other).
Proof.
  intros Hd. rewrite incrementCounters_on_its_day by done.
  unfold set_category. simpl.
  destruct (decide (categoryKey = other)) as [-> | Hne].
  - rewrite lookup_insert_eq. simpl. lia.
  - rewrite lookup_insert_ne by done. unfold set_total.
    by rewrite !byCategory_set_source.
Qed.

Lemma incrementCounters_keeps_date now source categoryKey c :
  date c = Some (today_of now) →
  date (incrementCounters now source categoryKey c) = date c.
Proof.
  intros Hd. rewrite incrementCounters_on_its_day by done.
  unfold set_category, set_total. simpl. by rewrite !date_set_source.
Qed.

(** [canPost] in terms of the three caps. *)
Lemma canPost_counters now source categoryKey c :
  (canPost limits env now source categoryKey c).1 = initCounters false now c.
Proof.
  unfold canPost.
  destruct (Js.ge (Some _) (getTotalLimit _ _)); [done|].
  destruct (Js.ge (get_source _ _) _); [done|].
  by destruct (Js.ge (Some (Js.or_zero _)) _).
Qed.

Lemma canPost_allowed now source categoryKey c :
  let c' := initCounters false now c in
  (canPost limits env now source categoryKey c).2.1
  = negb (total_cap_hit limits env c' || source_cap_hit limits c' source
          || category_cap_hit limits c' categoryKey).
Proof.
  intros c'. unfold canPost, total_cap_hit, source_cap_hit, category_cap_hit,
    sourceLimit, categoryLimit, Js.or_zero. fold c'.
  destruct (Js.ge (Some _) (getTotalLimit _ _)); [done|].
  destruct (Js.ge (get_source _ _) _); [done|].
  by destruct (Js.ge (Some (default 0 _)) _).
Qed.

Lemma canPost_total_refusal now source categoryKey c :
  total_cap_hit limits env (initCounters false now c) = true →
  (canPost limits env now source categoryKey c).2 = (false, reasonTotal).
Proof.
  unfold canPost, total_cap_hit. by intros ->.
Qed.

(** X2.  A refusal lasts for the day.  The names of the sources and of
    the categories are no members of [Object.prototype], and those of
    the sources are not [date] or [byCategory].  When [canPost] refuses
    a source and a category, and a post (of any such source and
    category) is then recorded on the same day, [canPost] still refuses
    that source and category later that day: no operation lowers a
    counter. *)
Theorem canPost_refusal_lasts_for_the_day
    (now recorded later : Z) (source categoryKey : string)
    (postedSource postedCategory : string) (c : DailyCounters)
    (Hnames : source_name source = true ∧ category_name categoryKey = true)
    (Hposted : source_name postedSource = true
               ∧ category_name postedCategory = true)
    (Hrecorded : today_of recorded = today_of now)
    (Hlater : today_of later = today_of now)
    (Hrefused : (canPost limits env now source categoryKey c).2.1 = false) :
  let c1 := (canPost limits env now source categoryKey c).1 in
  let c2 := incrementCounters recorded postedSource postedCategory c1 in
  (canPost limits env later source categoryKey c2).2.1 = false.
Proof.
  intros c1 c2. subst c2 c1. rewrite canPost_counters.
  rewrite canPost_allowed in Hrefused |- *.
  set (c1 := initCounters false now c) in *.
  set (c2 := incrementCounters recorded postedSource postedCategory c1).
  assert (date c1 = Some (today_of recorded)) as Hd1
    by (unfold c1; by rewrite initCounters_date, Hrecorded).
  assert (date c2 = Some (today_of later)) as Hd2.
  { unfold c2. rewrite incrementCounters_keeps_date by done. congruence. }
  rewrite (initCounters_on_its_day later c2) by done.
  pose proof (incrementCounters_total_ge recorded postedSource postedCategory
                c1 Hd1) as Htotal.
  pose proof (incrementCounters_category_ge recorded postedSource
                postedCategory c1 categoryKey Hd1) as Hcat.
  pose proof (λ v, incrementCounters_source_ge recorded postedSource
                     postedCategory c1 source v Hd1) as Hsrc.
  fold c2 in Htotal, Hcat, Hsrc.
  apply negb_false_iff in Hrefused. apply negb_false_iff.
  apply orb_true_iff in Hrefused as [Hrefused | Hc];
    [apply orb_true_iff in Hrefused as [Ht | Hs]|].
  - apply orb_true_iff. left. apply orb_true_iff. left.
    unfold total_cap_hit, Js.ge in *.
    destruct (getTotalLimit limits env); [|done].
    apply bool_decide_eq_true_1 in Ht. apply bool_decide_eq_true_2. lia.
  - apply orb_true_iff. left. apply orb_true_iff. right.
    unfold source_cap_hit, Js.ge in *.
    destruct (get_source c1 source) as [v|]; [|done].
    destruct (Hsrc v eq_refl) as (v' & -> & Hle).
    apply bool_decide_eq_true_1 in Hs. apply bool_decide_eq_true_2. lia.
  - apply orb_true_iff. right.
    unfold category_cap_hit, Js.ge, Js.or_zero in *.
    apply bool_decide_eq_true_1 in Hc. apply bool_decide_eq_true_2. lia.
Qed.

End QuotaTrackerMore.

Lemma canPost_refusal_lasts_for_the_day_witness :
  let c := {| Scheduler.flipkart := 8; Scheduler.amazon := 1;
              Scheduler.total := 9; Scheduler.byCategory := ∅;
              Scheduler.date := Some 0; Scheduler.others := ∅ |} in
  let c1 := (Scheduler.canPost readme_limits plain_env 1000
               "flipkart" "mobiles" c).1 in
  let c2 := Scheduler.incrementCounters 2000 "amazon" "laptops" c1 in
  (Scheduler.canPost readme_limits plain_env 3000 "flipkart" "mobiles" c2).2.1
  = false.
Proof.
  apply (canPost_refusal_lasts_for_the_day readme_limits plain_env
           1000 2000 3000); by vm_compute.
Defined.

Section SessionTarget.
Import Scheduler.
Variable limits : Limits.
Variable env : Env.

(** X3.  With a total limit [L] in force, the session target is the
    smaller of the posts per slot (4 by default) and what is left of the
    day, [L - total]; it is zero or negative exactly when the total has
    reached the limit, and then [canPost] refuses every source and
    category with the total-limit reason. *)
Theorem session_target_is_what_the_day_leaves
    (now : Z) (c : DailyCounters) (totalLimit : Z)
    (Hlimit : getTotalLimit limits env = Some totalLimit) :
  let c' := initCounters false now c in
  ∃ target,
    getPostsForSession limits env now c = (c', Some target)
    ∧ target = Z.min (Js.or_default (postsPerSlot limits) 4)
                     (totalLimit - total c')
    ∧ 0 < Js.or_default (postsPerSlot limits) 4
    ∧ (target ≤ 0 ↔ totalLimit ≤ total c')
    ∧ (target ≤ 0 →
       ∀ source categoryKey,
         canPost limits env now source categoryKey c
         = (c', (false, "Daily total limit reached"))).
Proof.
  intros c'. unfold getPostsForSession. fold c'. rewrite Hlimit. simpl.
  pose proof (or_default_pos (postsPerSlot limits) 4 eq_refl) as Hslot.
  eexists. split; [done|]. split; [done|]. split; [done|]. split; [lia|].
  intros Htarget source categoryKey.
  unfold canPost. fold c'. rewrite Hlimit. simpl.
  by rewrite bool_decide_eq_true_2 by lia.
Qed.

(** Whether a source has room under its configured cap. *)
Lemma room_spec (source : string) (count : Z) :
  match dailyLimits limits !! source with
  | Some l => bool_decide (count < Z.of_N l)
  | None => false
  end = true
  ↔ ∃ cap, dailyLimits limits !! source = Some cap ∧ count < Z.of_N cap.
Proof.
  destruct (dailyLimits limits !! source) as [l|].
  - rewrite bool_decide_eq_true. split; [by exists l | by intros (? & [= <-] & ?)].
  - split; [done | by intros (? & ? & ?)].
Qed.

Lemma has_room_passes_source_check c source count :
  (∃ cap, dailyLimits limits !! source = Some cap ∧ count < Z.of_N cap) →
  get_source c source = Some count →
  source_cap_hit limits c source = false.
Proof.
  intros (cap & Hcap & Hlt) Hcount.
  unfold source_cap_hit, Js.ge, Js.or_default. rewrite Hcount, Hcap.
  destruct (N.eqb_spec cap 0); apply bool_decide_eq_false_2; lia.
Qed.

(** X4.  [getSourcePriority()] lists flipkart before amazon and lists a
    source exactly when its counter is below its configured cap; a source
    without a configured cap, or with a cap of zero, is never listed.
    Every listed source passes the source check of [canPost]. *)
Theorem getSourcePriority_lists_sources_with_room
    (now : Z) (c : DailyCounters) :
  let c' := initCounters false now c in
  let sources := (getSourcePriority limits now c).2 in
  (getSourcePriority limits now c).1 = c'
  ∧ sources `sublist_of` ["flipkart"; "amazon"]
  ∧ ∀ source count,
      known_source source →
      get_source c' source = Some count →
      (source ∈ sources ↔
         ∃ cap, dailyLimits limits !! source = Some cap ∧ count < Z.of_N cap)
      ∧ (source ∈ sources → source_cap_hit limits c' source = false).
Proof.
  intros c' sources. subst sources. unfold getSourcePriority. fold c'.
  cbn [fst snd]. split; [done|].
  pose proof (room_spec "flipkart" (flipkart c')) as Hf.
  pose proof (room_spec "amazon" (amazon c')) as Ha.
  destruct (match dailyLimits limits !! "flipkart" with
            | Some l => bool_decide (flipkart c' < Z.of_N l)
            | None => false
            end) eqn:Ef;
    destruct (match dailyLimits limits !! "amazon" with
              | Some l => bool_decide (amazon c' < Z.of_N l)
              | None => false
              end) eqn:Ea; simpl.
  all: split; [repeat first [apply sublist_skip | apply sublist_cons
                            | apply sublist_nil]|].
  all: intros source count Hknown Hcount.
  all: match goal with
       | |- (?L ↔ ?R) ∧ _ =>
           enough (L ↔ R) as Hiff
             by (split; [exact Hiff|];
                 intros Hin; apply Hiff in Hin;
                 by eapply has_room_passes_source_check)
       end.
  all: destruct Hknown as [-> | ->]; injection Hcount as <-.
  all: rewrite ?elem_of_cons, ?elem_of_nil.
  - rewrite <- Hf. split; [done | by left].
  - rewrite <- Ha. split; [done | by right; left].
  - rewrite <- Hf. split; [done | by left].
  - rewrite <- Ha. split; [by intros [? | ?] | done].
  - rewrite <- Hf. split; [by intros [? | ?] | done].
  - rewrite <- Ha. split; [done | by left].
  - rewrite <- Hf. split; [done | done].
  - rewrite <- Ha. split; [done | done].
Qed.

(** X5.  When the total limit is not a number (an override that
    [parseInt] cannot read, or no configured total), the total cap is
    never hit, whatever the total, and the session target is not a
    number either. *)
Theorem unreadable_total_limit_disables_the_total_cap
    (Hlimit : getTotalLimit limits env = None)
    (now : Z) (c : DailyCounters) :
  total_cap_hit limits env (initCounters false now c) = false
  ∧ (getPostsForSession limits env now c).2 = None.
Proof.
  unfold total_cap_hit, getPostsForSession. by rewrite Hlimit.
Qed.

(** An override is read as [parseInt] reads it, before the sale mode and
    the configured caps are looked at. *)
Lemma getTotalLimit_override s :
  OVERRIDE_TOTAL_LIMIT env = Some s → s ≠ EmptyString →
  getTotalLimit limits env = Js.parseInt10 s.
Proof.
  intros Hs Hne. unfold getTotalLimit, Js.truthy. rewrite Hs.
  by rewrite bool_decide_eq_false_2.
Qed.

End SessionTarget.

Lemma session_target_is_what_the_day_leaves_witness :
  let c' := Scheduler.initCounters false 1000 Scheduler.resetCounters in
  ∃ target,
    Scheduler.getPostsForSession readme_limits plain_env 1000
      Scheduler.resetCounters = (c', Some target)
    ∧ target = Z.min (Js.or_default (postsPerSlot readme_limits) 4)
                     (15 - Scheduler.total c')
    ∧ 0 < Js.or_default (postsPerSlot readme_limits) 4
    ∧ (target ≤ 0 ↔ 15 ≤ Scheduler.total c')
    ∧ (target ≤ 0 →
       ∀ source categoryKey,
         Scheduler.canPost readme_limits plain_env 1000 source categoryKey
           Scheduler.resetCounters
         = (c', (false, "Daily total limit reached"))).
Proof.
  apply (session_target_is_what_the_day_leaves readme_limits plain_env 1000
           Scheduler.resetCounters 15).
  by vm_compute.
Defined.

(** An environment whose override is no number. *)
Definition unreadable_override_env : Env :=
  {| OVERRIDE_TOTAL_LIMIT := Some "unlimited"; SALE_MODE := None;
     TELEGRAM_BOT_TOKEN := Some "token";
     TELEGRAM_CHANNEL_ID := Some "@channel" |}.

Lemma unreadable_total_limit_disables_the_total_cap_witness :
  total_cap_hit readme_limits unreadable_override_env
    (Scheduler.initCounters false 1000 (three_posts_on 0)) = false
  ∧ (Scheduler.getPostsForSession readme_limits unreadable_override_env 1000
       (three_posts_on 0)).2 = None.
Proof.
  apply (unreadable_total_limit_disables_the_total_cap readme_limits
           unreadable_override_env).
  by vm_compute.
Defined.

Section RecordingAPost.
Import Scheduler.

(** What recording a post changes. *)
Lemma incrementCounters_frame
    (now : Z) (source categoryKey : string) (c : DailyCounters)
    (Hday : date c = Some (today_of now)) :
  let c' := incrementCounters now source categoryKey c in
  date c' = date c
  ∧ byCategory c'
    = <[categoryKey := Js.or_zero (byCategory c !! categoryKey) + 1]>
        (byCategory c)
  ∧ (source ≠ "total" →
     total c' = total c + 1
     ∧ get_source c' source = Some (Js.or_zero (get_source c source) + 1)
     ∧ ∀ other, other ≠ source → other ≠ "total" →
                get_source c' other = get_source c other)
  ∧ (source = "total" → total c' = total c + 2).
Proof.
  intros c'. subst c'. rewrite incrementCounters_on_its_day by done.
  split; [|split; [|split]].
  - unfold set_category, set_total. simpl. by rewrite !date_set_source.
  - unfold set_category, set_total. simpl. by rewrite !byCategory_set_source.
  - intros Hsrc.
    change (total (set_category ?x _ _)) with (total x).
    change (get_source (set_category ?x _ _)) with (get_source x).
    unfold set_total. rewrite total_set_source by done.
    rewrite get_set_source_eq, (get_set_source_ne _ "total" source) by done.
    split; [done|]. split; [done|]. intros other Ho Ht.
    by rewrite !get_set_source_ne by done.
  - intros ->. unfold set_category, set_total, set_source, get_source.
    simpl. lia.
Qed.

(** X6.  The names of the source and of the category are no members of
    [Object.prototype], and that of the source is not [date] or
    [byCategory].  On the day the counters are stored for, recording a
    post of a source other than the name [total] adds one to the total,
    to the counter of that source (starting from zero when it has none)
    and to the counter of the category, and leaves every other source,
    every other category and the day as they are.  For the name [total]
    as a source the same property is incremented twice. *)
Theorem incrementCounters_adds_one_to_three_counters
    (now : Z) (source categoryKey : string) (c : DailyCounters)
    (Hsource : source_name source = true)
    (Hcategory : category_name categoryKey = true)
    (Hday : date c = Some (today_of now)) :
  let c' := incrementCounters now source categoryKey c in
  date c' = date c
  ∧ byCategory c'
    = <[categoryKey := Js.or_zero (byCategory c !! categoryKey) + 1]>
        (byCategory c)
  ∧ (source ≠ "total" →
     total c' = total c + 1
     ∧ get_source c' source = Some (Js.or_zero (get_source c source) + 1)
     ∧ ∀ other, other ≠ source → other ≠ "total" →
                get_source c' other = get_source c other)
  ∧ (source = "total" → total c' = total c + 2).
Proof. by apply incrementCounters_frame. Qed.


End RecordingAPost.

Lemma incrementCounters_adds_one_to_three_counters_witness :
  let c := three_posts_on 0 in
  let c' := Scheduler.incrementCounters 5000 "amazon" "laptops" c in
  Scheduler.date c' = Scheduler.date c
  ∧ Scheduler.byCategory c'
    = <["laptops" := Js.or_zero (Scheduler.byCategory c !! "laptops") + 1]>
        (Scheduler.byCategory c)
  ∧ ("amazon" ≠ "total" →
     Scheduler.total c' = Scheduler.total c + 1
     ∧ Scheduler.get_source c' "amazon"
       = Some (Js.or_zero (Scheduler.get_source c "amazon") + 1)
     ∧ ∀ other, other ≠ "amazon" → other ≠ "total" →
                Scheduler.get_source c' other = Scheduler.get_source c other)
  ∧ ("amazon" = "total" → Scheduler.total c' = Scheduler.total c + 2).
Proof.
  apply (incrementCounters_adds_one_to_three_counters 5000 "amazon" "laptops"
           (three_posts_on 0)); by vm_compute.
Defined.


(** * Further properties of the novelty tracker *)
Section KeysOfProducts.
Import Dedupe.
Variable limits : Limits.

Lemma toLowerCase_append s t :
  Js.toLowerCase (s +:+ t) = Js.toLowerCase s +:+ Js.toLowerCase t.
Proof. induction s as [|a r IH]; simpl; [done|]. by rewrite IH. Qed.

Lemma truthy_toLowerCase s : Js.truthy (Js.toLowerCase s) = Js.truthy s.
Proof. by destruct s. Qed.

Lemma truthy_lower_eq s t :
  Js.toLowerCase s = Js.toLowerCase t → Js.truthy s = Js.truthy t.
Proof. intros H. by rewrite <- (truthy_toLowerCase s), H, truthy_toLowerCase. Qed.

(** The key is a function of the lower-case spellings. *)
Lemma uniqueKey_spelling id1 id2 source1 source2 :
  Js.toLowerCase id1 = Js.toLowerCase id2 →
  Js.toLowerCase source1 = Js.toLowerCase source2 →
  uniqueKey (Some id1) source1 = uniqueKey (Some id2) source2.
Proof.
  intros Hid Hsrc. unfold uniqueKey. simpl.
  rewrite (truthy_lower_eq source1 source2 Hsrc).
  destruct (Js.truthy source2); [|done].
  by rewrite !toLowerCase_append, !toLowerCase_idem, Hid, Hsrc.
Qed.

(** X8.  Two spellings of a product that differ only in the case of the
    letters of the identifier and of the source are one product for the
    tracker: marking either has the same effect and [isDuplicate] gives
    the same answer for both. *)
Theorem tracker_ignores_case
    (now : Z) (id1 id2 source1 source2 : string) (m : PostedMap)
    (Hid : Js.toLowerCase id1 = Js.toLowerCase id2)
    (Hsource : Js.toLowerCase source1 = Js.toLowerCase source2) :
  markPosted now (Some id1) source1 m = markPosted now (Some id2) source2 m
  ∧ isDuplicate limits now (Some id1) source1 m
    = isDuplicate limits now (Some id2) source2 m.
Proof.
  unfold markPosted, isDuplicate. simpl.
  rewrite (uniqueKey_spelling id1 id2 source1 source2 Hid Hsource).
  by rewrite (truthy_lower_eq id1 id2 Hid).
Qed.

(** X9.  The key of a product with a source is also the key of the
    product without source whose identifier is that source, an
    underscore and the identifier: [isDuplicate] cannot tell the two
    apart, so marking the first makes the second a duplicate. *)
Theorem keys_with_and_without_source_overlap
    (now : Z) (id source : string) (m : PostedMap)
    (Hsource : source ≠ EmptyString) :
  let joined := source +:+ "_" +:+ id in
  uniqueKey (Some joined) EmptyString = uniqueKey (Some id) source
  ∧ isDuplicate limits now (Some joined) EmptyString m
    = isDuplicate limits now (Some id) source m
  ∧ (id ≠ EmptyString →
     (isDuplicate limits now (Some joined) EmptyString
        (markPosted now (Some id) source m)).2 = true).
Proof.
  intros joined.
  assert (uniqueKey (Some joined) EmptyString = uniqueKey (Some id) source)
    as Hkey.
  { unfold uniqueKey, joined. simpl.
    assert (Js.truthy source = true) as ->
      by (unfold Js.truthy; by rewrite bool_decide_eq_false_2).
    by rewrite !toLowerCase_append, !toLowerCase_idem. }
  split; [done|]. split; [unfold isDuplicate; by rewrite Hkey|].
  intros Hid. unfold isDuplicate. rewrite Hkey.
  assert (no_id (Some id) = false) as Hno
    by (simpl; unfold Js.truthy; by rewrite bool_decide_eq_false_2).
  unfold markPosted, isPosted. rewrite Hno.
  rewrite uniqueKey_truthy, uniqueKey_lower, map_get_set by done. simpl.
  pose proof (TTL_MS_pos limits).
  by rewrite bool_decide_eq_true_2 by lia.
Qed.

Lemma map_delete_length k t (m : PostedMap) :
  NoDup m.*1 → map_get k m = Some t →
  (List.length (map_delete k m) + 1 = List.length m)%nat.
Proof.
  unfold map_delete. induction m as [|[k0 v0] r IH]; [done|].
  intros Hnd Hget. apply NoDup_cons in Hnd as [Hk0 Hnd]. simpl in Hget.
  case_bool_decide as Hk.
  - subst k0. rewrite filter_cons_False by (simpl; tauto).
    rewrite filter_all; [simpl; lia|].
    apply Forall_forall. intros [k' v'] Hin Heq. simpl in Heq. subst k'.
    apply Hk0. apply list_elem_of_fmap. by exists (k, v').
  - rewrite filter_cons_True by done. simpl. rewrite <- IH by done. lia.
Qed.

(** X10.  Marking a product with an identifier tracks its key once: the
    map grows by one entry when the key is new and keeps its entries,
    in their order, when the key is already tracked; the key then holds
    the time of the marking.  Marking it again later changes only that
    time. *)
Theorem markPosted_tracks_a_key_once
    (now later : Z) (id source : string) (m : PostedMap)
    (Hid : id ≠ EmptyString) :
  let key := uniqueKey (Some id) source in
  let marked := markPosted now (Some id) source m in
  let again := markPosted later (Some id) source marked in
  map_get key marked = Some now
  ∧ marked.*1 = (if decide (key ∈ m.*1) then m.*1 else m.*1 ++ [key])
  ∧ (∀ other, other ≠ key → map_get other marked = map_get other m)
  ∧ map_get key again = Some later
  ∧ again.*1 = marked.*1
  ∧ getTrackedCount again = getTrackedCount marked.
Proof.
  intros key marked again. subst again marked.
  assert (no_id (Some id) = false) as Hno
    by (simpl; unfold Js.truthy; by rewrite bool_decide_eq_false_2).
  unfold markPosted. rewrite Hno. fold key.
  assert ((map_set key later (map_set key now m)).*1 = (map_set key now m).*1)
    as Hkeys.
  { rewrite (map_set_keys key later). rewrite decide_True; [done|].
    apply dec_stable. intros Hout.
    apply map_get_None_not_in in Hout. by rewrite map_get_set in Hout. }
  split; [apply map_get_set|]. split; [apply map_set_keys|].
  split; [intros other Ho; by apply map_get_set_ne|].
  split; [apply map_get_set|]. split; [done|].
  unfold getTrackedCount.
  by rewrite <- (length_fmap fst (map_set key later _)), Hkeys, length_fmap.
Qed.

(** X11.  [isDuplicate] never adds to the map.  For a key that is not
    empty: an answer of true, or a key that is not tracked, leaves the
    map as it is; a tracked key whose age has reached the time to live
    is answered with false and removed, so that the map has one entry
    less. *)
Theorem isDuplicate_removes_only_the_expired_key
    (now : Z) (productId : option string) (source : string) (m : PostedMap)
    (Hkeys : NoDup m.*1)
    (Hkey : Js.truthy (uniqueKey productId source) = true) :
  let key := uniqueKey productId source in
  let m' := (isDuplicate limits now productId source m).1 in
  let answer := (isDuplicate limits now productId source m).2 in
  (answer = true → m' = m)
  ∧ (map_get key m = None → m' = m ∧ answer = false)
  ∧ (∀ t, map_get key m = Some t →
       (now - t < TTL_MS limits → m' = m ∧ answer = true)
       ∧ (TTL_MS limits ≤ now - t →
          answer = false ∧ map_get key m' = None
          ∧ (getTrackedCount m' + 1 = getTrackedCount m)%nat
          ∧ ∀ other, other ≠ key → map_get other m' = map_get other m)).
Proof.
  intros key m' answer. subst m' answer key.
  unfold isDuplicate, isPosted. rewrite Hkey, uniqueKey_lower. simpl.
  set (key := uniqueKey productId source).
  destruct (map_get key m) as [t|] eqn:Hget.
  - case_bool_decide as Hage; simpl.
    + split; [done|]. split; [done|]. intros t' [= <-].
      split; [done | lia].
    + split; [done|]. split; [done|]. intros t' [= <-].
      split; [lia|]. intros _. split; [done|].
      split; [rewrite map_get_delete; by case_decide|].
      split; [by apply (map_delete_length key t)|].
      intros other Ho. rewrite map_get_delete. by case_decide.
  - simpl. split; [done|]. split; [done|]. by intros t' [=].
Qed.

End KeysOfProducts.

Section Persistence.
Import Dedupe.
Variable limits : Limits.

Definition live_at (now : Z) (e : string * Z) : Prop :=
  now - e.2 < TTL_MS limits.

#[global] Instance live_at_dec now e : Decision (live_at now e).
Proof. unfold live_at. apply _. Defined.

(** What [saveToFile] leaves in memory. *)
Lemma saveToFile_memory now (m : PostedMap) :
  NoDup m.*1 →
  let m1 := (saveToFile limits now m).1 in
  NoDup m1.*1
  ∧ Forall (live_at now) m1
  ∧ Z.of_nat (List.length m1) ≤ MAX_TRACKED limits
  ∧ (saveToFile limits now m).2
    = Some (JsonObject (objectEntries (fromEntries m1)))
  ∧ (Z.of_nat (List.length (filter (live_at now) m)) ≤ MAX_TRACKED limits →
     m1 = filter (live_at now) m).
Proof.
  intros Hnd m1. subst m1. unfold saveToFile.
  rewrite cleanupExpired_live.
  change (filter (λ e, now - e.2 < TTL_MS limits) m)
    with (filter (live_at now) m).
  set (live := filter (live_at now) m).
  assert (NoDup live.*1) as Hlive_nd
    by (apply (NoDup_keys_sublist live m); [apply sublist_filter | done]).
  assert (Forall (live_at now) live) as Hlive
    by (apply Forall_forall; intros e He;
        by apply list_elem_of_filter in He as [? _]).
  pose proof (MAX_TRACKED_pos limits) as Hmax.
  case_bool_decide as Hcap; cbn [fst snd].
  - set (sorted := sort_by snd live).
    assert (sorted ≡ₚ live) as Hsorted by apply sort_by_Permutation.
    set (kept := slice_last (MAX_TRACKED limits) sorted).
    assert (NoDup kept.*1) as Hkept_nd.
    { apply (NoDup_keys_sublist kept sorted); [apply sublist_drop|].
      eapply NoDup_keys_Permutation; [symmetry; exact Hsorted | done]. }
    rewrite (fromEntries_NoDup kept) by done.
    split; [done|]. split; [eapply Forall_drop; by rewrite Hsorted|].
    split; [|split; [done | lia]].
    unfold kept, slice_last. rewrite length_drop.
    assert (List.length sorted = List.length live) by (by rewrite Hsorted).
    lia.
  - split; [done|]. split; [done|]. split; [lia|]. done.
Qed.

(** X12.  Saving twice in a row at the same time is saving once: the
    second [saveToFile()] leaves the map in memory and the file as the
    first one left them. *)
Theorem saveToFile_twice_is_once (now : Z) (m : PostedMap)
    (Hkeys : NoDup m.*1) :
  saveToFile limits now (saveToFile limits now m).1 = saveToFile limits now m.
Proof.
  destruct (saveToFile_memory now m Hkeys) as (Hnd & Hlive & Hlen & Hfile & _).
  set (m1 := (saveToFile limits now m).1) in *.
  rewrite (surjective_pairing (saveToFile limits now m)). fold m1.
  rewrite Hfile. unfold saveToFile at 1.
  rewrite cleanupExpired_live.
  rewrite (filter_all (λ e, now - e.2 < TTL_MS limits)) by done.
  by rewrite bool_decide_eq_false_2 by lia.
Qed.

Lemma elem_of_map_set e k v (m : PostedMap) :
  e ∈ map_set k v m → e = (k, v) ∨ e ∈ m.
Proof.
  induction m as [|[k0 v0] r IH]; simpl.
  - intros ->%list_elem_of_singleton. by left.
  - case_bool_decide as Hk.
    + subst k0. intros [-> | ?]%elem_of_cons; [by left|].
      right. by apply list_elem_of_further.
    + intros [-> | ?]%elem_of_cons; [right; left|].
      destruct (IH H) as [? | ?]; [by left|]. right. by right.
Qed.

Lemma elem_of_fromEntries e (entries : list (string * Z)) :
  e ∈ fromEntries entries → e ∈ entries.
Proof.
  unfold fromEntries.
  enough (∀ acc : PostedMap,
            e ∈ foldl (λ acc e, map_set e.1 e.2 acc) acc entries →
            e ∈ acc ∨ e ∈ entries) as H.
  { intros He. by destruct (H [] He) as [?%elem_of_nil | ?]. }
  induction entries as [|[k v] r IH]; intros acc He; simpl in *; [by left|].
  destruct (IH _ He) as [Hacc | Hr]; [|right; by right].
  apply elem_of_map_set in Hacc as [-> | ?]; [right; left | by left].
Qed.

(** X13.  [loadFromFile()] fails soft and loads clean.  Without a file
    the map in memory is kept; a file that does not parse gives the empty
    map; a file that parses gives members of the file only, with distinct
    keys, none of which has reached the time to live. *)
Theorem loadFromFile_loads_live_members_only
    (now : Z) (file : Store) (m0 : PostedMap) :
  let loaded := loadFromFile limits now file m0 in
  (file = None → loaded = m0)
  ∧ (file = Some Unparsable → loaded = [])
  ∧ (∀ members, file = Some (JsonObject members) →
       NoDup loaded.*1
       ∧ Forall (live_at now) loaded
       ∧ ∀ e, e ∈ loaded → e ∈ members).
Proof.
  intros loaded. subst loaded.
  split; [by intros ->|]. split; [by intros ->|].
  intros members ->. simpl.
  split; [apply fromEntries_keys_NoDup|].
  assert (∀ e, e ∈ fromEntries
                     (filter (λ e, now - e.2 < TTL_MS limits)
                        (objectEntries (fromEntries members))) →
               live_at now e ∧ e ∈ members) as Hin.
  { intros e He. apply elem_of_fromEntries, list_elem_of_filter in He
      as [Hlive He]. split; [done|].
    rewrite objectEntries_Permutation in He. by apply elem_of_fromEntries. }
  split; [apply Forall_forall|]; intros e He; by apply Hin.
Qed.

(** Looking a key up in a map with distinct keys. *)
Lemma map_get_Some_elem_of k v (m : PostedMap) :
  NoDup m.*1 → map_get k m = Some v ↔ (k, v) ∈ m.
Proof.
  induction m as [|[k0 v0] r IH]; simpl; intros Hnd.
  - split; [done | by intros ?%elem_of_nil].
  - apply NoDup_cons in Hnd as [Hk0 Hnd]. case_bool_decide as Hk.
    + subst k0. split.
      * intros [= ->]. left.
      * intros [[= ->] | Hin]%elem_of_cons; [done|].
        destruct Hk0. apply list_elem_of_fmap. by exists (k, v).
    + rewrite IH by done. split; [by right|].
      intros [[= -> ->] | ?]%elem_of_cons; done.
Qed.

Lemma map_get_Permutation k (m1 m2 : PostedMap) :
  NoDup m1.*1 → m1 ≡ₚ m2 → map_get k m1 = map_get k m2.
Proof.
  intros Hnd Hperm.
  assert (NoDup m2.*1) as Hnd2 by (by rewrite <- Hperm).
  destruct (map_get k m1) as [v|] eqn:H1.
  - symmetry. apply map_get_Some_elem_of; [done|]. rewrite <- Hperm.
    by apply map_get_Some_elem_of.
  - destruct (map_get k m2) as [v|] eqn:H2; [|done].
    apply map_get_Some_elem_of in H2; [|done]. rewrite <- Hperm in H2.
    apply map_get_Some_elem_of in H2; [|done]. congruence.
Qed.

Lemma map_get_filter k (P : string * Z → Prop) `{!∀ e, Decision (P e)}
    (m : PostedMap) :
  NoDup m.*1 →
  map_get k (filter P m)
  = match map_get k m with
    | Some v => if decide (P (k, v)) then Some v else None
    | None => None
    end.
Proof.
  intros Hnd.
  assert (NoDup (filter P m).*1) as Hnd'
    by (apply (NoDup_keys_sublist _ m); [apply sublist_filter | done]).
  destruct (map_get k m) as [v|] eqn:Hget.
  - apply map_get_Some_elem_of in Hget; [|done]. case_decide as HP.
    + apply map_get_Some_elem_of; [done|]. by apply list_elem_of_filter.
    + destruct (map_get k (filter P m)) as [v'|] eqn:Hf; [|done].
      apply map_get_Some_elem_of, list_elem_of_filter in Hf as [HP' Hin];
        [|done].
      apply map_get_Some_elem_of in Hin; [|done].
      apply map_get_Some_elem_of in Hget; [|done]. congruence.
  - destruct (map_get k (filter P m)) as [v'|] eqn:Hf; [|done].
    apply map_get_Some_elem_of, list_elem_of_filter in Hf as [_ Hin]; [|done].
    apply map_get_Some_elem_of in Hin; [|done]. congruence.
Qed.

(** The answer of [isDuplicate], whatever the key. *)
Lemma isDuplicate_answer now productId source (m : PostedMap) :
  (isDuplicate limits now productId source m).2
  = Js.truthy (uniqueKey productId source)
    && active limits now (uniqueKey productId source) m.
Proof.
  unfold isDuplicate, isPosted, active.
  destruct (Js.truthy (uniqueKey productId source)); [|done]. simpl.
  rewrite uniqueKey_lower.
  destruct (map_get _ m) as [t|]; [|done]. by case_bool_decide.
Qed.

(** Reading back, at a later time, the file of a map with distinct keys. *)
Lemma load_saved later (m m0 : PostedMap) :
  NoDup m.*1 →
  loadFromFile limits later
    (Some (JsonObject (objectEntries (fromEntries m)))) m0
  ≡ₚ filter (live_at later) m.
Proof.
  intros Hnd. simpl. rewrite (fromEntries_NoDup m) by done.
  assert (NoDup (objectEntries m).*1) as Hnd1
    by (eapply NoDup_keys_Permutation;
        [symmetry; apply objectEntries_Permutation | done]).
  rewrite (fromEntries_NoDup (objectEntries m)) by done.
  assert (objectEntries (objectEntries m) ≡ₚ m) as Hperm
    by (by rewrite !objectEntries_Permutation).
  rewrite fromEntries_NoDup.
  - change (λ e : string * Z, later - e.2 < TTL_MS limits)
      with (live_at later). by rewrite Hperm.
  - apply (NoDup_keys_sublist _ (objectEntries (objectEntries m)));
      [apply sublist_filter|].
    eapply NoDup_keys_Permutation; [symmetry; exact Hperm | done].
Qed.

(** A restart changes no answer, as long as the cap evicts nothing. *)
Lemma restart_keeps_active now later key (m m0 : PostedMap) :
  NoDup m.*1 → now ≤ later →
  Z.of_nat (List.length (filter (live_at now) m)) ≤ MAX_TRACKED limits →
  active limits later key
    (loadFromFile limits later (saveToFile limits now m).2 m0)
  = active limits later key m.
Proof.
  intros Hnd Hle Hcap.
  destruct (saveToFile_memory now m Hnd) as (Hnd1 & _ & _ & Hfile & Hm1).
  rewrite Hfile. rewrite Hm1 in * by done. clear Hm1 Hfile.
  unfold active.
  rewrite (map_get_Permutation key _ (filter (live_at later)
                                        (filter (live_at now) m)));
    [|simpl; apply fromEntries_keys_NoDup | by apply load_saved].
  rewrite !map_get_filter by done.
  destruct (map_get key m) as [t|]; [|done].
  unfold live_at. simpl. repeat case_decide; try done;
    symmetry; apply bool_decide_eq_false_2; lia.
Qed.

(** X14.  A restart changes no answer.  Let a map with distinct keys be
    saved at some time and the file be loaded by a fresh process at that
    time or later.  When the entries younger than the time to live at the
    time of saving were no more than [MAX_TRACKED], [isDuplicate] answers
    on the loaded map, at the time of loading, exactly as on the map that
    was saved. *)
Theorem restart_changes_no_answer
    (now later : Z) (productId : option string) (source : string)
    (m m0 : PostedMap)
    (Hkeys : NoDup m.*1) (Hlater : now ≤ later)
    (Hcap : Z.of_nat (List.length (filter (live_at now) m))
            ≤ MAX_TRACKED limits) :
  (isDuplicate limits later productId source
     (loadFromFile limits later (saveToFile limits now m).2 m0)).2
  = (isDuplicate limits later productId source m).2.
Proof.
  rewrite !isDuplicate_answer. by rewrite restart_keeps_active.
Qed.

(** X15.  A post is remembered across a restart.  A product with an
    identifier is marked, the map is saved later and loaded later still
    by a fresh process, all of it before the time to live has passed
    since the marking; unless the cap evicted entries when saving,
    [isDuplicate] answers true for the product on the loaded map. *)
Theorem marked_product_survives_a_restart
    (marked saved loaded : Z) (id source : string) (m m0 : PostedMap)
    (Hkeys : NoDup m.*1) (Hid : id ≠ EmptyString)
    (Hsaved : marked ≤ saved) (Hloaded : saved ≤ loaded)
    (Hlive : loaded - marked < TTL_MS limits)
    (Hcap : Z.of_nat (List.length
                        (filter (live_at saved)
                           (markPosted marked (Some id) source m)))
            ≤ MAX_TRACKED limits) :
  (isDuplicate limits loaded (Some id) source
     (loadFromFile limits loaded
        (saveToFile limits saved (markPosted marked (Some id) source m)).2
        m0)).2 = true.
Proof.
  assert (no_id (Some id) = false) as Hno
    by (simpl; unfold Js.truthy; by rewrite bool_decide_eq_false_2).
  rewrite isDuplicate_answer, uniqueKey_truthy by done. cbn [andb].
  rewrite restart_keeps_active;
    [| by apply markPosted_NoDup | done | done].
  unfold active, markPosted. rewrite Hno, map_get_set.
  by apply bool_decide_eq_true_2.
Qed.

End Persistence.

(** Three tracked products; at day 8 the first has expired. *)
Definition three_tracked : Dedupe.PostedMap :=
  [("flipkart_a", 1000); ("amazon_b", 2 * MS_PER_DAY);
   ("flipkart_c", 3 * MS_PER_DAY)].

Lemma tracker_ignores_case_witness :
  Dedupe.markPosted 1000 (Some "B0ABC") "Amazon" three_tracked
  = Dedupe.markPosted 1000 (Some "b0abc") "amazon" three_tracked
  ∧ Dedupe.isDuplicate readme_limits 1000 (Some "B0ABC") "Amazon" three_tracked
    = Dedupe.isDuplicate readme_limits 1000 (Some "b0abc") "amazon"
        three_tracked.
Proof.
  apply (tracker_ignores_case readme_limits 1000 "B0ABC" "b0abc"
           "Amazon" "amazon" three_tracked); by vm_compute.
Defined.

Lemma keys_with_and_without_source_overlap_witness :
  let joined := "amazon" +:+ "_" +:+ "b0abc" in
  Dedupe.uniqueKey (Some joined) EmptyString
  = Dedupe.uniqueKey (Some "b0abc") "amazon"
  ∧ Dedupe.isDuplicate readme_limits 1000 (Some joined) EmptyString
      three_tracked
    = Dedupe.isDuplicate readme_limits 1000 (Some "b0abc") "amazon"
        three_tracked
  ∧ ("b0abc" ≠ EmptyString →
     (Dedupe.isDuplicate readme_limits 1000 (Some joined) EmptyString
        (Dedupe.markPosted 1000 (Some "b0abc") "amazon" three_tracked)).2
     = true).
Proof.
  apply (keys_with_and_without_source_overlap readme_limits 1000 "b0abc"
           "amazon" three_tracked).
  done.
Defined.

Lemma markPosted_tracks_a_key_once_witness :
  let key := Dedupe.uniqueKey (Some "A") "flipkart" in
  let marked := Dedupe.markPosted 5000 (Some "A") "flipkart" three_tracked in
  let again := Dedupe.markPosted 6000 (Some "A") "flipkart" marked in
  Dedupe.map_get key marked = Some 5000
  ∧ marked.*1 = (if decide (key ∈ three_tracked.*1) then three_tracked.*1
                 else three_tracked.*1 ++ [key])
  ∧ (∀ other, other ≠ key →
              Dedupe.map_get other marked = Dedupe.map_get other three_tracked)
  ∧ Dedupe.map_get key again = Some 6000
  ∧ again.*1 = marked.*1
  ∧ Dedupe.getTrackedCount again = Dedupe.getTrackedCount marked.
Proof.
  apply (markPosted_tracks_a_key_once 5000 6000 "A" "flipkart" three_tracked).
  done.
Defined.

Lemma isDuplicate_removes_only_the_expired_key_witness :
  let now := 8 * MS_PER_DAY in
  let key := Dedupe.uniqueKey (Some "a") "flipkart" in
  let m' := (Dedupe.isDuplicate readme_limits now (Some "a") "flipkart"
               three_tracked).1 in
  let answer := (Dedupe.isDuplicate readme_limits now (Some "a") "flipkart"
                   three_tracked).2 in
  (answer = true → m' = three_tracked)
  ∧ (Dedupe.map_get key three_tracked = None →
     m' = three_tracked ∧ answer = false)
  ∧ (∀ t, Dedupe.map_get key three_tracked = Some t →
       (now - t < Dedupe.TTL_MS readme_limits →
        m' = three_tracked ∧ answer = true)
       ∧ (Dedupe.TTL_MS readme_limits ≤ now - t →
          answer = false ∧ Dedupe.map_get key m' = None
          ∧ (Dedupe.getTrackedCount m' + 1
             = Dedupe.getTrackedCount three_tracked)%nat
          ∧ ∀ other, other ≠ key →
                     Dedupe.map_get other m'
                     = Dedupe.map_get other three_tracked)).
Proof.
  apply (isDuplicate_removes_only_the_expired_key readme_limits
           (8 * MS_PER_DAY) (Some "a") "flipkart" three_tracked).
  - apply (bool_decide_unpack _). by vm_compute.
  - by vm_compute.
Defined.

Lemma saveToFile_twice_is_once_witness :
  Dedupe.saveToFile tight_limits (8 * MS_PER_DAY)
    (Dedupe.saveToFile tight_limits (8 * MS_PER_DAY) three_tracked).1
  = Dedupe.saveToFile tight_limits (8 * MS_PER_DAY) three_tracked.
Proof.
  apply (saveToFile_twice_is_once tight_limits (8 * MS_PER_DAY) three_tracked).
  apply (bool_decide_unpack _). by vm_compute.
Defined.

Lemma restart_changes_no_answer_witness :
  (Dedupe.isDuplicate readme_limits (9 * MS_PER_DAY) (Some "B") "amazon"
     (Dedupe.loadFromFile readme_limits (9 * MS_PER_DAY)
        (Dedupe.saveToFile readme_limits (8 * MS_PER_DAY) three_tracked).2
        [])).2
  = (Dedupe.isDuplicate readme_limits (9 * MS_PER_DAY) (Some "B") "amazon"
       three_tracked).2.
Proof.
  apply (restart_changes_no_answer readme_limits (8 * MS_PER_DAY)
           (9 * MS_PER_DAY) (Some "B") "amazon" three_tracked []).
  - apply (bool_decide_unpack _). by vm_compute.
  - by vm_compute.
  - by vm_compute.
Defined.

Lemma marked_product_survives_a_restart_witness :
  (Dedupe.isDuplicate readme_limits (5 * MS_PER_DAY) (Some "D") "flipkart"
     (Dedupe.loadFromFile readme_limits (5 * MS_PER_DAY)
        (Dedupe.saveToFile readme_limits (4 * MS_PER_DAY + 9000)
           (Dedupe.markPosted (4 * MS_PER_DAY) (Some "D") "flipkart"
              three_tracked)).2
        [])).2 = true.
Proof.
  apply (marked_product_survives_a_restart readme_limits (4 * MS_PER_DAY)
           (4 * MS_PER_DAY + 9000) (5 * MS_PER_DAY) "D" "flipkart"
           three_tracked []).
  - apply (bool_decide_unpack _). by vm_compute.
  - done.
  - by vm_compute.
  - by vm_compute.
  - by vm_compute.
  - by vm_compute.
Defined.

Section FilterDuplicatesMore.
Import Dedupe.
Variable limits : Limits.

Lemma isDuplicate_sublist now productId source (m : PostedMap) :
  (isDuplicate limits now productId source m).1 `sublist_of` m.
Proof.
  unfold isDuplicate, isPosted.
  destruct (negb _); [done|]. simpl. destruct (map_get _ m); [|done].
  case_bool_decide; [done|]. apply sublist_filter.
Qed.

Lemma filterDuplicates_state now products : ∀ m : PostedMap,
  (filterDuplicates limits now products m).1 `sublist_of` m
  ∧ ∀ key, active limits now key (filterDuplicates limits now products m).1
           = active limits now key m.
Proof.
  induction products as [|product rest IH]; intros m; simpl; [done|].
  destruct (no_id (id product)); [apply IH|].
  pose proof (isDuplicate_sublist now (id product) (source product) m) as Hs.
  pose proof (λ key, isDuplicate_keeps_active limits now (id product)
                       (source product) key m) as Ha.
  destruct (isDuplicate limits now (id product) (source product) m)
    as [m1 dup]. simpl in Hs, Ha.
  destruct (IH m1) as [Hs1 Ha1].
  destruct (filterDuplicates limits now rest m1) as [m2 kept]. simpl in *.
  split; [by etrans|]. intros key. by rewrite Ha1.
Qed.

Lemma is_new_same_answers now (m1 m2 : PostedMap) product :
  (∀ key, active limits now key m1 = active limits now key m2) →
  is_new limits now m1 product ↔ is_new limits now m2 product.
Proof.
  intros Ha. unfold is_new.
  split; intros [Hid Hdup]; (split; [done|]);
    rewrite isDuplicate_active in Hdup |- * by done.
  - by rewrite <- Ha.
  - by rewrite Ha.
Qed.

(** X16.  [filterDuplicates] judges every item on its own, against the
    tracked products only: the result for a concatenation is the
    concatenation of the results, so a product that occurs twice in the
    list and is not tracked is returned twice.  It never adds to the map
    (it only drops expired entries, which changes no answer), and
    filtering its own result again returns that result. *)
Theorem filterDuplicates_judges_items_one_by_one
    (now : Z) (first second : list Product) (m : PostedMap) :
  let m' := (filterDuplicates limits now first m).1 in
  let kept := (filterDuplicates limits now first m).2 in
  (filterDuplicates limits now (first ++ second) m).2
  = kept ++ (filterDuplicates limits now second m).2
  ∧ m' `sublist_of` m
  ∧ (∀ productId source,
       (isDuplicate limits now productId source m').2
       = (isDuplicate limits now productId source m).2)
  ∧ (filterDuplicates limits now kept m').2 = kept.
Proof.
  intros m' kept. subst m' kept.
  destruct (filterDuplicates_state now first m) as [Hsub Hactive].
  rewrite !filterDuplicates_filter.
  split; [apply filter_app|]. split; [done|]. split.
  - intros productId source. by rewrite !isDuplicate_answer, Hactive.
  - rewrite (list_filter_iff _ (is_new limits now m))
      by (intros p; by apply is_new_same_answers).
    apply filter_all, Forall_forall. intros p Hp.
    by apply list_elem_of_filter in Hp as [? _].
Qed.

End FilterDuplicatesMore.

(** * Further properties of the transport *)
Section TransportMore.
Import Eff Telegram.
Local Open Scope eff_scope.
Variable limits : Limits.
Variable env : Env.
Variable net : Network.

(** Whether [getCredentials()] finds both credentials. *)
Definition credentials_configured : bool :=
  match TELEGRAM_BOT_TOKEN env, TELEGRAM_CHANNEL_ID env with
  | Some botToken, Some channelId => Js.truthy botToken && Js.truthy channelId
  | _, _ => false
  end.

(** How often [sendMessageWithRetry] may try: [maxRetries + 1] times
    with retries on, once with retries off. *)
Definition attempts_allowed : nat :=
  if retryOnFailure limits then
    match maxRetries limits with
    | Some n => S (N.to_nat n)
    | None => O
    end
  else 1%nat.

(** The message of the error that a reply which is no success raises in
    [sendMessage]. *)
Definition error_of (o : FetchOutcome) : string :=
  match o with
  | NetworkError message => message
  | ApiResponse _ description => description_or description "Telegram API error"
  end.

(** The world after one request. *)
Definition after_request (w : World) : World :=
  with_requests (S (requests w))
    (with_clock (clock w + latency net (requests w)) w).

(** Nothing but the clock and the count of requests has changed. *)
Definition only_time_passed (w w' : World) : Prop :=
  dailyCounters w' = dailyCounters w
  ∧ postedProducts w' = postedProducts w
  ∧ results w' = results w
  ∧ (requests w ≤ requests w')%nat
  ∧ ((∀ n, 0 ≤ latency net n) → clock w ≤ clock w').

Lemma only_time_passed_refl w : only_time_passed w w.
Proof. repeat split; try done; lia. Qed.

Lemma only_time_passed_trans w1 w2 w3 :
  only_time_passed w1 w2 → only_time_passed w2 w3 → only_time_passed w1 w3.
Proof.
  intros (? & ? & ? & ? & Hc1) (? & ? & ? & ? & Hc2).
  repeat split; try congruence; [lia|].
  intros Hlat. specialize (Hc1 Hlat). specialize (Hc2 Hlat). lia.
Qed.

Lemma only_time_passed_request w : only_time_passed w (after_request w).
Proof.
  repeat split; simpl; [lia|]. intros Hlat. specialize (Hlat (requests w)). lia.
Qed.

Lemma only_time_passed_sleep w ms :
  0 ≤ ms → only_time_passed w (with_clock (clock w + ms) w).
Proof. intros Hms. repeat split; simpl; [lia|]. intros _. lia. Qed.

Lemma getCredentials_cases w :
  if credentials_configured
  then ∃ credentials, getCredentials env w = (Return credentials, w)
  else getCredentials env w = (Throw "Telegram credentials not configured", w).
Proof.
  unfold credentials_configured, getCredentials.
  destruct (TELEGRAM_BOT_TOKEN env) as [botToken|],
    (TELEGRAM_CHANNEL_ID env) as [channelId|]; try done.
  destruct (Js.truthy botToken && Js.truthy channelId); [by eexists | done].
Qed.

(** The three ways [sendMessage] can go. *)
Lemma sendMessage_cases text w :
  if credentials_configured then
    if delivered (respond net (requests w))
    then sendMessage env net text w = (Return tt, after_request w)
    else sendMessage env net text w
         = (Throw (error_of (respond net (requests w))), after_request w)
  else sendMessage env net text w
       = (Throw "Telegram credentials not configured", w).
Proof.
  pose proof (getCredentials_cases w) as Hcred.
  unfold sendMessage, bind, try_catch, fetch.
  destruct credentials_configured.
  - destruct Hcred as [credentials Hcred]. rewrite Hcred.
    fold (after_request w).
    by destruct (respond net (requests w)) as [message | [] description].
  - by rewrite Hcred.
Qed.

Lemma retryLoop_spec attempts text : ∀ w,
  ∃ o w', retryLoop env net attempts text w = (Return o, w')
          ∧ only_time_passed w w'
          ∧ (requests w' ≤ requests w + attempts)%nat
          ∧ (is_Some o →
             ∃ n, (requests w ≤ n < requests w')%nat
                  ∧ delivered (respond net n) = true).
Proof.
  induction attempts as [|remaining IH]; intros w; simpl.
  - eexists _, _. split; [done|]. split; [apply only_time_passed_refl|].
    split; [lia|]. by intros [? ?].
  - unfold try_catch, bind at 1.
    pose proof (sendMessage_cases text w) as Hsend.
    destruct credentials_configured.
    + destruct (delivered (respond net (requests w))) eqn:Hd; rewrite Hsend.
      * simpl. eexists _, _. split; [done|].
        split; [apply only_time_passed_request|]. simpl. split; [lia|].
        intros _. exists (requests w). split; [lia | done].
      * destruct (Js.includes _ _).
        -- eexists _, _. split; [done|].
           split; [apply only_time_passed_request|]. simpl.
           split; [lia | by intros [? ?]].
        -- unfold bind.
           assert (∃ w1, (if bool_decide (0 < remaining)%nat
                          then sleep 2000 else ret tt) (after_request w)
                         = (Return tt, w1)
                         ∧ only_time_passed (after_request w) w1
                         ∧ requests w1 = S (requests w)) as (w1 & -> & Ht & Hr).
           { case_bool_decide.
             - eexists. split; [reflexivity|].
               split; [by apply only_time_passed_sleep | done].
             - eexists. split; [reflexivity|].
               split; [apply only_time_passed_refl | done]. }
           destruct (IH w1) as (o & w' & -> & Ht' & Hreq & Hsome).
           eexists _, _. split; [done|].
           split; [eapply only_time_passed_trans;
                   [apply only_time_passed_request|];
                   by eapply only_time_passed_trans|].
           split; [lia|]. intros Ho.
           destruct (Hsome Ho) as (n & Hn & Hdn). exists n. split; [lia|done].
    + rewrite Hsend. simpl. unfold bind.
      assert (∃ w1, (if bool_decide (0 < remaining)%nat
                     then sleep 2000 else ret tt) w = (Return tt, w1)
                    ∧ only_time_passed w w1
                    ∧ requests w1 = requests w) as (w1 & -> & Ht & Hr).
      { case_bool_decide.
        - eexists. split; [reflexivity|].
          split; [by apply only_time_passed_sleep | done].
        - eexists. split; [reflexivity|].
          split; [apply only_time_passed_refl | done]. }
      destruct (IH w1) as (o & w' & -> & Ht' & Hreq & Hsome).
      eexists _, _. split; [done|].
      split; [by eapply only_time_passed_trans|].
      split; [lia|]. intros Ho.
      destruct (Hsome Ho) as (n & Hn & Hdn). exists n. split; [lia|done].
Qed.

(** X17.  [sendMessageWithRetry] never throws: it returns the reply or
    [null].  It sends no more than [maxRetries + 1] requests (one when
    retries are off), returns a reply only if one of these requests was
    answered with a success, and changes nothing but the clock and the
    count of requests. *)
Theorem sendMessageWithRetry_tries_a_bounded_number_of_times
    (text : string) (w : World) :
  ∃ reply w',
    sendMessageWithRetry limits env net text w = (Return reply, w')
    ∧ only_time_passed w w'
    ∧ (requests w' ≤ requests w + attempts_allowed)%nat
    ∧ (is_Some reply →
       ∃ n, (requests w ≤ n < requests w')%nat
            ∧ delivered (respond net n) = true).
Proof. apply retryLoop_spec. Qed.

Lemma sendPhoto_spec photoUrl caption w :
  (∃ e, sendPhoto env net photoUrl caption w = (Throw e, w)
        ∧ credentials_configured = false)
  ∨ (∃ o, sendPhoto env net photoUrl caption w = (Return o, after_request w)
          ∧ (is_Some o ↔ delivered (respond net (requests w)) = true)).
Proof.
  pose proof (getCredentials_cases w) as Hcred.
  unfold sendPhoto, bind, try_catch, fetch.
  destruct credentials_configured.
  - destruct Hcred as [credentials Hcred]. rewrite Hcred. right.
    fold (after_request w).
    destruct (respond net (requests w)) as [message | [] description]; simpl;
      eexists; (split; [done|]); split; try done; by intros [? ?].
  - rewrite Hcred. left. by eexists.
Qed.

(** What [postDeal] returns and changes. *)
Lemma postDeal_spec
    (formattedMessage imageUrl : string) (w : World) :
  ∃ success w',
    postDeal limits env net formattedMessage imageUrl w = (Return success, w')
    ∧ only_time_passed w w'
    ∧ (requests w' ≤ requests w + 1 + attempts_allowed)%nat
    ∧ (success = true →
       ∃ n, (requests w ≤ n < requests w')%nat
            ∧ delivered (respond net n) = true).
Proof.
  unfold postDeal, try_catch, bind.
  assert (∀ w1, only_time_passed w w1 →
                (requests w1 ≤ requests w + 1)%nat →
                ∃ success w',
                  (let (o, w2) := sendMessageWithRetry limits env net
                                    formattedMessage w1 in
                   match o with
                   | Return result => ret (bool_decide (is_Some result)) w2
                   | Throw e => (Throw e, w2)
                   end) = (Return success, w')
                  ∧ only_time_passed w w'
                  ∧ (requests w' ≤ requests w + 1 + attempts_allowed)%nat
                  ∧ (success = true →
                     ∃ n, (requests w ≤ n < requests w')%nat
                          ∧ delivered (respond net n) = true)) as Htext.
  { intros w1 Ht Hr.
    destruct (retryLoop_spec attempts_allowed formattedMessage w1)
      as (o & w2 & Hrun & Ht2 & Hreq & Hsome).
    unfold sendMessageWithRetry. fold attempts_allowed. rewrite Hrun.
    eexists _, _. split; [done|].
    split; [by eapply only_time_passed_trans|]. split; [lia|].
    intros Hs%bool_decide_eq_true_1.
    destruct (Hsome Hs) as (n & Hn & Hd). exists n.
    destruct Ht as (_ & _ & _ & ? & _). split; [lia | done]. }
  destruct (Js.truthy imageUrl && Js.startsWith imageUrl "http").
  - destruct (sendPhoto_spec imageUrl formattedMessage w)
      as [(e & -> & _) | (o & -> & Ho)].
    + eexists _, _. split; [done|]. split; [apply only_time_passed_refl|].
      split; [lia | done].
    + destruct o as [data|].
      * eexists _, _. split; [done|].
        split; [apply only_time_passed_request|]. simpl. split; [lia|].
        intros _. exists (requests w). split; [lia|]. by apply Ho.
      * destruct (Htext (after_request w)) as (success & w' & Hrun & Hrest);
          [apply only_time_passed_request | simpl; lia |].
        destruct (sendMessageWithRetry _ _ _ _ _) as [[result|e] w2];
          [|done]. simpl in Hrun. injection Hrun as <- <-.
        eexists _, _. split; [done | exact Hrest].
  - simpl.
    destruct (Htext w) as (success & w' & Hrun & Hrest);
      [apply only_time_passed_refl | lia |].
    destruct (sendMessageWithRetry _ _ _ _ _) as [[result|e] w2];
      [|done]. simpl in Hrun. injection Hrun as <- <-.
    eexists _, _. split; [done | exact Hrest].
Qed.


(** X18.  [postDeal] reports a success only for a delivered message: when
    it returns true, one of the requests it sent was answered with a
    success.  It sends at most one photo request and [maxRetries + 1]
    text requests, and changes nothing but the clock and the count of
    requests. *)
Theorem postDeal_succeeds_only_when_delivered
    (formattedMessage imageUrl : string) (w : World) :
  ∃ success w',
    postDeal limits env net formattedMessage imageUrl w = (Return success, w')
    ∧ only_time_passed w w'
    ∧ (requests w' ≤ requests w + 1 + attempts_allowed)%nat
    ∧ (success = true →
       ∃ n, (requests w ≤ n < requests w')%nat
            ∧ delivered (respond net n) = true).
Proof. apply postDeal_spec. Qed.

End TransportMore.

Section TransportFailures.
Import Eff Telegram.
Local Open Scope eff_scope.
Variable limits : Limits.
Variable env : Env.
Variable net : Network.

(** The time that [count] requests take, from the request of index
    [first] on. *)
Fixpoint total_latency (first count : nat) : Z :=
  match count with
  | O => 0
  | S rest => latency net first + total_latency (S first) rest
  end.

Lemma retryLoop_without_credentials attempts text : ∀ w,
  credentials_configured env = false →
  ∃ w', retryLoop env net attempts text w = (Return None, w')
        ∧ requests w' = requests w
        ∧ clock w' = clock w + 2000 * Z.of_nat (Nat.pred attempts)
        ∧ dailyCounters w' = dailyCounters w
        ∧ postedProducts w' = postedProducts w
        ∧ results w' = results w.
Proof.
  intros w Hcred. revert w.
  induction attempts as [|remaining IH]; intros w; simpl.
  - eexists. split; [done|]. repeat split; lia.
  - unfold try_catch, bind at 1.
    pose proof (sendMessage_cases env net text w) as Hsend.
    rewrite Hcred in Hsend. rewrite Hsend.
    change (Js.includes "Telegram credentials not configured"
              "Too Many Requests") with false.
    cbn iota. unfold bind. case_bool_decide as Hrem.
    + destruct (IH (with_clock (clock w + 2000) w))
        as (w' & Hrun & Hr & Hc & Ht).
      simpl. unfold sleep, modify. rewrite Hrun. eexists. split; [done|].
      split; [done|]. split; [|done]. rewrite Hc. simpl. lia.
    + destruct (IH w) as (w' & Hrun & Hr & Hc & Ht).
      simpl. rewrite Hrun. eexists. split; [done|].
      split; [done|]. split; [|done]. rewrite Hc.
      assert (remaining = 0%nat) as -> by lia. simpl. lia.
Qed.

(** X19.  Without credentials [postDeal] sends nothing and returns
    false.  With an image it returns at once; without an image every
    attempt of the retry loop fails on the credentials and the loop
    still waits two seconds between attempts, so the call takes
    [2000 * maxRetries] milliseconds. *)
Theorem postDeal_without_credentials
    (formattedMessage imageUrl : string) (w : World)
    (Hcredentials : credentials_configured env = false) :
  ∃ w',
    postDeal limits env net formattedMessage imageUrl w = (Return false, w')
    ∧ requests w' = requests w
    ∧ dailyCounters w' = dailyCounters w
    ∧ postedProducts w' = postedProducts w
    ∧ results w' = results w
    ∧ clock w'
      = clock w
        + (if Js.truthy imageUrl && Js.startsWith imageUrl "http" then 0
           else 2000 * Z.of_nat (Nat.pred (attempts_allowed limits))).
Proof.
  unfold postDeal, try_catch, bind.
  destruct (Js.truthy imageUrl && Js.startsWith imageUrl "http").
  - assert (sendPhoto env net imageUrl formattedMessage w
            = (Throw "Telegram credentials not configured", w)) as ->.
    { pose proof (getCredentials_cases env w) as Hcred.
      rewrite Hcredentials in Hcred. unfold sendPhoto, bind.
      by rewrite Hcred. }
    eexists. split; [done|]. repeat split. lia.
  - simpl. unfold sendMessageWithRetry. fold (attempts_allowed limits).
    destruct (retryLoop_without_credentials (attempts_allowed limits)
                formattedMessage w Hcredentials)
      as (w' & -> & Hr & Hc & Hd & Hp & Hres).
    eexists. split; [done|]. by repeat split.
Qed.

Lemma retryLoop_exhausted attempts text : ∀ w,
  credentials_configured env = true →
  (∀ n, (requests w ≤ n)%nat →
        delivered (respond net n) = false
        ∧ Js.includes (error_of (respond net n)) "Too Many Requests" = false) →
  ∃ w', retryLoop env net attempts text w = (Return None, w')
        ∧ requests w' = (requests w + attempts)%nat
        ∧ clock w' = clock w + total_latency (requests w) attempts
                     + 2000 * Z.of_nat (Nat.pred attempts).
Proof.
  intros w Hcred. revert w.
  induction attempts as [|remaining IH]; intros w Hdown; simpl.
  - eexists. split; [done|]. split; lia.
  - unfold try_catch, bind at 1.
    pose proof (sendMessage_cases env net text w) as Hsend.
    rewrite Hcred in Hsend.
    destruct (Hdown (requests w) (le_n _)) as [Hd Hlimit].
    rewrite Hd in Hsend. rewrite Hsend, Hlimit. unfold bind.
    case_bool_decide as Hrem.
    + destruct (IH (with_clock (clock (after_request net w) + 2000)
                      (after_request net w)))
        as (w' & Hrun & Hr & Hc); [intros n Hn; apply Hdown; simpl in *; lia|].
      simpl. unfold sleep, modify. simpl in Hrun. rewrite Hrun.
      eexists. split; [done|]. simpl in *. split; [lia|].
      rewrite Hc. lia.
    + destruct (IH (after_request net w)) as (w' & Hrun & Hr & Hc);
        [intros n Hn; apply Hdown; simpl in *; lia|].
      simpl. simpl in Hrun. rewrite Hrun.
      eexists. split; [done|]. simpl in *. split; [lia|].
      rewrite Hc. assert (remaining = 0%nat) as -> by lia. simpl. lia.
Qed.

(** X20.  When the credentials are configured and every request fails
    for another reason than a rate limit, [sendMessageWithRetry] returns
    [null] after exactly [maxRetries + 1] requests (one with retries
    off), having waited two seconds between consecutive attempts and
    not after the last. *)
Theorem sendMessageWithRetry_uses_every_attempt
    (text : string) (w : World)
    (Hcredentials : credentials_configured env = true)
    (Hdown : ∀ n, (requests w ≤ n)%nat →
                  delivered (respond net n) = false
                  ∧ Js.includes (error_of (respond net n)) "Too Many Requests"
                    = false) :
  ∃ w',
    sendMessageWithRetry limits env net text w = (Return None, w')
    ∧ requests w' = (requests w + attempts_allowed limits)%nat
    ∧ clock w' = clock w
                 + total_latency (requests w) (attempts_allowed limits)
                 + 2000 * Z.of_nat (Nat.pred (attempts_allowed limits)).
Proof. by apply retryLoop_exhausted. Qed.

End TransportFailures.

Definition no_credentials_env : Env :=
  {| OVERRIDE_TOTAL_LIMIT := None; SALE_MODE := None;
     TELEGRAM_BOT_TOKEN := None; TELEGRAM_CHANNEL_ID := Some "@channel" |}.

(** A network on which every request is answered with an error of the
    server, after 100 milliseconds. *)
Definition failing_network : Eff.Network :=
  {| Eff.respond := λ _, Eff.ApiResponse false (Some "Bad Gateway");
     Eff.latency := λ _, 100 |}.

Lemma postDeal_without_credentials_witness :
  ∃ w',
    Telegram.postDeal readme_limits no_credentials_env (reliable_network 100)
      "message" EmptyString (fresh_world 1000) = (Eff.Return false, w')
    ∧ Eff.requests w' = Eff.requests (fresh_world 1000)
    ∧ Eff.dailyCounters w' = Eff.dailyCounters (fresh_world 1000)
    ∧ Eff.postedProducts w' = Eff.postedProducts (fresh_world 1000)
    ∧ Eff.results w' = Eff.results (fresh_world 1000)
    ∧ Eff.clock w'
      = Eff.clock (fresh_world 1000)
        + (if Js.truthy EmptyString && Js.startsWith EmptyString "http" then 0
           else 2000 * Z.of_nat (Nat.pred (attempts_allowed readme_limits))).
Proof.
  apply (postDeal_without_credentials readme_limits no_credentials_env
           (reliable_network 100) "message" EmptyString (fresh_world 1000)).
  by vm_compute.
Defined.

Lemma sendMessageWithRetry_uses_every_attempt_witness :
  ∃ w',
    Telegram.sendMessageWithRetry readme_limits plain_env failing_network
      "message" (fresh_world 1000) = (Eff.Return None, w')
    ∧ Eff.requests w'
      = (Eff.requests (fresh_world 1000) + attempts_allowed readme_limits)%nat
    ∧ Eff.clock w'
      = Eff.clock (fresh_world 1000)
        + total_latency failing_network (Eff.requests (fresh_world 1000))
            (attempts_allowed readme_limits)
        + 2000 * Z.of_nat (Nat.pred (attempts_allowed readme_limits)).
Proof.
  apply (sendMessageWithRetry_uses_every_attempt readme_limits plain_env
           failing_network "message" (fresh_world 1000)).
  - by vm_compute.
  - intros n _. by vm_compute.
Defined.

(** * Further properties of [postProducts] *)
Section PostingLoop.
Import Eff Dedupe Run.
Local Open Scope eff_scope.
Variable limits : Limits.
Variable env : Env.
Variable net : Network.
Variable formatProduct : Product → string → string.

(** The world after a candidate was skipped. *)
Definition after_skip (w : World) : World :=
  with_results (incr_skipped (results w)) w.

(** The world after a send that returned false, or that threw [error]. *)
Definition after_failure (error : string) (w : World) : World :=
  with_results (push_error error (incr_failed (results w))) w.

(** The world after a send that returned true, at the state [w] in which
    [postDeal] returned: the post is counted, marked and recorded at the
    time of [w]; then the name is logged, which fails for a product
    without name, and the delay between posts is waited. *)
Definition after_post (product : Product) (w : World) : World :=
  let counted :=
    with_counters
      (Scheduler.incrementCounters (clock w) (source product)
         (categoryKey product) (dailyCounters w))
      (with_posted
         (Dedupe.markPosted (clock w) (id product) (source product)
            (postedProducts w))
         (with_results
            (incr_source (source product) (incr_posted (results w))) w)) in
  match name product with
  | Some _ =>
      with_clock
        (clock counted + Js.or_default (delayBetweenPostsMs limits) 2000)
        counted
  | None =>
      after_failure "Cannot read properties of undefined (reading 'substring')"
        counted
  end.

(** One iteration of the loop of [postProducts]. *)
Lemma postLoop_step target product rest w :
  postLoop limits env net formatProduct target (product :: rest) w
  = if Js.ge (Some (posted (results w))) target then (Return tt, w)
    else
      let check := Scheduler.canPost limits env (clock w) (source product)
                     (categoryKey product) (dailyCounters w) in
      let w1 := with_counters check.1 w in
      if negb check.2.1
      then postLoop limits env net formatProduct target rest (after_skip w1)
      else
        let dup := Dedupe.isDuplicate limits (clock w1) (id product)
                     (source product) (postedProducts w1) in
        let w2 := with_posted dup.1 w1 in
        if dup.2
        then postLoop limits env net formatProduct target rest (after_skip w2)
        else
          match Telegram.postDeal limits env net
                  (formatProduct product (categoryKey product))
                  (imageUrl product) w2 with
          | (Return true, w3) =>
              postLoop limits env net formatProduct target rest
                (after_post product w3)
          | (Return false, w3) =>
              postLoop limits env net formatProduct target rest
                (after_failure ("Failed to post: " +:+ id_text (id product)) w3)
          | (Throw error, w3) =>
              if Js.includes error "Too Many Requests"
              then (Return tt, after_failure error w3)
              else postLoop limits env net formatProduct target rest
                     (after_failure error w3)
          end.
Proof.
  cbn [postLoop]. unfold bind at 1. unfold get at 1. cbn iota beta.
  destruct (Js.ge (Some (posted (results w))) target); [done|].
  unfold bind at 1. unfold canPost at 1.
  destruct (Scheduler.canPost limits env (clock w) (source product)
              (categoryKey product) (dailyCounters w))
    as [c [allowed reason]]. cbn [fst snd negb].
  destruct allowed; cbn [negb]; [|done].
  unfold bind at 1. unfold isDuplicate at 1.
  cbn [clock postedProducts with_counters].
  destruct (Dedupe.isDuplicate limits (clock w) (id product) (source product)
              (postedProducts w)) as [m dup]. cbn [fst snd].
  destruct dup; [done|].
  unfold bind at 1. unfold try_catch at 1. unfold bind at 1.
  destruct (Telegram.postDeal limits env net
              (formatProduct product (categoryKey product))
              (imageUrl product) _) as [[[] | error] w3].
  - unfold after_post, name_substring.
    destruct (name product); [done|].
    cbn. by destruct (postLoop _ _ _ _ _ _ _).
  - done.
  - cbn. by destruct (Js.includes error "Too Many Requests").
Qed.

End PostingLoop.

Section PostingLoopCounts.
Import Eff Dedupe Run.
Local Open Scope eff_scope.
Variable limits : Limits.
Variable env : Env.
Variable net : Network.
Variable formatProduct : Product → string → string.

(** The candidates a run has dealt with. *)
Definition handled (r : Results) : Z := posted r + skipped r + failed r.

(** The per-source counts of the results exceed the posts by this much
    (by nothing, in a run). *)
Definition source_surplus (r : Results) : Z :=
  flipkart r + amazon r - posted r.

(** The failures not explained by an error message (none, in a run). *)
Definition error_deficit (r : Results) : Z :=
  failed r - Z.of_nat (List.length (errors r)).

Definition has_known_source (product : Product) : Prop :=
  known_source (source product).

Definition has_name (product : Product) : Prop := is_Some (name product).

(** How the results of a run [r'] relate to the results [r] it started
    from, for the target [target] and [n] candidates. *)
Definition results_advance (target : option Z) (n : nat) (r r' : Results)
  : Prop :=
  source_surplus r' = source_surplus r
  ∧ error_deficit r' = error_deficit r
  ∧ posted r ≤ posted r' ∧ skipped r ≤ skipped r' ∧ failed r ≤ failed r'
  ∧ (∀ t, target = Some t → posted r' ≤ Z.max (posted r) t)
  ∧ handled r' ≤ handled r + 2 * Z.of_nat n.

Lemma incr_source_known source r :
  known_source source →
  posted (incr_source source r) = posted r
  ∧ skipped (incr_source source r) = skipped r
  ∧ failed (incr_source source r) = failed r
  ∧ errors (incr_source source r) = errors r
  ∧ flipkart (incr_source source r) + amazon (incr_source source r)
    = flipkart r + amazon r + 1.
Proof.
  intros [-> | ->]; unfold incr_source; simpl; repeat split; lia.
Qed.

Lemma results_after_post product w :
  has_known_source product →
  let r := results w in
  let r' := results (after_post limits product w) in
  source_surplus r' = source_surplus r
  ∧ error_deficit r' = error_deficit r
  ∧ posted r' = posted r + 1
  ∧ skipped r' = skipped r
  ∧ failed r ≤ failed r' ≤ failed r + 1
  ∧ (has_name product → failed r' = failed r).
Proof.
  intros Hknown r r'. subst r r'. unfold after_post.
  pose proof (incr_source_known (source product) (incr_posted (results w))
                Hknown) as (Hp & Hs & Hf & He & Hfa).
  unfold source_surplus, error_deficit, has_name.
  destruct (name product) as [n|]; cbn in *;
    rewrite ?Hp, ?Hs, ?Hf, ?He, ?length_app; cbn.
  - repeat split; try lia.
  - repeat split; try lia. by intros [? ?].
Qed.

Lemma results_after_failure error w :
  let r := results w in
  let r' := results (after_failure error w) in
  source_surplus r' = source_surplus r
  ∧ error_deficit r' = error_deficit r
  ∧ posted r' = posted r ∧ skipped r' = skipped r
  ∧ failed r' = failed r + 1.
Proof.
  unfold source_surplus, error_deficit. cbn. rewrite length_app. cbn.
  repeat split; lia.
Qed.

Lemma results_advance_refl target r : results_advance target 0 r r.
Proof. unfold results_advance. repeat split; intros; lia. Qed.

Lemma results_advance_step target n r r1 r' :
  source_surplus r1 = source_surplus r →
  error_deficit r1 = error_deficit r →
  posted r ≤ posted r1 → skipped r ≤ skipped r1 → failed r ≤ failed r1 →
  handled r1 ≤ handled r + 2 →
  (∀ t, target = Some t → posted r1 ≤ Z.max (posted r) t) →
  results_advance target n r1 r' →
  results_advance target (S n) r r'.
Proof.
  intros Hs He Hp Hk Hf Hh Ht (Hs' & He' & Hp' & Hk' & Hf' & Ht' & Hh').
  unfold results_advance. repeat split; try lia.
  intros t Htarget. specialize (Ht t Htarget). specialize (Ht' t Htarget).
  lia.
Qed.

(** Time does not run backwards, and requests are only added. *)
Definition time_advances (w w' : World) : Prop :=
  (requests w ≤ requests w')%nat
  ∧ ((∀ n, 0 ≤ latency net n) → clock w ≤ clock w').

Lemma delay_nonneg : 0 ≤ Js.or_default (delayBetweenPostsMs limits) 2000.
Proof. pose proof (or_default_pos (delayBetweenPostsMs limits) 2000). lia. Qed.

(** The loop never throws; its counts advance as described, it sends a
    bounded number of requests, and time does not run backwards. *)
Lemma postLoop_counts target products :
  Forall has_known_source products →
  ∀ w, ∃ w',
    postLoop limits env net formatProduct target products w = (Return tt, w')
    ∧ results_advance target (List.length products) (results w) (results w')
    ∧ time_advances w w'
    ∧ (requests w'
       ≤ requests w + List.length products * (1 + attempts_allowed limits))%nat.
Proof.
  induction 1 as [|product rest Hknown _ IH]; intros w.
  - exists w. split; [done|]. split; [apply results_advance_refl|].
    split; [split; lia | simpl; lia].
  - rewrite postLoop_step.
    destruct (Js.ge (Some (posted (results w))) target) eqn:Htarget.
    { exists w. split; [done|]. split.
      - unfold results_advance. repeat split; intros; lia.
      - split; [split; lia | simpl; lia]. }
    assert (∀ t, target = Some t → posted (results w) < t) as Hbelow.
    { intros t ->. simpl in Htarget.
      apply bool_decide_eq_false_1 in Htarget. lia. }
    cbn zeta.
    set (check := Scheduler.canPost limits env (clock w) (source product)
                    (categoryKey product) (dailyCounters w)).
    set (w1 := with_counters check.1 w).
    destruct (negb check.2.1).
    { destruct (IH (after_skip w1)) as (w' & -> & Hres & [Hreq Hclock] & Hbound).
      exists w'. split; [done|]. split.
      - eapply results_advance_step; [..|exact Hres]; cbn; try done;
          unfold handled; cbn; intros; lia.
      - split; [split; [exact Hreq | exact Hclock]|]. simpl in *. lia. }
    set (dup := Dedupe.isDuplicate limits (clock w1) (id product)
                  (source product) (postedProducts w1)).
    set (w2 := with_posted dup.1 w1).
    destruct dup.2.
    { destruct (IH (after_skip w2)) as (w' & -> & Hres & [Hreq Hclock] & Hbound).
      exists w'. split; [done|]. split.
      - eapply results_advance_step; [..|exact Hres]; cbn; try done;
          unfold handled; cbn; intros; lia.
      - split; [split; [exact Hreq | exact Hclock]|]. simpl in *. lia. }
    destruct (postDeal_spec limits env net
                (formatProduct product (categoryKey product))
                (imageUrl product) w2)
      as (success & w3 & -> & (_ & _ & Hr3 & Hreq3 & Hclock3) & Hbound3 & _).
    change (results w2) with (results w) in Hr3.
    change (requests w2) with (requests w) in Hreq3, Hbound3.
    change (clock w2) with (clock w) in Hclock3.
    destruct success.
    + destruct (IH (after_post limits product w3))
        as (w' & -> & Hres & [Hreq Hclock] & Hbound).
      pose proof (results_after_post product w3 Hknown)
        as (Hs & He & Hp & Hk & Hf & _). cbn zeta in *. rewrite Hr3 in *.
      assert (requests (after_post limits product w3) = requests w3) as Hr
        by (unfold after_post; by destruct (name product)).
      assert (clock w3 ≤ clock (after_post limits product w3)) as Hc.
      { unfold after_post. pose proof delay_nonneg.
        destruct (name product); cbn; lia. }
      exists w'. split; [done|]. split.
      * eapply results_advance_step; [..|exact Hres]; try lia;
          try (unfold handled; lia).
        intros t Ht. specialize (Hbelow t Ht). lia.
      * split; [split; [lia|]|simpl in *; lia].
        intros Hlat. specialize (Hclock Hlat). specialize (Hclock3 Hlat). lia.
    + destruct (IH (after_failure
                      ("Failed to post: " +:+ id_text (id product)) w3))
        as (w' & -> & Hres & [Hreq Hclock] & Hbound).
      pose proof (results_after_failure
                    ("Failed to post: " +:+ id_text (id product)) w3)
        as (Hs & He & Hp & Hk & Hf). cbn zeta in *. rewrite Hr3 in *.
      exists w'. split; [done|]. split.
      * eapply results_advance_step; [..|exact Hres]; try lia;
          try (unfold handled; lia); intros; lia.
      * split; [split; [simpl in *; lia|]|simpl in *; lia].
        intros Hlat. specialize (Hclock Hlat). specialize (Hclock3 Hlat).
        simpl in *. lia.
Qed.

(** With products that have a name, every candidate that is reached is
    handled once; only the session target ends the loop early. *)
Lemma postLoop_handles_all target products :
  Forall has_known_source products → Forall has_name products →
  ∀ w, ∃ w',
    postLoop limits env net formatProduct target products w = (Return tt, w')
    ∧ ((∃ t, target = Some t ∧ t ≤ posted (results w'))
       ∨ handled (results w')
         = handled (results w) + Z.of_nat (List.length products)).
Proof.
  induction 1 as [|product rest Hknown _ IH]; intros Hnamed w.
  - exists w. split; [done|]. right. simpl. lia.
  - apply Forall_cons in Hnamed as [Hname Hnamed]. specialize (IH Hnamed).
    rewrite postLoop_step.
    destruct (Js.ge (Some (posted (results w))) target) eqn:Htarget.
    { exists w. split; [done|]. left.
      destruct target as [t|]; [|done]. exists t. split; [done|].
      simpl in Htarget. by apply bool_decide_eq_true_1 in Htarget. }
    cbn zeta.
    set (check := Scheduler.canPost limits env (clock w) (source product)
                    (categoryKey product) (dailyCounters w)).
    set (w1 := with_counters check.1 w).
    assert (∀ w1' w', handled (results w1') = handled (results w) + 1 →
              (∃ t, target = Some t ∧ t ≤ posted (results w'))
              ∨ handled (results w')
                = handled (results w1') + Z.of_nat (List.length rest) →
              (∃ t, target = Some t ∧ t ≤ posted (results w'))
              ∨ handled (results w')
                = handled (results w)
                  + Z.of_nat (List.length (product :: rest))) as Hnext.
    { intros w1' w' H1 [Hl | Hr]; [by left|]. right. simpl. lia. }
    destruct (negb check.2.1).
    { destruct (IH (after_skip w1)) as (w' & -> & Hw').
      exists w'. split; [done|]. eapply Hnext; [|exact Hw'].
      unfold handled. cbn. lia. }
    set (dup := Dedupe.isDuplicate limits (clock w1) (id product)
                  (source product) (postedProducts w1)).
    set (w2 := with_posted dup.1 w1).
    destruct dup.2.
    { destruct (IH (after_skip w2)) as (w' & -> & Hw').
      exists w'. split; [done|]. eapply Hnext; [|exact Hw'].
      unfold handled. cbn. lia. }
    destruct (postDeal_spec limits env net
                (formatProduct product (categoryKey product))
                (imageUrl product) w2)
      as (success & w3 & -> & (_ & _ & Hr3 & _) & _).
    change (results w2) with (results w) in Hr3.
    destruct success.
    + destruct (IH (after_post limits product w3)) as (w' & -> & Hw').
      pose proof (results_after_post product w3 Hknown)
        as (_ & _ & Hp & Hk & _ & Hf). cbn zeta in *.
      specialize (Hf Hname). rewrite Hr3 in *.
      exists w'. split; [done|]. eapply Hnext; [|exact Hw'].
      unfold handled. lia.
    + destruct (IH (after_failure
                      ("Failed to post: " +:+ id_text (id product)) w3))
        as (w' & -> & Hw').
      pose proof (results_after_failure
                    ("Failed to post: " +:+ id_text (id product)) w3)
        as (_ & _ & Hp & Hk & Hf). cbn zeta in *. rewrite Hr3 in *.
      exists w'. split; [done|]. eapply Hnext; [|exact Hw'].
      unfold handled. lia.
Qed.

Lemma today_of_between a b c :
  a ≤ b → b ≤ c → today_of c = today_of a → today_of b = today_of a.
Proof.
  unfold today_of. intros Hab Hbc Hday.
  pose proof (Z.div_le_mono a b MS_PER_DAY eq_refl Hab).
  pose proof (Z.div_le_mono b c MS_PER_DAY eq_refl Hbc). lia.
Qed.

(** What [canPost] has checked when it allows a post. *)
Lemma canPost_allowed_below now source categoryKey c :
  Scheduler.date c = Some (today_of now) →
  (Scheduler.canPost limits env now source categoryKey c).2.1 = true →
  (∀ L, Scheduler.getTotalLimit limits env = Some L → Scheduler.total c < L)
  ∧ (∀ v, Scheduler.get_source c source = Some v →
          v < Scheduler.sourceLimit limits source)
  ∧ Js.or_zero (Scheduler.byCategory c !! categoryKey)
    < Scheduler.categoryLimit limits.
Proof.
  intros Hdate. rewrite canPost_allowed, initCounters_on_its_day by done.
  intros Hallowed. apply negb_true_iff in Hallowed.
  apply orb_false_iff in Hallowed as [Hallowed Hcat].
  apply orb_false_iff in Hallowed as [Htotal Hsource].
  unfold total_cap_hit, source_cap_hit, category_cap_hit, Js.ge,
    Scheduler.sourceLimit, Scheduler.categoryLimit, Js.or_zero in *.
  split; [|split].
  - intros L HL. rewrite HL in Htotal.
    apply bool_decide_eq_false_1 in Htotal. lia.
  - intros v Hv. rewrite Hv in Hsource.
    apply bool_decide_eq_false_1 in Hsource. lia.
  - apply bool_decide_eq_false_1 in Hcat. lia.
Qed.

(** No counter of [c'] is above the larger of its cap and its value in
    [c]. *)
Definition caps_respected (c c' : Scheduler.DailyCounters) : Prop :=
  (∀ L, Scheduler.getTotalLimit limits env = Some L →
        Scheduler.total c' ≤ Z.max (Scheduler.total c) L)
  ∧ Scheduler.flipkart c'
    ≤ Z.max (Scheduler.flipkart c) (Scheduler.sourceLimit limits "flipkart")
  ∧ Scheduler.amazon c'
    ≤ Z.max (Scheduler.amazon c) (Scheduler.sourceLimit limits "amazon")
  ∧ ∀ k, Js.or_zero (Scheduler.byCategory c' !! k)
         ≤ Z.max (Js.or_zero (Scheduler.byCategory c !! k))
                 (Scheduler.categoryLimit limits).

Lemma caps_respected_refl c : caps_respected c c.
Proof. unfold caps_respected. repeat split; intros; lia. Qed.

(** Recording a post that [canPost] has allowed keeps the caps. *)
Lemma caps_respected_post now later product c c' :
  has_known_source product →
  Scheduler.date c = Some (today_of now) →
  today_of later = today_of now →
  (Scheduler.canPost limits env now (source product) (categoryKey product)
     c).2.1 = true →
  caps_respected
    (Scheduler.incrementCounters later (source product) (categoryKey product)
       c) c' →
  caps_respected c c'.
Proof.
  intros Hknown Hdate Hlater Hallowed (Ht & Hf & Ha & Hc).
  destruct (canPost_allowed_below now (source product) (categoryKey product)
              c Hdate Hallowed) as (Htotal & Hsource & Hcat).
  assert (Scheduler.date c = Some (today_of later)) as Hdate'
    by (by rewrite Hlater).
  destruct (incrementCounters_frame later (source product)
              (categoryKey product) c Hdate') as (_ & Hby & Hsrc & _).
  assert (source product ≠ "total") as Hne
    by (by destruct Hknown as [-> | ->]).
  destruct (Hsrc Hne) as (Htot1 & Hget1 & Hother). cbn zeta in *.
  assert (∀ x, Scheduler.get_source x "flipkart"
               = Some (Scheduler.flipkart x)) as Hgf by done.
  assert (∀ x, Scheduler.get_source x "amazon"
               = Some (Scheduler.amazon x)) as Hga by done.
  unfold caps_respected. split; [|split; [|split]].
  - intros L HL. specialize (Ht L HL). specialize (Htotal L HL). lia.
  - destruct Hknown as [Hs | Hs]; rewrite Hs in *.
    + rewrite !Hgf in Hget1.
      change (Js.or_zero (Some ?v)) with v in Hget1.
      apply (inj Some) in Hget1. specialize (Hsource _ (Hgf c)). lia.
    + specialize (Hother "flipkart"). rewrite !Hgf in Hother.
      apply (inj Some) in Hother; [lia | done | done].
  - destruct Hknown as [Hs | Hs]; rewrite Hs in *.
    + specialize (Hother "amazon"). rewrite !Hga in Hother.
      apply (inj Some) in Hother; [lia | done | done].
    + rewrite !Hga in Hget1.
      change (Js.or_zero (Some ?v)) with v in Hget1.
      apply (inj Some) in Hget1. specialize (Hsource _ (Hga c)). lia.
  - intros k. specialize (Hc k). rewrite Hby in Hc.
    destruct (decide (categoryKey product = k)) as [<- | Hk].
    + rewrite lookup_insert_eq in Hc. simpl in Hc. lia.
    + by rewrite lookup_insert_ne in Hc.
Qed.

(** A run within one day counts every post and respects the caps. *)
Lemma postLoop_within_day target products :
  Forall has_known_source products →
  (∀ n, 0 ≤ latency net n) →
  ∀ w w',
    postLoop limits env net formatProduct target products w = (Return tt, w') →
    Scheduler.date (dailyCounters w) = Some (today_of (clock w)) →
    today_of (clock w') = today_of (clock w) →
    Scheduler.date (dailyCounters w') = Scheduler.date (dailyCounters w)
    ∧ Scheduler.total (dailyCounters w')
      = Scheduler.total (dailyCounters w)
        + (posted (results w') - posted (results w))
    ∧ caps_respected (dailyCounters w) (dailyCounters w').
Proof.
  intros Hknown Hlat. induction Hknown as [|product rest Hknown Hrest IH];
    intros w w' Hrun Hdate Hday.
  - injection Hrun as <-. split; [done|]. split; [lia|].
    apply caps_respected_refl.
  - rewrite postLoop_step in Hrun.
    destruct (Js.ge (Some (posted (results w))) target).
    { injection Hrun as <-. split; [done|]. split; [lia|].
      apply caps_respected_refl. }
    cbn zeta in Hrun.
    assert ((Scheduler.canPost limits env (clock w) (source product)
               (categoryKey product) (dailyCounters w)).1 = dailyCounters w)
      as Hsame
      by (by rewrite canPost_counters, initCounters_on_its_day).
    destruct ((Scheduler.canPost limits env (clock w) (source product)
                 (categoryKey product) (dailyCounters w)).2.1) eqn:Hallowed;
      cbn [negb] in Hrun.
    2:{ apply IH in Hrun; cbn; rewrite ?Hsame; try done.
        cbn in Hrun. by rewrite Hsame in Hrun. }
    destruct (Dedupe.isDuplicate limits _ (id product) (source product) _).2.
    { apply IH in Hrun; cbn; rewrite ?Hsame; try done.
      cbn in Hrun. by rewrite Hsame in Hrun. }
    match type of Hrun with
    | context [Telegram.postDeal _ _ _ _ _ ?w2] =>
        destruct (postDeal_spec limits env net
                    (formatProduct product (categoryKey product))
                    (imageUrl product) w2)
          as (success & w3 & Hdeal & (Hc3 & _ & Hr3 & _ & Hclock3) & _);
        rewrite Hdeal in Hrun
    end.
    cbn in Hc3, Hr3, Hclock3. rewrite Hsame in Hc3.
    specialize (Hclock3 Hlat).
    destruct success.
    + destruct (postLoop_counts target rest Hrest
                  (after_post limits product w3))
        as (w'' & Hrun' & _ & [_ Hclock] & _).
      rewrite Hrun in Hrun'. injection Hrun' as <-. specialize (Hclock Hlat).
      assert (clock w3 ≤ clock (after_post limits product w3)) as Hc.
      { unfold after_post. pose proof delay_nonneg.
        destruct (name product); cbn; lia. }
      assert (today_of (clock w3) = today_of (clock w)) as Hday3
        by (apply (today_of_between _ _ (clock w')); [done | lia | done]).
      assert (today_of (clock (after_post limits product w3))
              = today_of (clock w)) as Hday4
        by (apply (today_of_between _ _ (clock w')); [lia | done | done]).
      assert (dailyCounters (after_post limits product w3)
              = Scheduler.incrementCounters (clock w3) (source product)
                  (categoryKey product) (dailyCounters w)) as Hcounters
        by (unfold after_post; destruct (name product); cbn; by rewrite Hc3).
      assert (Scheduler.date (dailyCounters w) = Some (today_of (clock w3)))
        as Hdate3 by (by rewrite Hday3).
      destruct (incrementCounters_frame (clock w3) (source product)
                  (categoryKey product) (dailyCounters w) Hdate3)
        as (Hd1 & _ & Hsrc & _).
      assert (source product ≠ "total") as Hne
        by (by destruct Hknown as [-> | ->]).
      destruct (Hsrc Hne) as (Htot1 & _). cbn zeta in *.
      pose proof (results_after_post product w3 Hknown)
        as (_ & _ & Hp & _). cbn zeta in Hp. rewrite Hr3 in Hp.
      apply IH in Hrun as (Hd' & Ht' & Hcaps');
        [| rewrite Hcounters, Hd1, Hday4; done | by rewrite Hday4].
      rewrite Hcounters in Hd', Ht', Hcaps'.
      split; [congruence|]. split; [lia|].
      by apply (caps_respected_post (clock w) (clock w3) product).
    + destruct (postLoop_counts target rest Hrest
                  (after_failure
                     ("Failed to post: " +:+ id_text (id product)) w3))
        as (w'' & Hrun' & _ & [_ Hclock] & _).
      rewrite Hrun in Hrun'. injection Hrun' as <-. specialize (Hclock Hlat).
      cbn in Hclock.
      assert (today_of (clock w3) = today_of (clock w)) as Hday3
        by (apply (today_of_between _ _ (clock w')); [done | lia | done]).
      apply IH in Hrun as (Hd' & Ht' & Hcaps'); cbn;
        rewrite ?Hc3, ?Hday3; try done.
      cbn in Hd', Ht', Hcaps'. rewrite Hc3, ?Hr3 in *.
      split; [done|]. split; [lia | done].
Qed.

(** [postProducts] is its loop, run on empty results and on the counters
    of today, for the session target. *)
Lemma postProducts_unfold products w :
  let start := Scheduler.getPostsForSession limits env (clock w)
                 (dailyCounters w) in
  postProducts limits env net formatProduct products w
  = match postLoop limits env net formatProduct start.2 products
            (with_counters start.1 (with_results emptyResults w)) with
    | (Return _, w') => (Return (results w'), w')
    | (Throw e, w') => (Throw e, w')
    end.
Proof.
  unfold postProducts, bind, update_results, modify, getPostsForSession, get,
    ret. cbn.
  destruct (Scheduler.getPostsForSession limits env (clock w)
              (dailyCounters w)) as [c target]. cbn.
  by destruct (postLoop _ _ _ _ _ _ _) as [[[]|e] w'].
Qed.

(** X21.  [postProducts] never throws, and its result adds up.  For
    candidates from flipkart and amazon, the posts are the sum of the two
    per-source counts, every failure has its error message, and no more
    is posted than the session target.  No candidate is counted more than
    twice (posted and failed, for a product without name), and each
    costs at most one photo request and [maxRetries + 1] text requests. *)
Theorem postProducts_result_adds_up
    (products : list Product) (w : World)
    (Hsources : Forall has_known_source products) :
  let target := (Scheduler.getPostsForSession limits env (clock w)
                   (dailyCounters w)).2 in
  let w' := (postProducts limits env net formatProduct products w).2 in
  let r := results w' in
  (postProducts limits env net formatProduct products w).1 = Return r
  ∧ flipkart r + amazon r = posted r
  ∧ failed r = Z.of_nat (List.length (errors r))
  ∧ 0 ≤ posted r ∧ 0 ≤ skipped r ∧ 0 ≤ failed r
  ∧ (∀ t, target = Some t → posted r ≤ Z.max 0 t)
  ∧ handled r ≤ 2 * Z.of_nat (List.length products)
  ∧ (requests w'
     ≤ requests w + List.length products * (1 + attempts_allowed limits))%nat.
Proof.
  intros target w' r. subst r w' target. rewrite postProducts_unfold.
  cbn zeta.
  destruct (postLoop_counts
              (Scheduler.getPostsForSession limits env (clock w)
                 (dailyCounters w)).2 products Hsources
              (with_counters
                 (Scheduler.getPostsForSession limits env (clock w)
                    (dailyCounters w)).1 (with_results emptyResults w)))
    as (w' & -> & (Hs & He & Hp & Hk & Hf & Ht & Hh) & _ & Hreq).
  cbn in *. unfold source_surplus, error_deficit, handled in *. cbn in *.
  repeat split; try lia. intros t Htarget. specialize (Ht t Htarget). lia.
Qed.

(** X22.  Only the session target ends the loop early.  For named
    candidates from flipkart and amazon, either the posts have reached
    the session target, or every candidate was handled exactly once as
    posted, skipped or failed, whatever the transport answered: a rate
    limit does not stop the run. *)
Theorem postProducts_handles_every_candidate
    (products : list Product) (w : World)
    (Hsources : Forall has_known_source products)
    (Hnames : Forall has_name products) :
  let target := (Scheduler.getPostsForSession limits env (clock w)
                   (dailyCounters w)).2 in
  let r := results (postProducts limits env net formatProduct products w).2 in
  (∃ t, target = Some t ∧ t ≤ posted r)
  ∨ handled r = Z.of_nat (List.length products).
Proof.
  intros target r. subst r target. rewrite postProducts_unfold. cbn zeta.
  destruct (postLoop_handles_all
              (Scheduler.getPostsForSession limits env (clock w)
                 (dailyCounters w)).2 products Hsources Hnames
              (with_counters
                 (Scheduler.getPostsForSession limits env (clock w)
                    (dailyCounters w)).1 (with_results emptyResults w)))
    as (w' & -> & [Hl | Hr]); cbn; [by left|].
  right. rewrite Hr. unfold handled. cbn. lia.
Qed.

(** X23.  A run within one day never takes a counter over its cap.  Let
    the candidates come from flipkart and amazon, in categories whose
    names are no members of [Object.prototype], the latencies be no
    negative numbers, and the run end on the day it started.  Then the
    total counter has grown by the number of posts, and the total, the
    counters of flipkart and amazon and the counter of every category of
    such a name are each no larger than the larger of their cap and
    their value at the start of the run. *)
Theorem postProducts_respects_the_caps
    (products : list Product) (w : World)
    (Hsources : Forall has_known_source products)
    (Hcategories : Forall (λ product,
                             category_name (categoryKey product) = true)
                          products)
    (Hlatency : ∀ n, 0 ≤ latency net n) :
  let c := Scheduler.initCounters false (clock w) (dailyCounters w) in
  let w' := (postProducts limits env net formatProduct products w).2 in
  let c' := dailyCounters w' in
  today_of (clock w') = today_of (clock w) →
  Scheduler.date c' = Some (today_of (clock w))
  ∧ Scheduler.total c' = Scheduler.total c + posted (results w')
  ∧ (∀ L, Scheduler.getTotalLimit limits env = Some L →
          Scheduler.total c' ≤ Z.max (Scheduler.total c) L)
  ∧ Scheduler.flipkart c'
    ≤ Z.max (Scheduler.flipkart c) (Scheduler.sourceLimit limits "flipkart")
  ∧ Scheduler.amazon c'
    ≤ Z.max (Scheduler.amazon c) (Scheduler.sourceLimit limits "amazon")
  ∧ ∀ k, category_name k = true →
         Js.or_zero (Scheduler.byCategory c' !! k)
         ≤ Z.max (Js.or_zero (Scheduler.byCategory c !! k))
                 (Scheduler.categoryLimit limits).
Proof.
  intros c w' c'. subst c' w'. rewrite postProducts_unfold. cbn zeta.
  set (w1 := with_counters
               (Scheduler.getPostsForSession limits env (clock w)
                  (dailyCounters w)).1 (with_results emptyResults w)).
  assert (dailyCounters w1 = c) as Hc1 by done.
  destruct (postLoop_counts
              (Scheduler.getPostsForSession limits env (clock w)
                 (dailyCounters w)).2 products Hsources w1)
    as (w' & Hrun & _). rewrite Hrun. cbn [snd]. intros Hday.
  destruct (postLoop_within_day _ products Hsources Hlatency w1 w' Hrun)
    as (Hd & Ht & Hcaps).
  - rewrite Hc1. apply initCounters_date.
  - done.
  - rewrite Hc1 in *. cbn in Ht. split.
    + rewrite Hd. apply initCounters_date.
    + split; [lia|]. destruct Hcaps as (Ht' & Hf' & Ha' & Hk').
      split; [exact Ht'|]. split; [exact Hf'|]. split; [exact Ha'|].
      intros k _. apply Hk'.
Qed.

End PostingLoopCounts.

Lemma five_candidates_known : Forall has_known_source five_candidates.
Proof. repeat constructor; by (left + right). Qed.

Lemma five_candidates_named : Forall has_name five_candidates.
Proof. repeat constructor; by eexists. Qed.

Lemma five_candidates_categories :
  Forall (λ product, category_name (Dedupe.categoryKey product) = true)
         five_candidates.
Proof. by repeat constructor. Qed.

Lemma postProducts_result_adds_up_witness :
  let r := Eff.results
             (Run.postProducts readme_limits plain_env (reliable_network 100)
                plain_format five_candidates (fresh_world 1000)).2 in
  Forall has_known_source five_candidates
  ∧ Eff.flipkart r + Eff.amazon r = Eff.posted r
  ∧ Eff.failed r = Z.of_nat (List.length (Eff.errors r))
  ∧ handled r ≤ 10.
Proof.
  destruct (postProducts_result_adds_up readme_limits plain_env
              (reliable_network 100) plain_format five_candidates
              (fresh_world 1000) five_candidates_known)
    as (_ & Hsum & Herrors & _ & _ & _ & _ & Hhandled & _).
  exact (conj five_candidates_known (conj Hsum (conj Herrors Hhandled))).
Defined.

Lemma postProducts_handles_every_candidate_witness :
  let target := (Scheduler.getPostsForSession tight_limits plain_env 1000
                   (Eff.dailyCounters (fresh_world 1000))).2 in
  let r := Eff.results
             (Run.postProducts tight_limits plain_env failing_network
                plain_format five_candidates (fresh_world 1000)).2 in
  Forall has_known_source five_candidates
  ∧ Forall has_name five_candidates
  ∧ ((∃ t, target = Some t ∧ t ≤ Eff.posted r) ∨ handled r = 5).
Proof.
  exact (conj five_candidates_known
           (conj five_candidates_named
              (postProducts_handles_every_candidate tight_limits plain_env
                 failing_network plain_format five_candidates
                 (fresh_world 1000) five_candidates_known
                 five_candidates_named))).
Defined.

Lemma postProducts_respects_the_caps_witness :
  let w' := (Run.postProducts tight_limits plain_env (reliable_network 100)
               plain_format five_candidates (fresh_world 1000)).2 in
  today_of (Eff.clock w') = today_of 1000
  ∧ Scheduler.total (Eff.dailyCounters w') = Eff.posted (Eff.results w')
  ∧ Scheduler.total (Eff.dailyCounters w') ≤ 2.
Proof.
  assert (today_of
            (Eff.clock
               (Run.postProducts tight_limits plain_env (reliable_network 100)
                  plain_format five_candidates (fresh_world 1000)).2)
          = today_of (Eff.clock (fresh_world 1000))) as Hday
    by (vm_compute; reflexivity).
  destruct (postProducts_respects_the_caps tight_limits plain_env
              (reliable_network 100) plain_format five_candidates
              (fresh_world 1000) five_candidates_known
              five_candidates_categories
              (λ _, ltac:(simpl; lia)) Hday)
    as (_ & Htotal & Hcap & _).
  split; [exact Hday|]. split; [exact Htotal|].
  exact (Hcap 2 eq_refl).
Defined.

(** * A run under a total cap of two, in general *)
Section CappedRun.
Import Eff Dedupe Run.
Local Open Scope eff_scope.
Variable limits : Limits.
Variable env : Env.
Variable net : Network.
Variable formatProduct : Product → string → string.

(** Every send succeeds: the credentials are configured, a text message
    is tried at least once, and every request is answered with a
    success. *)
Definition always_succeeds : Prop :=
  credentials_configured env = true
  ∧ (0 < attempts_allowed limits)%nat
  ∧ ∀ n, delivered (respond net n) = true.

Lemma postDeal_delivers message imageUrl w :
  always_succeeds →
  ∃ w3, Telegram.postDeal limits env net message imageUrl w = (Return true, w3)
        ∧ only_time_passed net w w3.
Proof.
  intros (Hcred & Hattempts & Hdelivered).
  unfold Telegram.postDeal, try_catch, bind.
  assert (∀ w1, only_time_passed net w w1 →
            ∃ w3, (let (o, w2) := Telegram.sendMessageWithRetry limits env net
                                    message w1 in
                   match o with
                   | Return result => ret (bool_decide (is_Some result)) w2
                   | Throw e => (Throw e, w2)
                   end) = (Return true, w3)
                  ∧ only_time_passed net w w3) as Htext.
  { intros w1 Hw1. unfold Telegram.sendMessageWithRetry.
    fold (attempts_allowed limits).
    destruct (attempts_allowed limits) as [|remaining]; [lia|].
    cbn [Telegram.retryLoop]. unfold try_catch, bind.
    pose proof (sendMessage_cases env net message w1) as Hsend.
    rewrite Hcred, Hdelivered in Hsend. rewrite Hsend. cbn.
    eexists. split; [done|].
    eapply only_time_passed_trans; [exact Hw1|].
    apply only_time_passed_request. }
  destruct (Js.truthy imageUrl && Js.startsWith imageUrl "http").
  - destruct (sendPhoto_spec env net imageUrl message w)
      as [(e & _ & Hno) | (o & -> & Ho)]; [congruence|].
    destruct o as [data|].
    + eexists. split; [done|]. apply only_time_passed_request.
    + destruct Ho as [_ Ho]. by destruct (Ho (Hdelivered _)).
  - cbn. destruct (Htext w (only_time_passed_refl net w)) as (w3 & Hrun & Hw3).
    destruct (Telegram.sendMessageWithRetry _ _ _ _ _) as [[result|e] w2];
      [|done].
    cbn in Hrun. injection Hrun as Hres <-. rewrite Hres.
    eexists. split; [done | exact Hw3].
Qed.

Hypothesis Htotal : Scheduler.getTotalLimit limits env = Some 2.
Hypothesis Hcategory : Scheduler.categoryLimit limits = 1.
Hypothesis Hflipkart : 2 ≤ Scheduler.sourceLimit limits "flipkart".
Hypothesis Hamazon : 2 ≤ Scheduler.sourceLimit limits "amazon".
Hypothesis Htransport : always_succeeds.
Hypothesis Hlatency : ∀ n, 0 ≤ latency net n.

Local Abbreviation loop := (postLoop limits env net formatProduct (Some 2)).

(** The key of a product is not tracked. *)
Definition untracked (m : PostedMap) (product : Product) : Prop :=
  map_get (uniqueKey (id product) (source product)) m = None.

Lemma isDuplicate_untracked now product m :
  untracked m product →
  Dedupe.isDuplicate limits now (id product) (source product) m = (m, false).
Proof.
  unfold untracked, Dedupe.isDuplicate, isPosted. intros Hm.
  destruct (Js.truthy (uniqueKey _ _)); [|done]. cbn.
  by rewrite uniqueKey_lower, Hm.
Qed.

Lemma untracked_markPosted now marked product m :
  uniqueKey (id marked) (source marked)
  ≠ uniqueKey (id product) (source product) →
  untracked m product →
  untracked (Dedupe.markPosted now (id marked) (source marked) m) product.
Proof.
  unfold untracked, Dedupe.markPosted. intros Hne Hm.
  destruct (no_id (id marked)); [done|]. by rewrite map_get_set_ne.
Qed.

Lemma with_counters_same w : with_counters (dailyCounters w) w = w.
Proof. by destruct w. Qed.

Lemma with_posted_same w : with_posted (postedProducts w) w = w.
Proof. by destruct w. Qed.

(** The loop ends when the posts have reached the target. *)
Lemma loop_stops products w :
  2 ≤ posted (results w) → loop products w = (Return tt, w).
Proof.
  intros Hp. destruct products as [|product rest]; [done|].
  rewrite postLoop_step. cbn. by rewrite bool_decide_eq_true_2.
Qed.

(** An untracked candidate that [canPost] allows is sent and counted. *)
Lemma loop_posts product rest w :
  posted (results w) < 2 →
  Scheduler.date (dailyCounters w) = Some (today_of (clock w)) →
  (Scheduler.canPost limits env (clock w) (source product)
     (categoryKey product) (dailyCounters w)).2.1 = true →
  untracked (postedProducts w) product →
  ∃ w3, only_time_passed net w w3
        ∧ loop (product :: rest) w = loop rest (after_post limits product w3).
Proof.
  intros Hp Hdate Hallowed Hnew. rewrite postLoop_step.
  cbn [Js.ge]. rewrite bool_decide_eq_false_2 by lia. cbn zeta.
  rewrite Hallowed. cbn [negb].
  rewrite canPost_counters, initCounters_on_its_day, with_counters_same
    by done.
  rewrite isDuplicate_untracked by done. cbn [fst snd].
  rewrite with_posted_same.
  destruct (postDeal_delivers
              (formatProduct product (categoryKey product))
              (imageUrl product) w Htransport) as (w3 & -> & Hw3).
  by exists w3.
Qed.

(** A candidate that [canPost] refuses is skipped. *)
Lemma loop_skips product rest w :
  posted (results w) < 2 →
  Scheduler.date (dailyCounters w) = Some (today_of (clock w)) →
  (Scheduler.canPost limits env (clock w) (source product)
     (categoryKey product) (dailyCounters w)).2.1 = false →
  loop (product :: rest) w = loop rest (after_skip w).
Proof.
  intros Hp Hdate Hrefused. rewrite postLoop_step.
  cbn [Js.ge]. rewrite bool_decide_eq_false_2 by lia. cbn zeta.
  rewrite Hrefused. cbn [negb].
  by rewrite canPost_counters, initCounters_on_its_day, with_counters_same.
Qed.

(** The state after one post, in the category [k], on the day of the
    clock. *)
Definition one_post_in (k : string) (w : World) : Prop :=
  posted (results w) = 1 ∧ failed (results w) = 0
  ∧ Scheduler.date (dailyCounters w) = Some (today_of (clock w))
  ∧ Scheduler.total (dailyCounters w) = 1
  ∧ Scheduler.flipkart (dailyCounters w) ≤ 1
  ∧ Scheduler.amazon (dailyCounters w) ≤ 1
  ∧ ∀ k', Js.or_zero (Scheduler.byCategory (dailyCounters w) !! k')
          = if bool_decide (k' = k) then 1 else 0.

Lemma canPost_on_zero now source categoryKey :
  known_source source →
  (Scheduler.canPost limits env now source categoryKey
     (Scheduler.zeroCounters (Some (today_of now)))).2.1 = true.
Proof.
  intros Hknown. rewrite canPost_allowed, initCounters_on_its_day by done.
  unfold total_cap_hit, source_cap_hit, category_cap_hit.
  fold (Scheduler.sourceLimit limits source).
  fold (Scheduler.categoryLimit limits).
  rewrite Htotal, Hcategory. cbn.
  assert (2 ≤ Scheduler.sourceLimit limits source) as Hs
    by (by destruct Hknown as [-> | ->]).
  assert (Scheduler.get_source
            (Scheduler.zeroCounters (Some (today_of now))) source = Some 0)
    as -> by (by destruct Hknown as [-> | ->]).
  cbn. rewrite lookup_empty. cbn.
  by rewrite (bool_decide_eq_false_2
                (Scheduler.sourceLimit limits source ≤ 0)) by lia.
Qed.

Lemma canPost_after_one k w product :
  one_post_in k w → known_source (source product) →
  (Scheduler.canPost limits env (clock w) (source product)
     (categoryKey product) (dailyCounters w)).2.1
  = negb (bool_decide (categoryKey product = k)).
Proof.
  intros (_ & _ & Hdate & Ht & Hf & Ha & Hk) Hknown.
  rewrite canPost_allowed, initCounters_on_its_day by done.
  unfold total_cap_hit, source_cap_hit, category_cap_hit.
  fold (Scheduler.sourceLimit limits (source product)).
  fold (Scheduler.categoryLimit limits).
  rewrite Htotal, Hcategory, Ht.
  change (default 0 ?x) with (Js.or_zero x). rewrite Hk.
  assert (∃ v, Scheduler.get_source (dailyCounters w) (source product)
               = Some v
               ∧ v < Scheduler.sourceLimit limits (source product))
    as (v & -> & Hv).
  { destruct Hknown as [-> | ->]; eexists; (split; [reflexivity|]); lia. }
  cbn.
  rewrite (bool_decide_eq_false_2
             (Scheduler.sourceLimit limits (source product) ≤ v)) by lia.
  rewrite (bool_decide_eq_false_2 (2 ≤ 1)) by lia.
  by destruct (bool_decide (categoryKey product = k)).
Qed.

(** After one post, the candidates of its category are skipped. *)
Lemma loop_skips_category k same rest :
  Forall (λ product, known_source (source product)
                     ∧ categoryKey product = k) same →
  ∀ w, one_post_in k w →
    ∃ w', loop (same ++ rest) w = loop rest w'
          ∧ one_post_in k w'
          ∧ skipped (results w')
            = skipped (results w) + Z.of_nat (List.length same)
          ∧ clock w' = clock w
          ∧ postedProducts w' = postedProducts w.
Proof.
  induction 1 as [|product same [Hknown Hcat] _ IH]; intros w Hw.
  - exists w. repeat split; try done; try apply Hw. simpl. lia.
  - assert (one_post_in k (after_skip w)) as Hw' by exact Hw.
    destruct (IH (after_skip w) Hw') as (w' & Hrun & Hone & Hs & Hc & Hm).
    exists w'. split.
    + rewrite <- Hrun. simpl. apply loop_skips.
      * destruct Hw as (-> & _). lia.
      * apply Hw.
      * rewrite (canPost_after_one k) by done.
        by rewrite bool_decide_eq_true_2.
    + split; [done|]. cbn in Hs, Hc, Hm.
      split; [rewrite Hs; simpl; lia | done].
Qed.

Lemma initCounters_zero now d :
  Scheduler.initCounters false now (Scheduler.zeroCounters (Some d))
  = Scheduler.zeroCounters (Some (today_of now)).
Proof.
  unfold Scheduler.initCounters. cbn. case_bool_decide as Hd; [|done].
  cbn. by injection Hd as ->.
Qed.

(** The state after the first post of the day. *)
Lemma one_post_after_first product w :
  known_source (source product) → has_name product →
  results w = emptyResults →
  (∃ d, dailyCounters w = Scheduler.zeroCounters (Some d)) →
  today_of (clock (after_post limits product w)) = today_of (clock w) →
  one_post_in (categoryKey product) (after_post limits product w)
  ∧ skipped (results (after_post limits product w)) = 0
  ∧ postedProducts (after_post limits product w)
    = Dedupe.markPosted (clock w) (id product) (source product)
        (postedProducts w).
Proof.
  intros Hknown [n Hname] Hr [d Hc] Hday. revert Hday.
  unfold after_post, one_post_in. rewrite Hname. cbn. intros Hday.
  rewrite Hr, Hc. unfold Scheduler.incrementCounters.
  rewrite initCounters_zero.
  destruct Hknown as [-> | ->];
    unfold Scheduler.set_category, Scheduler.set_total, Scheduler.set_source,
      Scheduler.get_source, incr_source, incr_posted; simpl; rewrite Hday;
    (repeat split; try done; intros k';
     case_bool_decide as Hk;
     [subst k'; by rewrite lookup_insert_eq
     |by rewrite lookup_insert_ne, lookup_empty]).
Qed.

(** The loop on a first candidate, candidates of the same category, and a
    candidate of another category: the first and the last are posted,
    those between are skipped, and the rest is not reached. *)
Lemma capped_loop first same next rest w w' :
  Forall has_known_source (first :: same ++ next :: rest) →
  has_name first → has_name next →
  Forall (λ product, categoryKey product = categoryKey first) same →
  categoryKey next ≠ categoryKey first →
  untracked (postedProducts w) first →
  untracked (postedProducts w) next →
  uniqueKey (id first) (source first) ≠ uniqueKey (id next) (source next) →
  results w = emptyResults →
  dailyCounters w = Scheduler.zeroCounters (Some (today_of (clock w))) →
  loop (first :: same ++ next :: rest) w = (Return tt, w') →
  today_of (clock w') = today_of (clock w) →
  posted (results w') = 2
  ∧ failed (results w') = 0
  ∧ skipped (results w') = Z.of_nat (List.length same)
  ∧ Scheduler.total (dailyCounters w') = 2.
Proof.
  intros Hknown Hname1 Hname2 Hsame Hother Hnew1 Hnew2 Hkeys Hr Hc Hrun Hday.
  assert (Scheduler.date (dailyCounters w) = Some (today_of (clock w)))
    as Hdate by (by rewrite Hc).
  destruct (postLoop_within_day limits env net formatProduct (Some 2) _
              Hknown Hlatency w w' Hrun Hdate Hday) as (_ & Htotal' & _).
  rewrite Hr, Hc in Htotal'. cbn in Htotal'.
  apply Forall_cons in Hknown as [Hknown1 Hknown].
  pose proof Hknown as Hknown'.
  apply Forall_app in Hknown' as [Hknown_same Hknown'].
  apply Forall_cons in Hknown' as [Hknown2 _].
  (* the first candidate is posted *)
  destruct (loop_posts first (same ++ next :: rest) w)
    as (w3 & (Hc3 & Hm3 & Hr3 & _ & Hclock3) & Hstep); try done.
  { rewrite Hr. cbn. lia. }
  { rewrite Hc. by apply canPost_on_zero. }
  rewrite Hstep in Hrun. clear Hstep. specialize (Hclock3 Hlatency).
  assert (clock (after_post limits first w3)
          = clock w3 + Js.or_default (delayBetweenPostsMs limits) 2000)
    as Hclock2
    by (unfold after_post; destruct Hname1 as [n ->]; done).
  pose proof (delay_nonneg limits) as Hdelay.
  destruct (postLoop_counts limits env net formatProduct (Some 2) _ Hknown
              (after_post limits first w3))
    as (w'' & Hrun' & _ & [_ Hclock] & _).
  rewrite Hrun in Hrun'. injection Hrun' as <-. specialize (Hclock Hlatency).
  assert (today_of (clock w3) = today_of (clock w)) as Hday3
    by (apply (today_of_between _ _ (clock w')); [done | lia | done]).
  assert (today_of (clock (after_post limits first w3)) = today_of (clock w))
    as Hday2
    by (apply (today_of_between _ _ (clock w')); [lia | done | done]).
  destruct (one_post_after_first first w3) as (Hone & Hskipped & Hmarked);
    try done.
  { congruence. }
  { rewrite Hc3, Hc. by eexists. }
  { congruence. }
  (* the candidates of its category are skipped *)
  destruct (loop_skips_category (categoryKey first) same (next :: rest)
              ltac:(by apply Forall_and) _ Hone)
    as (w4 & Hstep & Hone4 & Hskipped4 & Hclock4 & Hm4).
  rewrite Hstep in Hrun. clear Hstep.
  (* the next candidate is the second post, and the loop ends *)
  destruct (loop_posts next rest w4)
    as (w5 & (_ & _ & Hr5 & _) & Hstep).
  { destruct Hone4 as (-> & _). lia. }
  { apply Hone4. }
  { rewrite (canPost_after_one (categoryKey first)) by done.
    by rewrite bool_decide_eq_false_2. }
  { rewrite Hm4, Hmarked, Hm3. by apply untracked_markPosted. }
  rewrite Hstep in Hrun. clear Hstep.
  pose proof (results_after_post limits next w5 Hknown2)
    as (_ & _ & Hp & Hs & _ & Hf). cbn zeta in *. specialize (Hf Hname2).
  destruct Hone4 as (Hp4 & Hf4 & _).
  rewrite loop_stops in Hrun by (rewrite Hp, Hr5, Hp4; lia).
  injection Hrun as <-.
  rewrite Hp, Hs, Hf, Hr5, Hp4, Hf4, Hskipped4, Hskipped in *.
  repeat split; lia.
Qed.

End CappedRun.

(** The key under which the tracker keeps a product. *)
Definition product_key (product : Dedupe.Product) : string :=
  Dedupe.uniqueKey (Dedupe.id product) (Dedupe.source product).

(** A candidate of the scenario: from flipkart or amazon, with a name,
    in a category whose name is no member of [Object.prototype]. *)
Definition scenario_candidate (product : Dedupe.Product) : Prop :=
  has_known_source product ∧ has_name product
  ∧ category_name (Dedupe.categoryKey product) = true.

(** C4, amended.  The total limit in force is two, each category allows
    one post, flipkart and amazon allow at least two posts each and a
    slot at least two posts; every send succeeds and takes no negative
    time.  No post has been recorded today, and the run ends on the day
    it starts.  The four candidates, two in each of two categories, come
    from flipkart or amazon, have a name and pairwise different keys, and
    none of them is tracked.  In whatever order they are fed to
    [postProducts], the run posts exactly two of them and fails none,
    the total counter is two afterwards, and one candidate is skipped
    when the first two are of the same category, none otherwise: the
    candidates after the second post are not reached. *)
Theorem capped_run_posts_two_and_skips_at_most_one
    (limits : Limits) (env : Env) (net : Eff.Network)
    (formatProduct : Dedupe.Product → string → string)
    (a1 a2 b1 b2 : Dedupe.Product) (products : list Dedupe.Product)
    (w : Eff.World)
    (Htotal : Scheduler.getTotalLimit limits env = Some 2)
    (Hcategory : Scheduler.categoryLimit limits = 1)
    (Hsources : 2 ≤ Scheduler.sourceLimit limits "flipkart"
                ∧ 2 ≤ Scheduler.sourceLimit limits "amazon")
    (Hslot : 2 ≤ Js.or_default (postsPerSlot limits) 4)
    (Htransport : always_succeeds limits env net)
    (Hlatency : ∀ n, 0 ≤ Eff.latency net n)
    (Hfresh : Scheduler.initCounters false (Eff.clock w) (Eff.dailyCounters w)
              = Scheduler.zeroCounters (Some (today_of (Eff.clock w))))
    (Hcandidates : Forall scenario_candidate [a1; a2; b1; b2])
    (Hcategories : Dedupe.categoryKey a1 = Dedupe.categoryKey a2
                   ∧ Dedupe.categoryKey b1 = Dedupe.categoryKey b2
                   ∧ Dedupe.categoryKey a1 ≠ Dedupe.categoryKey b1)
    (Hnew : Forall (untracked (Eff.postedProducts w)) [a1; a2; b1; b2])
    (Hdistinct : NoDup (product_key <$> [a1; a2; b1; b2]))
    (Horder : products ≡ₚ [a1; a2; b1; b2])
    (Hday : today_of
              (Eff.clock
                 (Run.postProducts limits env net formatProduct products w).2)
            = today_of (Eff.clock w)) :
  ∃ r w',
    Run.postProducts limits env net formatProduct products w
    = (Eff.Return r, w')
    ∧ Eff.posted r = 2
    ∧ Eff.failed r = 0
    ∧ Eff.skipped r = (if first_two_share_category products then 1 else 0)
    ∧ Eff.skipped r ≤ 1
    ∧ Scheduler.total (Eff.dailyCounters w') = 2.
Proof.
  rewrite postProducts_unfold in Hday |- *. cbn zeta in *.
  assert (Scheduler.getPostsForSession limits env (Eff.clock w)
            (Eff.dailyCounters w)
          = (Scheduler.zeroCounters (Some (today_of (Eff.clock w))), Some 2))
    as Hstart.
  { unfold Scheduler.getPostsForSession. rewrite Hfresh, Htotal. cbn.
    do 2 f_equal. lia. }
  rewrite Hstart in Hday |- *. cbn [fst snd] in *.
  set (w1 := Eff.with_counters _ (Eff.with_results Run.emptyResults w)) in *.
  assert (Forall has_known_source products) as Hknown.
  { rewrite Horder. eapply Forall_impl; [exact Hcandidates|].
    by intros product (? & _). }
  destruct (postLoop_counts limits env net formatProduct (Some 2) products
              Hknown w1) as (w' & Hrun & _).
  rewrite Hrun in Hday |- *. cbn [snd] in Hday.
  exists (Eff.results w'), w'. split; [done|].
  pose proof (capped_loop limits env net formatProduct Htotal Hcategory
                (proj1 Hsources) (proj2 Hsources) Htransport Hlatency)
    as Hloop.
  apply Forall_cons in Hcandidates as [(Hk1 & Hn1 & _) Hcandidates].
  apply Forall_cons in Hcandidates as [(Hk2 & Hn2 & _) Hcandidates].
  apply Forall_cons in Hcandidates as [(Hk3 & Hn3 & _) Hcandidates].
  apply Forall_cons in Hcandidates as [(Hk4 & Hn4 & _) _].
  apply Forall_cons in Hnew as [Hu1 Hnew].
  apply Forall_cons in Hnew as [Hu2 Hnew].
  apply Forall_cons in Hnew as [Hu3 Hnew].
  apply Forall_cons in Hnew as [Hu4 _].
  destruct Hcategories as (Hca & Hcb & Hcab).
  assert (product_key a1 ≠ product_key a2 ∧ product_key a1 ≠ product_key b1
          ∧ product_key a1 ≠ product_key b2 ∧ product_key a2 ≠ product_key b1
          ∧ product_key a2 ≠ product_key b2 ∧ product_key b1 ≠ product_key b2)
    as (H12 & H13 & H14 & H23 & H24 & H34).
  { change (NoDup [product_key a1; product_key a2; product_key b1;
                    product_key b2]) in Hdistinct.
    apply NoDup_cons in Hdistinct as [Hd1 Hdistinct].
    apply NoDup_cons in Hdistinct as [Hd2 Hdistinct].
    apply NoDup_cons in Hdistinct as [Hd3 _].
    repeat rewrite not_elem_of_cons in Hd1.
    repeat rewrite not_elem_of_cons in Hd2.
    repeat rewrite not_elem_of_cons in Hd3. tauto. }
  unfold product_key in *.
  symmetry in Horder. apply permutations_Permutation in Horder.
  cbn in Horder.
  repeat (apply elem_of_cons in Horder as [-> | Horder]);
    [..|by apply elem_of_nil in Horder];
    match type of Hrun with
    | Run.postLoop _ _ _ _ _ [?x1; ?x2; ?x3; ?x4] _ = _ =>
        unfold first_two_share_category;
        first
          [ rewrite (bool_decide_eq_false_2
                       (Dedupe.categoryKey x1 = Dedupe.categoryKey x2))
              by congruence;
            destruct (Hloop x1 [] x2 [x3; x4] w1 w')
              as (Hp & Hf & Hs & Ht)
          | rewrite (bool_decide_eq_true_2
                       (Dedupe.categoryKey x1 = Dedupe.categoryKey x2))
              by congruence;
            destruct (Hloop x1 [x2] x3 [x4] w1 w')
              as (Hp & Hf & Hs & Ht) ];
        try done; try congruence;
        try (repeat constructor; done || congruence);
        try (rewrite Hp, Hf, Hs, Ht; cbn; repeat split; lia)
    end.
Qed.

Lemma capped_run_posts_two_and_skips_at_most_one_witness :
  let a1 := candidate "a1" "flipkart" "mobiles" in
  let a2 := candidate "a2" "amazon" "mobiles" in
  let b1 := candidate "b1" "flipkart" "laptops" in
  let b2 := candidate "b2" "amazon" "laptops" in
  ∃ r w', capped_run [a2; a1; b1; b2] = (Eff.Return r, w')
          ∧ Eff.posted r = 2
          ∧ Eff.failed r = 0
          ∧ Eff.skipped r
            = (if first_two_share_category [a2; a1; b1; b2] then 1 else 0)
          ∧ Eff.skipped r ≤ 1
          ∧ Scheduler.total (Eff.dailyCounters w') = 2.
Proof.
  intros a1 a2 b1 b2.
  apply (capped_run_posts_two_and_skips_at_most_one tight_limits plain_env
           (reliable_network 100) plain_format a1 a2 b1 b2 [a2; a1; b1; b2]
           (fresh_world 1000)).
  - reflexivity.
  - reflexivity.
  - by vm_compute.
  - by vm_compute.
  - split; [reflexivity|]. split; [vm_compute; lia | by intros n].
  - intros n. simpl. lia.
  - reflexivity.
  - repeat constructor; try (by (left + right)); by eexists.
  - repeat split; discriminate.
  - by repeat constructor.
  - apply (bool_decide_unpack _). by vm_compute.
  - apply Permutation_swap.
  - by vm_compute.
Defined.

(** * Request authentication, message text and request spacing *)

(** ** [validateAuth] of api/run.js *)
Module Auth.

(** What [validateAuth] reads of a request: two headers and the query
    parameter [secret], each a string or absent ([undefined]; a query
    parameter given more than once is an array, which equals no string,
    and is absent here). *)
Record Request := {
  x_cron_secret : option string;     (* req.headers['x-cron-secret'] *)
  authorization : option string;     (* req.headers['authorization'] *)
  secret : option string;            (* req.query?.secret *)
}.

(** Truthiness of a string that may be [undefined]. *)
Definition truthy (x : option string) : bool := from_option Js.truthy false x.

(** [req.headers['x-cron-secret'] || req.headers['authorization']] *)
Definition headerSecret (req : Request) : option string :=
  if truthy (x_cron_secret req) then x_cron_secret req else authorization req.

(** [cronSecret] is [process.env.CRON_SECRET]. *)
Definition validateAuth (cronSecret : option string) (req : Request) : bool :=
  if negb (truthy cronSecret) then true
  else if bool_decide (headerSecret req = cronSecret)
          || bool_decide (headerSecret req
                          = (λ s, "Bearer " +:+ s) <$> cronSecret)
  then true
  else if bool_decide (secret req = cronSecret) then true
  else false.

End Auth.

(** ** lib/formatter.js: the text helpers *)
Module Formatter.

(** [text.replace(/c/g, by)] for a single character [c]. *)
Fixpoint replace (c : ascii) (by_ : string) (text : string) : string :=
  match text with
  | EmptyString => EmptyString
  | String a rest =>
      if Ascii.eqb a c then by_ +:+ replace c by_ rest
      else String a (replace c by_ rest)
  end.

(** [text] is a string or [undefined]. *)
Definition escapeHtml (text : option string) : string :=
  match text with
  | Some t =>
      if negb (Js.truthy t) then ""
      else replace ">" "&gt;" (replace "<" "&lt;" (replace "&" "&amp;" t))
  | None => ""
  end.

(** [text.substring(0, n)]: a negative [n] counts as 0, and no more than
    the text is returned.  Lengths and positions count the characters of
    the string, which are the code units of [text.length] for a text of
    ASCII characters. *)
Definition substring_to (n : Z) (text : string) : string :=
  String.substring 0 (Z.to_nat n) text.

Definition truncate (text : option string) (maxLength : Z) : option string :=
  match text with
  | Some t =>
      if negb (Js.truthy t) || bool_decide (Z.of_nat (String.length t) ≤ maxLength)
      then text
      else Some (substring_to (maxLength - 3) t +:+ "...")
  | None => text
  end.

(** [escapeHtml(truncate(name, 80))] of [formatProduct]. *)
Definition productName (name : option string) : string :=
  escapeHtml (truncate name 80).

End Formatter.

(** ** lib/amazon.js: the spacing of requests *)
Module Amazon.

Definition MIN_REQUEST_INTERVAL : Z := 1100.

(** The clock and the module variable [lastRequestTime]. *)
Record Limiter := { clock : Z; lastRequestTime : Z }.

(** The timer of [setTimeout(resolve, waitTime)] fires [late] milliseconds
    after [waitTime] has passed. *)
Definition enforceRateLimit (late : Z) (st : Limiter) : Limiter :=
  let now := clock st in
  let timeSinceLastRequest := now - lastRequestTime st in
  let clock' :=
    if bool_decide (timeSinceLastRequest < MIN_REQUEST_INTERVAL)
    then let waitTime := MIN_REQUEST_INTERVAL - timeSinceLastRequest in
         now + waitTime + late
    else now in
  {| clock := clock'; lastRequestTime := clock' |}.

End Amazon.

Section Authentication.
Import Auth.

(** X24.  With a secret configured, [validateAuth] accepts a request only
    if one of the two headers holds the secret, bare or after
    [Bearer ], or the query parameter holds the secret. *)
Theorem validateAuth_accepts_only_with_the_secret
    (cronSecret : string) (req : Request)
    (Hconfigured : cronSecret ≠ "")
    (Haccepted : validateAuth (Some cronSecret) req = true) :
  let presented h :=
    h = Some cronSecret ∨ h = Some ("Bearer " +:+ cronSecret) in
  presented (x_cron_secret req) ∨ presented (authorization req)
  ∨ secret req = Some cronSecret.
Proof.
  intros presented. unfold validateAuth in Haccepted.
  assert (truthy (Some cronSecret) = true) as Ht.
  { unfold truthy, Js.truthy. cbn. by rewrite bool_decide_eq_false_2. }
  rewrite Ht in Haccepted. cbn [negb fmap option_fmap option_map] in Haccepted.
  assert (presented (headerSecret req) ∨ secret req = Some cronSecret) as [H|H].
  { repeat case_bool_decide; try discriminate; unfold presented; auto. }
  - unfold headerSecret in H. destruct (truthy (x_cron_secret req)); auto.
  - auto.
Qed.

(** X25.  A wrong [x-cron-secret] header hides the [authorization] header.
    With a secret configured, a request whose [x-cron-secret] header is a
    non-empty string other than the secret (bare or after [Bearer ]), and
    whose query parameter is not the secret, is refused whatever its
    [authorization] header holds, the secret included. *)
Theorem wrong_cron_header_hides_the_authorization_header
    (cronSecret header : string) (query : option string)
    (Hconfigured : cronSecret ≠ "")
    (Hheader : header ≠ "")
    (Hwrong : header ≠ cronSecret ∧ header ≠ "Bearer " +:+ cronSecret)
    (Hquery : query ≠ Some cronSecret) :
  ∀ auth,
    validateAuth (Some cronSecret)
      {| x_cron_secret := Some header; authorization := auth;
         secret := query |} = false.
Proof.
  intros auth. unfold validateAuth, headerSecret, truthy, Js.truthy. cbn.
  rewrite (bool_decide_eq_false_2 (cronSecret = "")) by done.
  rewrite (bool_decide_eq_false_2 (header = "")) by done. cbn.
  destruct Hwrong as [H1 H2].
  rewrite !bool_decide_eq_false_2; [done | done | congruence | congruence].
Qed.

End Authentication.

Lemma validateAuth_accepts_only_with_the_secret_witness :
  let req := {| Auth.x_cron_secret := None;
                Auth.authorization := Some "Bearer s3cret";
                Auth.secret := None |} in
  let presented h := h = Some "s3cret" ∨ h = Some "Bearer s3cret" in
  Auth.validateAuth (Some "s3cret") req = true
  ∧ (presented (Auth.x_cron_secret req) ∨ presented (Auth.authorization req)
     ∨ Auth.secret req = Some "s3cret").
Proof.
  intros req presented. split; [reflexivity|].
  apply (validateAuth_accepts_only_with_the_secret "s3cret" req);
    [discriminate | reflexivity].
Defined.

Lemma wrong_cron_header_hides_the_authorization_header_witness :
  Auth.validateAuth (Some "s3cret")
    {| Auth.x_cron_secret := Some "guess";
       Auth.authorization := Some "Bearer s3cret";
       Auth.secret := None |} = false.
Proof.
  apply (wrong_cron_header_hides_the_authorization_header "s3cret" "guess"
           None); [discriminate | discriminate | | discriminate].
  split; discriminate.
Defined.

Section MessageText.
Import Formatter.

Lemma string_app_cons a (s t : string) : String a s +:+ t = String a (s +:+ t).
Proof. reflexivity. Qed.

Lemma string_app_assoc (s t u : string) :
  (s +:+ t) +:+ u = s +:+ (t +:+ u).
Proof.
  induction s as [|a s IH]; [done|]. by rewrite !string_app_cons, IH.
Qed.

Lemma replace_app c by_ s t :
  replace c by_ (s +:+ t) = replace c by_ s +:+ replace c by_ t.
Proof.
  induction s as [|a s IH]; [done|].
  change (String a s +:+ t) with (String a (s +:+ t)).
  cbn [replace]. rewrite IH.
  destruct (Ascii.eqb a c); [|done]. by rewrite string_app_assoc.
Qed.

(** The three passes, without the test for an empty text. *)
Definition escaped (t : string) : string :=
  replace ">" "&gt;" (replace "<" "&lt;" (replace "&" "&amp;" t)).

Lemma escapeHtml_escaped t : escapeHtml (Some t) = escaped t.
Proof. by destruct t. Qed.

Lemma escaped_cons a t : escaped (String a t) = escaped (String a "") +:+ escaped t.
Proof.
  change (String a t) with (String a "" +:+ t). unfold escaped.
  by rewrite !replace_app.
Qed.

Lemma escaped_app s t : escaped (s +:+ t) = escaped s +:+ escaped t.
Proof. unfold escaped. by rewrite !replace_app. Qed.

Lemma escaped_char a :
  (a = "&"%char ∧ escaped (String a "") = "&amp;")
  ∨ (a = "<"%char ∧ escaped (String a "") = "&lt;")
  ∨ (a = ">"%char ∧ escaped (String a "") = "&gt;")
  ∨ (a ≠ "&"%char ∧ a ≠ "<"%char ∧ a ≠ ">"%char
     ∧ escaped (String a "") = String a "").
Proof.
  destruct (Ascii.eqb_spec a "&") as [->|Hamp]; [by left|].
  destruct (Ascii.eqb_spec a "<") as [->|Hlt]; [by right; left|].
  destruct (Ascii.eqb_spec a ">") as [->|Hgt]; [by right; right; left|].
  right; right; right. repeat split; try done.
  unfold escaped. cbn.
  rewrite (proj2 (Ascii.eqb_neq a "&") Hamp). cbn.
  rewrite (proj2 (Ascii.eqb_neq a "<") Hlt). cbn.
  by rewrite (proj2 (Ascii.eqb_neq a ">") Hgt).
Qed.

(** X26.  [escapeHtml] escapes character by character, each character
    once: the three passes do not escape the [&] of an entity that an
    earlier pass wrote.  The result of a concatenation is the
    concatenation of the results; [&], [<] and [>] become [&amp;], [&lt;]
    and [&gt;], every other character stays; and the result holds no
    [<] and no [>]. *)
Theorem escapeHtml_escapes_each_character_once :
  (∀ s t, escapeHtml (Some (s +:+ t))
          = escapeHtml (Some s) +:+ escapeHtml (Some t))
  ∧ escapeHtml (Some "&") = "&amp;"
  ∧ escapeHtml (Some "<") = "&lt;"
  ∧ escapeHtml (Some ">") = "&gt;"
  ∧ (∀ a : ascii, a ≠ "&"%char → a ≠ "<"%char → a ≠ ">"%char →
       escapeHtml (Some (String a "")) = String a "")
  ∧ ∀ text, Forall (λ a : ascii, a ≠ "<"%char ∧ a ≠ ">"%char)
              (list_ascii_of_string (escapeHtml text)).
Proof.
  split; [|split; [done|split; [done|split; [done|split]]]].
  - intros s t. rewrite !escapeHtml_escaped. apply escaped_app.
  - intros a Hamp Hlt Hgt. rewrite escapeHtml_escaped.
    destruct (escaped_char a) as [[-> _]|[[-> _]|[[-> _]|(_ & _ & _ & H)]]];
      done.
  - intros [t|]; [|constructor]. rewrite escapeHtml_escaped.
    induction t as [|a t IH]; [constructor|]. rewrite escaped_cons.
    destruct (escaped_char a)
      as [[_ ->]|[[_ ->]|[[_ ->]|(_ & Hlt & Hgt & ->)]]]; cbn;
      repeat (constructor; [by split|]); exact IH.
Qed.

Lemma escaped_injective s :
  ∀ t, escaped s = escaped t → s = t.
Proof.
  induction s as [|a s IH]; intros [|b t] Heq; [done| | |].
  - exfalso. rewrite escaped_cons in Heq.
    destruct (escaped_char b) as [[_ H]|[[_ H]|[[_ H]|(_ & _ & _ & H)]]];
      rewrite H, ?string_app_cons in Heq; discriminate Heq.
  - exfalso. rewrite escaped_cons in Heq.
    destruct (escaped_char a) as [[_ H]|[[_ H]|[[_ H]|(_ & _ & _ & H)]]];
      rewrite H, ?string_app_cons in Heq; discriminate Heq.
  - rewrite (escaped_cons a), (escaped_cons b) in Heq.
    pose proof (escaped_char a) as Ha. pose proof (escaped_char b) as Hb.
    set (ea := escaped (String a "")) in *.
    set (eb := escaped (String b "")) in *. clearbody ea eb.
    destruct Ha as [[-> ->]|[[-> ->]|[[-> ->]|(Ha1 & Ha2 & Ha3 & ->)]]];
    destruct Hb as [[-> ->]|[[-> ->]|[[-> ->]|(Hb1 & Hb2 & Hb3 & ->)]]];
    rewrite ?string_app_cons in Heq; inversion Heq; subst; try done;
    f_equal; by apply IH.
Qed.

(** X27.  [escapeHtml] loses nothing: two different texts have different
    escaped forms, so that the text can be read back from the message. *)
Theorem escapeHtml_tells_texts_apart (s t : string) (Hdiffer : s ≠ t) :
  escapeHtml (Some s) ≠ escapeHtml (Some t).
Proof.
  rewrite !escapeHtml_escaped. intros Heq. by apply Hdiffer, escaped_injective.
Qed.

Lemma string_length_app (s t : string) :
  String.length (s +:+ t) = (String.length s + String.length t)%nat.
Proof.
  induction s as [|a s IH]; [done|]. rewrite string_app_cons. cbn.
  by rewrite IH.
Qed.

Lemma string_length_substring n (s : string) :
  String.length (String.substring 0 n s) = Nat.min n (String.length s).
Proof.
  revert s. induction n as [|n IH]; intros [|a s]; cbn; try done.
  by rewrite IH.
Qed.

(** X28.  [truncate] keeps a text within the limit, if the limit leaves
    room for the three dots.  For a limit of at least 3, the result is no
    longer than the limit, it is the text itself when that fits, and
    truncating it again changes nothing. *)
Theorem truncate_fits_the_limit (t : string) (maxLength : Z)
    (Hroom : 3 ≤ maxLength) :
  ∃ r, truncate (Some t) maxLength = Some r
       ∧ Z.of_nat (String.length r) ≤ maxLength
       ∧ (Z.of_nat (String.length t) ≤ maxLength → r = t)
       ∧ truncate (Some r) maxLength = Some r.
Proof.
  unfold truncate.
  destruct (decide (Z.of_nat (String.length t) ≤ maxLength)) as [Hfit|Hlong].
  - exists t. rewrite (bool_decide_eq_true_2 _ Hfit), orb_true_r. done.
  - rewrite (bool_decide_eq_false_2 _ Hlong), orb_false_r.
    assert (Js.truthy t = true) as ->.
    { destruct t; [cbn in Hlong; lia | done]. }
    cbn [negb]. eexists. split; [done|].
    assert (Z.of_nat
              (String.length (substring_to (maxLength - 3) t +:+ "..."))
            = maxLength) as Hlen.
    { unfold substring_to. rewrite string_length_app, string_length_substring. cbn. lia. }
    split; [lia|]. split; [lia|].
    rewrite (bool_decide_eq_true_2 _ (Z.eq_le_incl _ _ Hlen)).
    by rewrite orb_true_r.
Qed.

(** X29.  Below a limit of 3, [truncate] overshoots: a non-empty text
    longer than the limit becomes the three dots, which are longer than
    the limit. *)
Theorem truncate_below_three_gives_the_dots (t : string) (maxLength : Z)
    (Hnonempty : t ≠ "")
    (Hlimit : maxLength < 3)
    (Hlong : maxLength < Z.of_nat (String.length t)) :
  truncate (Some t) maxLength = Some "...".
Proof.
  unfold truncate, Js.truthy, substring_to.
  rewrite (bool_decide_eq_false_2 (t = "")) by done.
  rewrite bool_decide_eq_false_2 by lia. cbn.
  replace (Z.to_nat (maxLength - 3)) with 0%nat by lia.
  by destruct t.
Qed.

End MessageText.

Lemma escapeHtml_tells_texts_apart_witness :
  Formatter.escapeHtml (Some "<") ≠ Formatter.escapeHtml (Some "&lt;").
Proof.
  apply (escapeHtml_tells_texts_apart "<" "&lt;"). discriminate.
Defined.

Lemma truncate_fits_the_limit_witness :
  ∃ r, Formatter.truncate (Some "Wireless Headphones") 10 = Some r
       ∧ Z.of_nat (String.length r) ≤ 10
       ∧ (Z.of_nat (String.length "Wireless Headphones") ≤ 10
          → r = "Wireless Headphones")
       ∧ Formatter.truncate (Some r) 10 = Some r.
Proof. apply (truncate_fits_the_limit "Wireless Headphones" 10). lia. Defined.

Lemma truncate_below_three_gives_the_dots_witness :
  Formatter.truncate (Some "ab") 1 = Some "...".
Proof.
  apply (truncate_below_three_gives_the_dots "ab" 1);
    [discriminate | lia | cbn; lia].
Defined.

Section RequestSpacing.
Import Amazon.

(** X30.  [enforceRateLimit] spaces the requests.  When the timer is not
    early, the call returns at least [MIN_REQUEST_INTERVAL] after the
    previous call returned, whatever the clock shows on entry, and it
    records the time of its return; with an exact timer it returns at the
    later of the time of entry and the end of the interval. *)
Theorem enforceRateLimit_spaces_requests (late : Z) (st : Limiter)
    (Hlate : 0 ≤ late) :
  let st' := enforceRateLimit late st in
  lastRequestTime st' = clock st'
  ∧ lastRequestTime st + MIN_REQUEST_INTERVAL ≤ lastRequestTime st'
  ∧ clock st ≤ clock st'
  ∧ (late = 0 →
     clock st' = Z.max (clock st) (lastRequestTime st + MIN_REQUEST_INTERVAL)).
Proof.
  unfold enforceRateLimit, MIN_REQUEST_INTERVAL. cbn.
  case_bool_decide; repeat split; lia.
Qed.

End RequestSpacing.

Lemma enforceRateLimit_spaces_requests_witness :
  let st' := Amazon.enforceRateLimit 2
               {| Amazon.clock := 5000; Amazon.lastRequestTime := 4500 |} in
  Amazon.lastRequestTime st' = Amazon.clock st'
  ∧ 4500 + Amazon.MIN_REQUEST_INTERVAL ≤ Amazon.lastRequestTime st'
  ∧ 5000 ≤ Amazon.clock st'
  ∧ (2 = 0 → Amazon.clock st'
             = Z.max 5000 (4500 + Amazon.MIN_REQUEST_INTERVAL)).
Proof.
  apply (enforceRateLimit_spaces_requests 2
           {| Amazon.clock := 5000; Amazon.lastRequestTime := 4500 |}).
  lia.
Defined.
